(** * SherlockChromes: the 1-D region proposal network loss, its
      orchestrator, and two chromatogram helpers.

    Sources embedded here:
    - [models/rpn1d/region_proposal_network_1d.py]
      ([RegionProposalNetwork1d]: [__init__], [smooth_l1_loss],
      [rpn_loss], [forward]);
    - [osw_utils/evaluation_parser_cluster.py] ([overlaps]);
    - [utils/osw_parser.py] ([get_chromatogram_labels_and_bbox]).

    Tensor entries are idealised as real numbers: rounding, overflow and
    infinities of the machine floats are outside that model. The one
    non-finite value that the code can produce there, the NaN of a mean
    over zero elements, is kept explicit. A second model of the
    regression loss, [Float32], runs on IEEE float32 values: it shows
    what overflow does, and on it the loss is compared with its
    reference definition exactly. The theorems on the real-valued
    model that depend on the size of the entries are stated under
    [Magnitude] bounds that keep float32 away from overflow. *)

From Stdlib Require Import String Reals Lra Lia ZArith Bool QArith List.
From Stdlib Require SpecFloat.
From Stdlib Require Import Ranalysis1 Sorted DecimalString.
Import ListNotations.

(** ** Python exceptions and the result monad *)

Module Py.

Inductive exn : Type :=
| AssertionError (msg : string)
| NotImplementedError
| NameError (name : string)
| IndexError
| ValueError
| RuntimeError
| ZeroDivisionError
| TypeError
| External (msg : string).   (* raised inside a collaborator *)

Inductive result (A : Type) : Type :=
| Ok (a : A)
| Raise (e : exn).

Arguments Ok {A} a.
Arguments Raise {A} e.

Definition bind {A B : Type} (m : result A) (k : A -> result B) : result B :=
  match m with
  | Ok a => k a
  | Raise e => Raise e
  end.

Definition succeeds {A : Type} (m : result A) : Prop := exists a, m = Ok a.

(** [assert cond, msg] *)
Definition assert (cond : bool) (msg : string) : result unit :=
  if cond then Ok tt else Raise (AssertionError msg).

End Py.

Import Py.

Declare Scope py_scope.
Delimit Scope py_scope with py.
Notation "x <- m ;; k" := (bind m (fun x => k))
  (at level 61, m at next level, right associativity) : py_scope.
Notation "' p <- m ;; k" := (bind m (fun x => let p := x in k))
  (at level 61, p pattern, m at next level, right associativity) : py_scope.

(** ** Tensors over idealised reals *)

Module Tensor.

Local Open Scope R_scope.

(** A scalar result of a reduction: a finite value, or the NaN that
    [mean] yields on a tensor without elements. *)
Inductive tfloat : Type :=
| Fin (r : R)
| NaN.

Definition tf_add (a b : tfloat) : tfloat :=
  match a, b with
  | Fin x, Fin y => Fin (x + y)
  | _, _ => NaN
  end.

(** Python float times 0-d tensor. *)
Definition tf_scale (w : R) (a : tfloat) : tfloat :=
  match a with
  | Fin x => Fin (w * x)
  | NaN => NaN
  end.

Definition row : Type := (R * R)%type.
(** Shape (N, 2): one row per anchor, the two regression channels. *)
Definition tensor2 : Type := list row.

Inductive tensor : Type :=
| T0 (x : R)
| T1 (v : list R)
| T2 (m : tensor2).

Definition Rsum (l : list R) : R := fold_right Rplus 0 l.

Fixpoint zip_with {A B C : Type} (f : A -> B -> C) (a : list A) (b : list B)
  : list C :=
  match a, b with
  | x :: a', y :: b' => f x y :: zip_with f a' b'
  | _, _ => []
  end.

Definition row_map (f : R -> R) (a : row) : row := (f (fst a), f (snd a)).
Definition row_map2 (f : R -> R -> R) (a b : row) : row :=
  (f (fst a) (fst b), f (snd a) (snd b)).

Definition tmap (f : R -> R) (t : tensor2) : tensor2 := map (row_map f) t.

(** Elementwise binary operation on two (N, 2) / (M, 2) tensors with
    torch's broadcasting on the first dimension: the sizes must agree or
    one of them must be 1. *)
Definition ew2 (f : R -> R -> R) (a b : tensor2) : result tensor2 :=
  if Nat.eqb (length a) (length b) then Ok (zip_with (row_map2 f) a b)
  else match a, b with
       | [x], _ => Ok (map (row_map2 f x) b)
       | _, [y] => Ok (map (fun x => row_map2 f x y) a)
       | _, _ => Raise RuntimeError
       end.

(** [t.view(-1, 2)] of a flat sequence of entries. *)
Fixpoint view_2 (l : list R) : result tensor2 :=
  match l with
  | [] => Ok []
  | [_] => Raise RuntimeError
  | a :: b :: t => bind (view_2 t) (fun rest => Ok ((a, b) :: rest))
  end.

Fixpoint flat (m : tensor2) : list R :=
  match m with
  | [] => []
  | (a, b) :: t => a :: b :: flat t
  end.

Definition elements (t : tensor) : list R :=
  match t with
  | T0 x => [x]
  | T1 v => v
  | T2 m => flat m
  end.

(** [t.sum(i)] for one dimension [i] (negative indices count from the
    end; a 0-d tensor accepts 0 and -1). *)
Definition tsum (t : tensor) (i : Z) : result tensor :=
  match t with
  | T2 m =>
      if (i =? 1)%Z || (i =? -1)%Z
      then Ok (T1 (map (fun r => fst r + snd r) m))
      else if (i =? 0)%Z || (i =? -2)%Z
      then Ok (T1 [Rsum (map fst m); Rsum (map snd m)])
      else Raise IndexError
  | T1 v =>
      if (i =? 0)%Z || (i =? -1)%Z then Ok (T0 (Rsum v)) else Raise IndexError
  | T0 x =>
      if (i =? 0)%Z || (i =? -1)%Z then Ok (T0 x) else Raise IndexError
  end.

Definition mean_list (l : list R) : tfloat :=
  match l with
  | [] => NaN
  | _ :: _ => Fin (Rsum l / INR (length l))
  end.

(** [t.mean()]: over all elements. *)
Definition tmean (t : tensor) : tfloat := mean_list (elements t).

(** [sorted(dim, reverse=True)] *)
Fixpoint insert_desc (x : Z) (l : list Z) : list Z :=
  match l with
  | [] => [x]
  | y :: l' => if (y <=? x)%Z then x :: l else y :: insert_desc x l'
  end.

Definition sorted_reverse (dim : list Z) : list Z :=
  fold_right insert_desc [] dim.

(** [(labels != -1).nonzero().view(-1)]: the positions that hold. *)
Fixpoint nonzero_from (i : nat) (mask : list bool) : list nat :=
  match mask with
  | [] => []
  | b :: mask' =>
      if b then i :: nonzero_from (S i) mask' else nonzero_from (S i) mask'
  end.

Definition nonzero (mask : list bool) : list nat := nonzero_from 0 mask.

(** [t.index_select(0, idx)] on a 1-d tensor. *)
Fixpoint index_select {A : Type} (t : list A) (idx : list nat)
  : result (list A) :=
  match idx with
  | [] => Ok []
  | i :: idx' =>
      match nth_error t i with
      | None => Raise IndexError
      | Some x => bind (index_select t idx') (fun rest => Ok (x :: rest))
      end
  end.

Definition Rleb (x y : R) : bool := if Rle_dec x y then true else false.

(** [torch.log] clamped below at -100, as [F.binary_cross_entropy]
    does ([log 0] is minus infinity there, hence -100). *)
Definition clamped_log (x : R) : R :=
  if Rle_dec x 0 then -100 else Rmax (ln x) (-100).

Definition bce_term (x y : R) : R :=
  - (y * clamped_log x + (1 - y) * clamped_log (1 - x)).

(** [F.binary_cross_entropy(input, target)] with the default mean
    reduction: sizes must agree, inputs must lie in [0, 1]. *)
Definition binary_cross_entropy (input target : list R) : result tfloat :=
  if negb (Nat.eqb (length target) (length input)) then Raise ValueError
  else if negb (forallb (fun x => Rleb 0 x && Rleb x 1) input)
  then Raise RuntimeError
  else Ok (mean_list (zip_with bce_term input target)).

End Tensor.

(** ** [models/rpn1d/region_proposal_network_1d.py] *)

Module RegionProposalNetwork1d.

Import Tensor.
Local Open Scope R_scope.
Local Open Scope py_scope.

(** *** Loss computation *)

(** [(abs_in_box_diff < 1.0 / sigma_2).detach().float()], per element. *)
Definition smoothL1_sign (sigma_2 d : R) : R :=
  if Rlt_dec (Rabs d) (1 / sigma_2) then 1 else 0.

(** [torch.pow(in_box_diff, 2) * (sigma_2 / 2.0)], per element. *)
Definition quadratic_part (sigma_2 d : R) : R := d ^ 2 * (sigma_2 / 2).

(** [abs_in_box_diff - (0.5 / sigma_2)], per element. *)
Definition linear_part (sigma_2 d : R) : R := Rabs d - 0.5 / sigma_2.

(** One element of [in_loss_box], from the entry [d] of [in_box_diff]. *)
Definition in_loss_box (sigma_2 d : R) : R :=
  quadratic_part sigma_2 d * smoothL1_sign sigma_2 d
  + linear_part sigma_2 d * (1 - smoothL1_sign sigma_2 d).

(** [for i in sorted(dim, reverse=True): loss_box = loss_box.sum(i)] *)
Fixpoint sum_dims (t : tensor) (dims : list Z) : result tensor :=
  match dims with
  | [] => Ok t
  | i :: dims' => t' <- tsum t i ;; sum_dims t' dims'
  end.

Definition smooth_l1_loss
  (bbox_pred bbox_targets bbox_inside_weights bbox_outside_weights : tensor2)
  (sigma : R) (dim : list Z) : result tfloat :=
  let sigma_2 := sigma ^ 2 in
  box_diff <- ew2 Rminus bbox_pred bbox_targets ;;
  in_box_diff <- ew2 Rmult bbox_inside_weights box_diff ;;
  _ <- (if Req_dec_T sigma_2 0 then Raise ZeroDivisionError else Ok tt) ;;
  out_loss_box <-
    ew2 Rmult bbox_outside_weights (tmap (in_loss_box sigma_2) in_box_diff) ;;
  loss_box <- sum_dims (T2 out_loss_box) (sorted_reverse dim) ;;
  Ok (tmean loss_box).

(** [rpn_labels.data != -1], per element. *)
Definition not_ignore (l : Z) : bool := negb (l =? -1)%Z.

(** The "Class Loss" block of [rpn_loss]: select the anchors whose label
    is not -1, then take the binary cross-entropy on the selection. *)
Definition rpn_cross_entropy (rpn_cls_prob : list R) (rpn_labels : list Z)
  : result tfloat :=
  let rpn_select := nonzero (map not_ignore rpn_labels) in
  prob <- index_select rpn_cls_prob rpn_select ;;
  labels <- index_select rpn_labels rpn_select ;;
  binary_cross_entropy prob (map IZR labels).

(** Tensors arrive as their entries in row-major order. *)
Definition rpn_loss
  (rpn_cls_prob : list R) (rpn_labels : list Z)
  (rpn_bbox_pred rpn_bbox_targets
   rpn_bbox_inside_weights rpn_bbox_outside_weights : list R)
  (sigma : R) (dim : list Z) (loss_box_weight : R) : result tfloat :=
  ce <- rpn_cross_entropy rpn_cls_prob rpn_labels ;;
  pred <- view_2 rpn_bbox_pred ;;
  targets <- view_2 rpn_bbox_targets ;;
  inside <- view_2 rpn_bbox_inside_weights ;;
  outside <- view_2 rpn_bbox_outside_weights ;;
  rpn_loss_box <- smooth_l1_loss pred targets inside outside sigma dim ;;
  Ok (tf_add ce (tf_scale loss_box_weight rpn_loss_box)).

(** *** Name resolution in the module *)

(** Names bound at module level: the imports and the class. *)
Definition module_globals : list string :=
  ["copy"; "np"; "torch"; "nn"; "F"; "os"; "sys";
   "ChromatogramsDataset"; "DepthSeparableConv1d"; "generate_anchors_1d";
   "anchor_target_layer_1d"; "proposal_layer_1d";
   "RegionProposalNetwork1d"]%string.

(** Parameters of [__init__]; its body assigns attributes of [self] only,
    so it has no other local. *)
Definition init_locals : list string :=
  ["self"; "model"; "load_backbone"; "backbone_path"; "rpn_channels";
   "rpn_kernel_size"; "pre_nms_topN"; "nms_threshold"; "post_nms_topN";
   "device"; "mode"]%string.

(** Python's built-in functions and constants. *)
Definition builtins : list string :=
  ["abs"; "aiter"; "all"; "anext"; "any"; "ascii"; "bin"; "bool";
   "breakpoint"; "bytearray"; "bytes"; "callable"; "chr"; "classmethod";
   "compile"; "complex"; "delattr"; "dict"; "dir"; "divmod"; "enumerate";
   "eval"; "exec"; "filter"; "float"; "format"; "frozenset"; "getattr";
   "globals"; "hasattr"; "hash"; "help"; "hex"; "id"; "input"; "int";
   "isinstance"; "issubclass"; "iter"; "len"; "list"; "locals"; "map";
   "max"; "memoryview"; "min"; "next"; "object"; "oct"; "open"; "ord";
   "pow"; "print"; "property"; "range"; "repr"; "reversed"; "round";
   "set"; "setattr"; "slice"; "sorted"; "staticmethod"; "str"; "sum";
   "super"; "tuple"; "type"; "vars"; "zip"; "__import__";
   "True"; "False"; "None"; "NotImplemented"; "Ellipsis"; "__debug__";
   "NotImplementedError"; "AssertionError"]%string.

Inductive binding : Type := Local | Global | Builtin.

Definition mem (x : string) (l : list string) : bool :=
  existsb (String.eqb x) l.

(** Loading a name inside [__init__]: locals, then module globals, then
    built-ins; otherwise [NameError]. *)
Definition load_name (x : string) : result binding :=
  if mem x init_locals then Ok Local
  else if mem x module_globals then Ok Global
  else if mem x builtins then Ok Builtin
  else Raise (NameError x).

(** *** Orchestrator *)

(** The collaborators that are not part of this file: torch tensors and
    modules, the anchor generator, the proposal layer and the anchor
    target layer. Each call may raise. *)
Class Collaborators : Type := {
  ttensor : Type;
  nn_module : Type;
  anchors_t : Type;
  gt_boxes_t : Type;
  ndarray : Type;

  size : ttensor -> list nat;
  entries : ttensor -> list R;
  call : nn_module -> ttensor -> result ttensor;
  sigmoid : ttensor -> ttensor;
  permute_0_2_1 : ttensor -> result ttensor;
  to_numpy : ttensor -> ndarray;
  top_outputs : ndarray -> result ndarray;   (* output[:, 0, :] *)

  deepcopy : nn_module -> result nn_module;
  load_state_dict : nn_module -> string -> string -> result nn_module;
  generate_anchors_1d : unit -> result (anchors_t * nat);
  anchors_to : anchors_t -> string -> result anchors_t;
  make_rpn_net : binding -> Z -> Z -> result nn_module;
  make_conv1d : Z -> Z -> Z -> result nn_module;

  proposal_layer_1d :
    ttensor -> ttensor -> nat -> anchors_t -> nat -> Z -> R -> Z ->
    result ttensor;
  anchor_target_layer_1d :
    option gt_boxes_t -> anchors_t -> nat -> nat ->
    result (list Z * list R * list R * list R)
}.

Section Orchestrator.

Context {collab : Collaborators}.

Record Self : Type := {
  device : string;
  backbone : nn_module;
  anchors : anchors_t;
  num_anchors : nat;
  pre_nms_topN : Z;
  nms_threshold : R;
  post_nms_topN : Z;
  rpn_net : nn_module;
  rpn_cls_score_net : nn_module;
  rpn_bbox_pred_net : nn_module;
  mode : string
}.

(** Lines 28 to 43 of [__init__]: the attributes set before the
    layers are built. *)
Definition init_attributes
  (model : nn_module) (load_backbone : bool) (backbone_path : string)
  (device0 : string) : result (nn_module * anchors_t * nat) :=
  backbone0 <- deepcopy model ;;
  backbone1 <- (if load_backbone
                then load_state_dict backbone0 backbone_path device0
                else Ok backbone0) ;;
  ' (anchors0, num_anchors0) <- generate_anchors_1d tt ;;
  anchors1 <- anchors_to anchors0 device0 ;;
  Ok (backbone1, anchors1, num_anchors0).

(** [__init__]. The arguments of
    [nn.Sequential(DepthSeparableConv1d(out_channels[0], ...), ...)]
    are evaluated left to right, after the callees' names. *)
Definition __init__
  (model : nn_module) (load_backbone : bool) (backbone_path : string)
  (rpn_channels rpn_kernel_size : Z)
  (pre_nms_topN0 : Z) (nms_threshold0 : R) (post_nms_topN0 : Z)
  (device0 : string) (mode0 : string) : result Self :=
  ' (backbone1, anchors1, num_anchors0) <-
    init_attributes model load_backbone backbone_path device0 ;;
  _ <- load_name "nn" ;;
  _ <- load_name "DepthSeparableConv1d" ;;
  out_channels <- load_name "out_channels" ;;
  rpn_net0 <- make_rpn_net out_channels rpn_channels rpn_kernel_size ;;
  cls0 <- make_conv1d rpn_channels (Z.of_nat num_anchors0) 1 ;;
  bbox0 <- make_conv1d rpn_channels (Z.of_nat num_anchors0 * 2) 1 ;;
  Ok {| device := device0; backbone := backbone1; anchors := anchors1;
        num_anchors := num_anchors0; pre_nms_topN := pre_nms_topN0;
        nms_threshold := nms_threshold0; post_nms_topN := post_nms_topN0;
        rpn_net := rpn_net0; rpn_cls_score_net := cls0;
        rpn_bbox_pred_net := bbox0; mode := mode0 |}.

(** [sequence.size()[0]] *)
Definition size_0 (t : ttensor) : result nat :=
  match nth_error (size t) 0 with
  | Some n => Ok n
  | None => Raise IndexError
  end.

(** [sequence.size(-1)] *)
Definition size_last (t : ttensor) : result nat :=
  match rev (size t) with
  | n :: _ => Ok n
  | [] => Raise IndexError
  end.

Inductive output : Type :=
| Proposals (o : ndarray)
| Loss (l : tfloat).

(** The statements of [forward] between the batch-size assertion and
    the mode dispatch: backbone, heads and the proposal layer. *)
Definition forward_pass (self : Self) (sequence : ttensor)
  : result (ttensor * ttensor * ndarray) :=
  feature_map <- call (backbone self) sequence ;;
  rpn <- call (rpn_net self) feature_map ;;
  rpn_cls_score <- call (rpn_cls_score_net self) rpn ;;
  rpn_cls_prob <- permute_0_2_1 (sigmoid rpn_cls_score) ;;
  rpn_bbox_pred0 <- call (rpn_bbox_pred_net self) rpn ;;
  rpn_bbox_pred <- permute_0_2_1 rpn_bbox_pred0 ;;
  seq_len <- size_last sequence ;;
  rpn_output <-
    proposal_layer_1d rpn_cls_prob rpn_bbox_pred seq_len
      (anchors self) (num_anchors self)
      (pre_nms_topN self) (nms_threshold self) (post_nms_topN self) ;;
  Ok (rpn_cls_prob, rpn_bbox_pred, to_numpy rpn_output).

Definition forward (self : Self) (sequence : ttensor)
  (gt_boxes : option gt_boxes_t) : result output :=
  _ <- (if String.eqb (mode self) "train"
        then b <- size_0 sequence ;;
             assert (Nat.eqb b 1) "batch_size=1 train only"
        else Ok tt) ;;
  ' (rpn_cls_prob, rpn_bbox_pred, out) <- forward_pass self sequence ;;
  if String.eqb (mode self) "test" then Ok (Proposals out)
  else if String.eqb (mode self) "train" then
    _ <- top_outputs out ;;
    seq_len <- size_last sequence ;;
    ' (rpn_labels, rpn_bbox_targets, inside, outside) <-
      anchor_target_layer_1d gt_boxes (anchors self) (num_anchors self)
        seq_len ;;
    loss <- rpn_loss (entries rpn_cls_prob) rpn_labels
              (entries rpn_bbox_pred) rpn_bbox_targets inside outside
              1 [1%Z] 1 ;;
    Ok (Loss loss)
  else Raise NotImplementedError.

End Orchestrator.

End RegionProposalNetwork1d.

(** ** [osw_utils/evaluation_parser_cluster.py] *)

Module EvaluationParserCluster.

Local Open Scope Z_scope.

(** The bounds are the integers that the caller parses with [int]. *)
Definition overlaps (pred_min pred_max target_min target_max : Z) : bool :=
  if ((pred_min <=? target_min)
        && ((target_min <=? pred_max) && (pred_max <=? target_max)))
     || ((pred_min <=? target_min) && (pred_max >=? target_max))
     || (((target_min <=? pred_min) && (pred_min <=? target_max))
           && (pred_max <=? target_max))
     || (((target_min <=? pred_min) && (pred_min <=? target_max))
           && (pred_max >=? target_max))
  then true
  else false.

End EvaluationParserCluster.

(** ** [utils/osw_parser.py] *)

Module OswParser.

Local Open Scope Q_scope.

(** Truth value of a bound that is [None] or a number. *)
Definition truthy (v : option Q) : bool :=
  match v with
  | None => false
  | Some q => negb (Qeq_bool q 0)
  end.

(** The body of the loop: the label appended for one [time]. *)
Definition label_of (left_width right_width : option Q) (time : Q) : Z :=
  if truthy left_width && truthy right_width then
    match left_width, right_width with
    | Some l, Some r =>
        if Qle_bool l time && Qle_bool time r then 1%Z else 0%Z
    | _, _ => 0%Z
    end
  else 0%Z.

(** [np.where(row_labels == 1)[0]] *)
Definition where_eq_1 (row_labels : list Z) : list nat :=
  Tensor.nonzero (map (fun l => (l =? 1)%Z) row_labels).

Definition get_chromatogram_labels_and_bbox
  (left_width right_width : option Q) (times : list Q)
  : list Z * option nat * option nat :=
  let row_labels :=
    fold_left (fun acc time => acc ++ [label_of left_width right_width time])
      times [] in
  let label_idxs := where_eq_1 row_labels in
  if (0 <? length label_idxs)%nat
  then (row_labels, hd_error label_idxs, Some (last label_idxs 0%nat))
  else (row_labels, None, None).

End OswParser.

(** A small instance of the collaborators, to run the orchestrator on:
    a tensor is its shape, every layer is the identity, there is one
    anchor, and the anchor target layer labels it Positive. *)
Module Stub.

Import Tensor RegionProposalNetwork1d.
Local Open Scope R_scope.

#[local] Instance collab : Collaborators := {|
  ttensor := list nat;
  nn_module := unit;
  anchors_t := unit;
  gt_boxes_t := unit;
  ndarray := list nat;
  size := fun t => t;
  entries := fun _ => [0.5];
  call := fun _ t => Ok t;
  sigmoid := fun t => t;
  permute_0_2_1 := fun t => Ok t;
  to_numpy := fun t => t;
  top_outputs := fun o => Ok o;
  deepcopy := fun m => Ok m;
  load_state_dict := fun m _ _ => Ok m;
  generate_anchors_1d := fun _ => Ok (tt, 1%nat);
  anchors_to := fun a _ => Ok a;
  make_rpn_net := fun _ _ _ => Ok tt;
  make_conv1d := fun _ _ _ => Ok tt;
  proposal_layer_1d := fun _ _ _ _ _ _ _ _ => Ok [1%nat; 1%nat; 3%nat];
  anchor_target_layer_1d :=
    fun _ _ _ _ => Ok ([1%Z], [0; 0], [1; 1], [1; 1])
|}.

Definition model_in (m : string) : Self := {|
  device := "cpu"; backbone := tt; anchors := tt; num_anchors := 1;
  pre_nms_topN := 6000; nms_threshold := 0.7; post_nms_topN := 300;
  rpn_net := tt; rpn_cls_score_net := tt; rpn_bbox_pred_net := tt;
  mode := m
|}.

End Stub.

(** ** Reference definitions, following the specification's wording *)

Module Reference.

Import Tensor.
Local Open Scope R_scope.

(** Smooth-L1 term of a residual [d]: [0.5 sigma^2 d^2] when
    [|d| < 1/sigma^2], else [|d| - 0.5/sigma^2]. *)
Definition smooth_l1_term (sigma d : R) : R :=
  if Rlt_dec (Rabs d) (1 / sigma ^ 2)
  then 0.5 * sigma ^ 2 * d ^ 2
  else Rabs d - 0.5 / sigma ^ 2.

(** One channel of one anchor: the term of
    [d = inside_weight (pred - target)], times [outside_weight]. *)
Definition channel_loss (sigma pred target inside outside : R) : R :=
  outside * smooth_l1_term sigma (inside * (pred - target)).

(** Sum over the two channels of anchor [k]. *)
Definition anchor_loss (sigma : R) (pred target inside outside : tensor2)
  (k : nat) : R :=
  let z := (0, 0) in
  channel_loss sigma (fst (nth k pred z)) (fst (nth k target z))
    (fst (nth k inside z)) (fst (nth k outside z))
  + channel_loss sigma (snd (nth k pred z)) (snd (nth k target z))
      (snd (nth k inside z)) (snd (nth k outside z)).

(** Average over the anchors (undefined when there is none). *)
Definition regression_loss (sigma : R) (pred target inside outside : tensor2)
  : tfloat :=
  mean_list
    (map (anchor_loss sigma pred target inside outside)
       (seq 0 (length pred))).

(** The anchors that carry a label: (probability, label) pairs whose
    label is not Ignore. *)
Definition labelled (probs : list R) (labels : list Z) : list (R * Z) :=
  filter (fun pl => RegionProposalNetwork1d.not_ignore (snd pl))
    (combine probs labels).

(** Binary cross-entropy restricted to the labelled anchors. *)
Definition classification_loss (probs : list R) (labels : list Z)
  : result tfloat :=
  let sel := labelled probs labels in
  binary_cross_entropy (map fst sel) (map (fun pl => IZR (snd pl)) sel).

(** A time lies in the annotated peak: both bounds are set and non-zero
    and the time is between them. *)
Definition in_peak (left_width right_width : option Q) (time : Q) : Prop :=
  exists l r : Q,
    left_width = Some l /\ right_width = Some r
    /\ ~ (l == 0)%Q /\ ~ (r == 0)%Q /\ (l <= time)%Q /\ (time <= r)%Q.

(** Two closed integer intervals intersect. *)
Definition intersect (a_min a_max b_min b_max : Z) : Prop :=
  (a_min <= b_max)%Z /\ (b_min <= a_max)%Z.

(** Valid inputs of the loss. *)
Definition valid_label (l : Z) : Prop := l = 0%Z \/ l = 1%Z \/ l = (-1)%Z.
Definition unit_interval (p : R) : Prop := 0 <= p <= 1.
Definition nonneg_row (r : row) : Prop := 0 <= fst r /\ 0 <= snd r.

End Reference.

(** ** Python strings, lists and loops *)

Module PyStr.

Import Ascii.
Local Open Scope py_scope.

Definition comma : ascii := ","%char.
Definition underscore : ascii := "_"%char.

(** [s.split(sep)] for a one-character separator: never empty. *)
Fixpoint split (sep : Ascii.ascii) (s : string) : list string :=
  match s with
  | EmptyString => [EmptyString]
  | String c s' =>
      if Ascii.eqb c sep then EmptyString :: split sep s'
      else match split sep s' with
           | [] => [String c EmptyString]
           | w :: ws => String c w :: ws
           end
  end.

Definition lf : ascii := "010"%char.
Definition cr : ascii := "013"%char.

Definition is_cr_or_lf (c : Ascii.ascii) : bool :=
  Ascii.eqb c lf || Ascii.eqb c cr.

(** [s.rstrip('\r\n')] *)
Fixpoint rstrip_crlf (s : string) : string :=
  match s with
  | EmptyString => EmptyString
  | String c s' =>
      match rstrip_crlf s' with
      | EmptyString => if is_cr_or_lf c then EmptyString
                       else String c EmptyString
      | r => String c r
      end
  end.

(** [l[-2]] *)
Definition index_neg2 {A : Type} (l : list A) : result A :=
  match rev l with
  | _ :: x :: _ => Ok x
  | _ => Raise IndexError
  end.

(** [l[1]] *)
Definition index_1 {A : Type} (l : list A) : result A :=
  match l with
  | _ :: x :: _ => Ok x
  | _ => Raise IndexError
  end.

(** Truth value of a string. *)
Definition nonempty (s : string) : bool :=
  match s with
  | EmptyString => false
  | String _ _ => true
  end.

(** [key in d] for a dict used as a set of strings. *)
Definition contains (d : list string) (key : string) : bool :=
  existsb (String.eqb key) d.

(** [s[:-2]] *)
Definition drop_last_2 (s : string) : string :=
  substring 0 (String.length s - 2) s.

(** A [for] loop whose body may raise: the first exception ends it. *)
Fixpoint for_each {S A : Type} (body : S -> A -> result S) (items : list A)
  (st : S) : result S :=
  match items with
  | [] => Ok st
  | x :: items' => st' <- body st x ;; for_each body items' st'
  end.

(** [next(f)] on the lines of an open file: the lines that remain. *)
Definition next_line (lines : list string) : result (list string) :=
  match lines with
  | [] => Raise (External "StopIteration")
  | _ :: rest => Ok rest
  end.

End PyStr.

(** ** [osw_utils/evaluation_parser_cluster.py]: the two parsers *)

Module EvaluationFiles.

Import PyStr.
Local Open Scope py_scope.
Local Open Scope Z_scope.

(** The built-ins that read numbers, and the plotting collaborator. A
    float is idealised as a rational. *)
Class Builtins : Type := {
  py_int : string -> result Z;             (* int(s) *)
  py_float : string -> result Q;           (* float(s) *)
  py_str : Z -> string;                    (* str(n) *)
  call_global :
    RegionProposalNetwork1d.binding ->
    option Z -> option Z -> option Z -> option Z -> result bool;
  plot_binary_precision_recall_curve : list Z -> list Q -> result unit
}.

(** Truth value of [None] or an int. *)
Definition truthy_int (v : option Z) : bool :=
  match v with
  | None => false
  | Some z => negb (z =? 0)
  end.

Definition Qlt_bool (x y : Q) : bool := negb (Qle_bool y x).

(** [<=] and [>=] between values that are [None] or an int; in Python 3
    an ordering comparison with [None] raises [TypeError]. *)
Definition le_obj (a b : option Z) : result bool :=
  match a, b with
  | Some x, Some y => Ok (x <=? y)
  | _, _ => Raise TypeError
  end.

Definition ge_obj (a b : option Z) : result bool :=
  match a, b with
  | Some x, Some y => Ok (x >=? y)
  | _, _ => Raise TypeError
  end.

(** Short-circuit [and] and [or]. *)
Definition and_then (x y : result bool) : result bool :=
  b <- x ;; if b then y else Ok false.

Definition or_else (x y : result bool) : result bool :=
  b <- x ;; if b then Ok true else y.

(** [overlaps] on the values the parser passes: each bound is [None] or
    an int, and comparing with [None] raises. *)
Definition overlaps_obj (pred_min pred_max target_min target_max : option Z)
  : result bool :=
  c <- or_else
         (or_else
            (or_else
               (and_then (le_obj pred_min target_min)
                  (and_then (le_obj target_min pred_max)
                     (le_obj pred_max target_max)))
               (and_then (le_obj pred_min target_min)
                  (ge_obj pred_max target_max)))
            (and_then
               (and_then (le_obj target_min pred_min)
                  (le_obj pred_min target_max))
               (le_obj pred_max target_max)))
         (and_then
            (and_then (le_obj target_min pred_min)
               (le_obj pred_min target_max))
            (ge_obj pred_max target_max)) ;;
  Ok (if c then true else false).

(** [(chrom_id, a_start, a_end, b_start, b_end)] *)
Definition entry : Type :=
  (string * option Z * option Z * option Z * option Z)%type.

Record stats : Type := { tp : nat; fp : nat; tn : nat; fn : nat }.

Definition no_stats : stats := {| tp := 0; fp := 0; tn := 0; fn := 0 |}.

Inductive outcome : Type := TP | FP | TN | FN.

Definition bump (o : outcome) (s : stats) : stats :=
  match o with
  | TP => {| tp := S (tp s); fp := fp s; tn := tn s; fn := fn s |}
  | FP => {| tp := tp s; fp := S (fp s); tn := tn s; fn := fn s |}
  | TN => {| tp := tp s; fp := fp s; tn := S (tn s); fn := fn s |}
  | FN => {| tp := tp s; fp := fp s; tn := tn s; fn := S (fn s) |}
  end.

(** The label appended to the target list with each outcome. *)
Definition target_of (o : outcome) : Z :=
  match o with
  | TP | FN => 1
  | FP | TN => 0
  end.

(** One set of counters with its four lists and its target list. *)
Record tally : Type := {
  counts : stats;
  l_tp : list entry;
  l_fp : list entry;
  l_tn : list entry;
  l_fn : list entry;
  targets : list Z
}.

Definition empty_tally : tally :=
  {| counts := no_stats; l_tp := []; l_fp := []; l_tn := []; l_fn := [];
     targets := [] |}.

(** [stats[o] += 1; list_o.append(e); target.append(...)] *)
Definition record (o : outcome) (e : entry) (t : tally) : tally :=
  {| counts := bump o (counts t);
     l_tp := match o with TP => l_tp t ++ [e] | _ => l_tp t end;
     l_fp := match o with FP => l_fp t ++ [e] | _ => l_fp t end;
     l_tn := match o with TN => l_tn t ++ [e] | _ => l_tn t end;
     l_fn := match o with FN => l_fn t ++ [e] | _ => l_fn t end;
     targets := targets t ++ [target_of o] |}.

(** [int(s) if s else None] *)
Definition int_or_none `{Builtins} (s : string) : result (option Z) :=
  if nonempty s then n <- py_int s ;; Ok (Some n) else Ok None.

(** [if mod_start and mod_end: if (mod_end - mod_start + 1) < mod_min_pts:
    mod_start, mod_end = None, None] *)
Definition drop_short (mod_min_pts : Z) (mod_start mod_end : option Z)
  : option Z * option Z :=
  if truthy_int mod_start && truthy_int mod_end then
    match mod_start, mod_end with
    | Some s, Some e =>
        if e - s + 1 <? mod_min_pts then (None, None)
        else (mod_start, mod_end)
    | _, _ => (mod_start, mod_end)
    end
  else (mod_start, mod_end).

(** *** [parse_model_evaluation_file] *)

(** The four-way decision of [parse_model_evaluation_file], by the
    truth values of the two starts. *)
Definition decide (osw_start osw_end mod_start mod_end : option Z)
  : result outcome :=
  if negb (truthy_int osw_start) && truthy_int mod_start then Ok FP
  else if truthy_int osw_start && negb (truthy_int mod_start) then Ok FN
  else if negb (truthy_int osw_start) && negb (truthy_int mod_start) then Ok TN
  else
    b <- overlaps_obj osw_start osw_end mod_start mod_end ;;
    Ok (if b then TP else FP).

Record eval_state : Type := {
  mod_tally : tally;
  osw_scores : list Q;
  pred : list Q
}.

Definition initial_eval_state : eval_state :=
  {| mod_tally := empty_tally; osw_scores := []; pred := [] |}.

(** The body of the loop from the parsed fields on. *)
Definition classify_row (osw_threshold mod_threshold : Q) (mod_min_pts : Z)
  (chrom_id : string) (osw_start osw_end : Z) (mod_start mod_end : option Z)
  (osw_score mod_score : Q) (st : eval_state) : result eval_state :=
  let '(mod_start, mod_end) := drop_short mod_min_pts mod_start mod_end in
  let '(osw_start, osw_end) :=
    if Qlt_bool osw_score osw_threshold then (None, None)
    else (Some osw_start, Some osw_end) in
  let '(mod_start, mod_end) :=
    if Qlt_bool mod_score mod_threshold then (None, None)
    else (mod_start, mod_end) in
  o <- decide osw_start osw_end mod_start mod_end ;;
  Ok {| mod_tally :=
          record o (chrom_id, osw_start, osw_end, mod_start, mod_end)
            (mod_tally st);
        osw_scores := osw_scores st ++ [osw_score];
        pred := pred st ++ [mod_score] |}.

(** The body of the loop over the lines of the evaluation file. *)
Definition process_line `{Builtins} (exclude : list string)
  (osw_threshold mod_threshold : Q) (mod_min_pts : Z)
  (st : eval_state) (line : string) : result eval_state :=
  match split comma (rstrip_crlf line) with
  | [chrom_id; seq_source; osw_start; osw_end; mod_start; mod_end;
     osw_score; mod_score] =>
      seq <- index_neg2 (split underscore seq_source) ;;
      if contains exclude seq then Ok st
      else
        osw_start <- py_int osw_start ;;
        osw_end <- py_int osw_end ;;
        mod_start <- int_or_none mod_start ;;
        mod_end <- int_or_none mod_end ;;
        osw_score <- py_float osw_score ;;
        mod_score <- py_float mod_score ;;
        classify_row osw_threshold mod_threshold mod_min_pts chrom_id
          osw_start osw_end mod_start mod_end osw_score mod_score st
  | _ => Raise ValueError
  end.

(** The loop that fills [exclude] from the exclusion list. *)
Definition read_exclusions (exclude : list string) (line : string)
  : result (list string) :=
  seq_source <- index_1 (split comma line) ;;
  seq <- index_neg2 (split underscore seq_source) ;;
  Ok (seq :: exclude).

(** [parse_model_evaluation_file]. A file is the list of its lines;
    [exclusion_list] is [None] when no (or an empty) name is given. The
    result holds the returned lists and the printed [mod_stats]. *)
Definition parse_model_evaluation_file `{Builtins}
  (infile : list string) (osw_threshold mod_threshold : Q) (mod_min_pts : Z)
  (exclusion_list : option (list string)) : result eval_state :=
  exclude <- match exclusion_list with
             | None => Ok []
             | Some exclusions =>
                 rest <- next_line exclusions ;;
                 for_each read_exclusions rest []
             end ;;
  rows <- next_line infile ;;
  for_each (process_line exclude osw_threshold mod_threshold mod_min_pts)
    rows initial_eval_state.

(** *** [parse_amended_model_evaluation_file] *)

(** Names bound at module level. *)
Definition parser_globals : list string :=
  ["sys"; "time"; "plot_binary_precision_recall_curve"; "overlaps";
   "parse_model_evaluation_file";
   "parse_amended_model_evaluation_file"]%string.

(** Loading a name that the function never assigns: module globals, then
    built-ins. *)
Definition load_global (x : string)
  : result RegionProposalNetwork1d.binding :=
  if RegionProposalNetwork1d.mem x parser_globals
  then Ok RegionProposalNetwork1d.Global
  else if RegionProposalNetwork1d.mem x RegionProposalNetwork1d.builtins
  then Ok RegionProposalNetwork1d.Builtin
  else Raise (NameError x).

Definition is_none (v : option Z) : bool :=
  match v with
  | None => true
  | Some _ => false
  end.

(** The four-way decision of the amended parser, by comparison with
    [None]; the last branch calls [overlap_more_than]. *)
Definition decide_amended `{Builtins}
  (manual_start manual_end start end_ : option Z) : result outcome :=
  if is_none manual_start && negb (is_none start) then Ok FP
  else if negb (is_none manual_start) && is_none start then Ok FN
  else if is_none manual_start && is_none start then Ok TN
  else
    f <- load_global "overlap_more_than" ;;
    b <- call_global f manual_start manual_end start end_ ;;
    Ok (if b then TP else FP).

Record amended_state : Type := {
  a_osw : tally;
  a_mod : tally;
  osw_pred : list Q;
  mod_pred : list Q
}.

Definition initial_amended_state : amended_state :=
  {| a_osw := empty_tally; a_mod := empty_tally;
     osw_pred := []; mod_pred := [] |}.

Definition classify_amended_row `{Builtins}
  (osw_threshold mod_threshold : Q) (mod_min_pts : Z)
  (chrom_id : string) (osw_start osw_end : Z) (mod_start mod_end : option Z)
  (osw_score mod_score : Q) (manual_start manual_end : option Z)
  (st : amended_state) : result amended_state :=
  let '(mod_start, mod_end) := drop_short mod_min_pts mod_start mod_end in
  let '(osw_start, osw_end) :=
    if Qle_bool osw_score osw_threshold then (None, None)
    else (Some osw_start, Some osw_end) in
  let '(mod_start, mod_end) :=
    if Qle_bool mod_score mod_threshold then (None, None)
    else (mod_start, mod_end) in
  o1 <- decide_amended manual_start manual_end osw_start osw_end ;;
  let osw1 :=
    record o1 (chrom_id, manual_start, manual_end, osw_start, osw_end)
      (a_osw st) in
  o2 <- decide_amended manual_start manual_end mod_start mod_end ;;
  let mod1 :=
    record o2 (chrom_id, manual_start, manual_end, mod_start, mod_end)
      (a_mod st) in
  Ok {| a_osw := osw1; a_mod := mod1;
        osw_pred := osw_pred st ++ [osw_score];
        mod_pred := mod_pred st ++ [mod_score] |}.

Definition process_amended_line `{Builtins} (include : list string)
  (osw_threshold mod_threshold : Q) (mod_min_pts : Z)
  (st : amended_state) (line : string) : result amended_state :=
  match split comma (rstrip_crlf line) with
  | [chrom_id; seq_source; osw_start; osw_end; mod_start; mod_end;
     osw_score; mod_score; manual_start; manual_end; manual_present] =>
      if String.eqb manual_present "1" then
        seq <- index_neg2 (split underscore seq_source) ;;
        if contains include seq then
          osw_start <- py_int osw_start ;;
          osw_end <- py_int osw_end ;;
          mod_start <- int_or_none mod_start ;;
          mod_end <- int_or_none mod_end ;;
          osw_score <- py_float osw_score ;;
          mod_score <- py_float mod_score ;;
          manual <-
            (if nonempty manual_start && nonempty manual_end
             then s <- py_int manual_start ;;
                  e <- py_int manual_end ;;
                  Ok (Some s, Some e)
             else Ok (None, None)) ;;
          classify_amended_row osw_threshold mod_threshold mod_min_pts
            chrom_id osw_start osw_end mod_start mod_end osw_score mod_score
            (fst manual) (snd manual) st
        else Ok st
      else Ok st
  | _ => Raise ValueError
  end.

(** [int(x)] of a float: truncation towards zero. *)
Definition int_of_float (q : Q) : Z := Z.quot (Qnum q) (Zpos (Qden q)).

(** One line of an inclusion index file. *)
Definition read_index `{Builtins} (include_idx : list string) (line : string)
  : result (list string) :=
  x <- py_float (rstrip_crlf line) ;;
  Ok (py_str (int_of_float x) :: include_idx).

(** One line of the inclusion list. *)
Definition read_inclusions (include_idx : list string)
  (include : list string) (line : string) : result (list string) :=
  match split comma line with
  | key :: _ =>
      if contains include_idx key then
        seq_source <- index_1 (split comma line) ;;
        seq <- index_neg2 (split underscore seq_source) ;;
        Ok (seq :: include)
      else Ok include
  | [] => Raise IndexError
  end.

(** [parse_amended_model_evaluation_file]; an index file is the list of
    its lines. The result holds the returned lists and the printed
    counters. *)
Definition parse_amended_model_evaluation_file `{Builtins}
  (infile : list string) (osw_threshold mod_threshold : Q) (mod_min_pts : Z)
  (inclusion_idx_files : list (list string))
  (inclusion_list : option (list string)) (plot_things : bool)
  : result amended_state :=
  include_idx <-
    for_each (fun idx file => for_each read_index file idx)
      inclusion_idx_files [] ;;
  include <- match inclusion_list with
             | None => Ok []
             | Some inclusions =>
                 rest <- next_line inclusions ;;
                 for_each (read_inclusions include_idx) rest []
             end ;;
  rows <- next_line infile ;;
  st <- for_each
          (process_amended_line include osw_threshold mod_threshold
             mod_min_pts)
          rows initial_amended_state ;;
  _ <- (if plot_things
        then _ <- plot_binary_precision_recall_curve
                    (targets (a_osw st)) (osw_pred st) ;;
             plot_binary_precision_recall_curve
               (targets (a_mod st)) (mod_pred st)
        else Ok tt) ;;
  Ok st.

(** *** What the lists are expected to hold *)

(** A recorded true positive: four integer bounds, both starts non-zero,
    and [overlaps] holds. *)
Definition is_true_positive (e : entry) : Prop :=
  exists (a b c d : Z),
    snd (fst (fst (fst e))) = Some a /\ snd (fst (fst e)) = Some b
    /\ snd (fst e) = Some c /\ snd e = Some d
    /\ a <> 0 /\ c <> 0
    /\ EvaluationParserCluster.overlaps a b c d = true.

(** A recorded negative of the model: its start is [None] or 0. *)
Definition has_no_model_peak (e : entry) : Prop :=
  truthy_int (snd (fst e)) = false.

(** Counters, lists and labels agree. *)
Definition consistent (t : tally) : Prop :=
  tp (counts t) = length (l_tp t)
  /\ fp (counts t) = length (l_fp t)
  /\ tn (counts t) = length (l_tn t)
  /\ fn (counts t) = length (l_fn t)
  /\ length (targets t)
     = (tp (counts t) + fp (counts t) + tn (counts t) + fn (counts t))%nat
  /\ count_occ Z.eq_dec (targets t) 1 = (tp (counts t) + fn (counts t))%nat
  /\ count_occ Z.eq_dec (targets t) 0 = (fp (counts t) + tn (counts t))%nat.

Definition eval_consistent (st : eval_state) : Prop :=
  consistent (mod_tally st)
  /\ length (osw_scores st) = length (targets (mod_tally st))
  /\ length (pred st) = length (targets (mod_tally st)).

Definition lists_sound (st : eval_state) : Prop :=
  Forall is_true_positive (l_tp (mod_tally st))
  /\ Forall has_no_model_peak (l_fn (mod_tally st))
  /\ Forall has_no_model_peak (l_tn (mod_tally st)).

(** The amended parser has recorded no true positive. *)
Definition no_true_positive (st : amended_state) : Prop :=
  l_tp (a_osw st) = [] /\ tp (counts (a_osw st)) = 0%nat
  /\ l_tp (a_mod st) = [] /\ tp (counts (a_mod st)) = 0%nat.

(** *** An instance of the built-ins, to run the parsers on: decimal
    digits only, floats without a fraction. *)

Fixpoint digits (s : string) (acc : Z) : result Z :=
  match s with
  | EmptyString => Ok acc
  | String c s' =>
      let n := Ascii.nat_of_ascii c in
      if (48 <=? n)%nat && (n <=? 57)%nat
      then digits s' (10 * acc + Z.of_nat (n - 48))
      else Raise ValueError
  end.

Definition stub_int (s : string) : result Z :=
  if nonempty s then digits s 0 else Raise ValueError.

Definition stub_builtins : Builtins := {|
  py_int := stub_int;
  py_float := fun s => n <- stub_int s ;; Ok (inject_Z n);
  py_str := fun n => DecimalString.NilZero.string_of_int (Z.to_int n);
  call_global := fun _ _ _ _ _ => Ok true;
  plot_binary_precision_recall_curve := fun _ _ => Ok tt
|}.

(** A small evaluation file: a header and three rows. *)
Definition sample_file : list string :=
  ["id,seq,os,oe,ms,me,osw,mod";
   "c1,run_PEPA_2,3,9,5,12,3,1";
   "c2,run_PEPB_2,3,9,,,3,1";
   "c3,run_PEPC_3,4,8,20,30,3,1"]%string.

Definition sample_exclusions : list string :=
  ["id,file"; "7,run_PEPC_3"]%string.

(** Two small amended evaluation files: in the first no row has both a
    manual peak and another peak; in the second the last row has a
    manual peak and an OSW peak. *)
Definition sample_amended_file : list string :=
  ["id,seq,os,oe,ms,me,osw,mod,ms,me,present";
   "c1,run_PEPA_2,3,9,,,3,0,,,1";
   "c2,run_PEPA_2,3,9,,,1,0,4,8,1"]%string.

Definition sample_amended_file_2 : list string :=
  sample_amended_file ++ ["c3,run_PEPA_2,3,9,,,3,0,4,8,1"]%string.

Definition sample_index_file : list string := ["7"]%string.

Definition sample_inclusions : list string :=
  ["id,file"; "7,run_PEPA_2"]%string.

End EvaluationFiles.

(** ** [utils/osw_parser.py]: the window of [create_data_from_transition_ids]
       and the query builders *)

Module OswWindow.

Import OswParser.
Local Open Scope Z_scope.

(** [bisect.bisect(a, x)] (bisect_right), the loop of the standard
    library:
    [while lo < hi: mid = (lo + hi) // 2;
       if x < a[mid]: hi = mid  else: lo = mid + 1]. The fuel bounds the
    number of iterations; [hi - lo] iterations are enough. *)
Fixpoint bisect_loop (fuel : nat) (a : list Q) (x : Q) (lo hi : nat) : nat :=
  match fuel with
  | O => lo
  | S fuel' =>
      if (lo <? hi)%nat then
        let mid := ((lo + hi) / 2)%nat in
        if EvaluationFiles.Qlt_bool x (nth mid a 0%Q)
        then bisect_loop fuel' a x lo mid
        else bisect_loop fuel' a x (mid + 1)%nat hi
      else lo
  end.

Definition bisect (a : list Q) (x : Q) : nat :=
  bisect_loop (length a) a x 0 (length a).

(** A slice bound of a sequence of length [len]: negative bounds count
    from the end, and every bound is clipped to [0, len]. *)
Definition clip (len i : Z) : Z :=
  if i <? 0 then Z.max (i + len) 0 else Z.min i len.

(** [l[start:stop]] *)
Definition py_slice {A : Type} (l : list A) (start stop : Z) : list A :=
  let len := Z.of_nat (length l) in
  let s := clip len start in
  let e := clip len stop in
  firstn (Z.to_nat (e - s)) (skipn (Z.to_nat s) l).

(** The bounds of the window around [exp_rt_idx]. *)
Definition subsection (window_size exp_rt_idx len_times : Z) : Z * Z :=
  let half_span := window_size / 2 in
  let subsection_left := exp_rt_idx - half_span in
  let subsection_right := exp_rt_idx + half_span + 1 in
  if subsection_left <? 0 then (0, window_size)
  else if subsection_right >=? len_times
  then (len_times - window_size, subsection_right)
  else (subsection_left, subsection_right).

(** What [create_data_from_transition_ids] returns for the labels:
    [-1, -1, -1] when the chromatogram is skipped, otherwise the labels
    and the bounding box. *)
Inductive labels_result : Type :=
| Skipped
| Kept (row_labels : list Z) (bb_start bb_end : option nat).

(** The block [if window_size >= 0: ...] of
    [create_data_from_transition_ids]. [chromatogram] and [extra] are
    created with [len(times)] columns, so a row of zeros of that length
    stands for each of them: only their number of columns is used. *)
Definition window_block (window_size : Z) (times : list Q) (exp_rt : Q)
  (row_labels : list Z) (bb_start bb_end : option nat) : labels_result :=
  if window_size >=? 0 then
    let len_times := Z.of_nat (length times) in
    let exp_rt_idx := Z.of_nat (bisect times exp_rt) in
    let '(subsection_left, subsection_right) :=
      subsection window_size exp_rt_idx len_times in
    let zeros := repeat 0%Q (length times) in
    let chromatogram := py_slice zeros subsection_left subsection_right in
    let extra := py_slice zeros subsection_left subsection_right in
    let row_labels := py_slice row_labels subsection_left subsection_right in
    if negb (Z.of_nat (length chromatogram) =? window_size) then Skipped
    else if negb (Z.of_nat (length extra) =? window_size) then Skipped
    else if negb (Z.of_nat (length row_labels) =? window_size) then Skipped
    else
      let label_idxs := where_eq_1 row_labels in
      if (0 <? length label_idxs)%nat
      then Kept row_labels (hd_error label_idxs)
             (Some (last label_idxs 0%nat))
      else Kept row_labels None None
  else Kept row_labels bb_start bb_end.

(** The labels and the bounding box that
    [create_data_from_transition_ids] returns when [csv_only] is false
    and the statements between the two steps (reading and laying out the
    chromatogram data) go through: the labels over all [times], then
    the window. *)
Definition labels_in_window (left_width right_width : option Q)
  (times : list Q) (window_size : Z) (exp_rt : Q) : labels_result :=
  let '(row_labels, bb_start, bb_end) :=
    get_chromatogram_labels_and_bbox left_width right_width times in
  window_block window_size times exp_rt row_labels bb_start bb_end.

End OswWindow.

(** ** [utils/osw_parser.py]: the chromatogram query *)

Module OswQueries.

Import PyStr.
Local Open Scope string_scope.

(** The database cursor: [cursor.execute(q).fetchall()]. *)
Class Database : Type := {
  db_row : Type;
  execute_fetchall : string -> result (list db_row)
}.

(** The query text built by
    [get_ms2_chromatogram_ids_from_transition_ids]. *)
Definition ms2_query (transition_ids : list string) : string :=
  let sql_query := "SELECT ID FROM CHROMATOGRAM WHERE NATIVE_ID IN (" in
  let sql_query :=
    fold_left (fun q current_id => q ++ (("'" ++ current_id) ++ "', "))
      transition_ids sql_query in
  let sql_query := drop_last_2 sql_query in
  sql_query ++ ") ORDER BY NATIVE_ID ASC".

Definition get_ms2_chromatogram_ids_from_transition_ids `{Database}
  (transition_ids : list string) : result (list db_row) :=
  execute_fetchall (ms2_query transition_ids).

(** An id between single quotes. *)
Definition quoted (id : string) : string := "'" ++ id ++ "'".

End OswQueries.

(** ** The regression loss on float32 tensors

    The tensors of the loss hold float32 entries, and [sigma] is a
    Python float (binary64). This model keeps what the real-valued one
    leaves out: every operation rounds to nearest even, a result beyond
    the largest float is an infinity, and [inf * 0] is NaN. The
    operations are those of IEEE 754 as the Standard Library specifies
    them ([SpecFloat]): precision 24 and exponents below 128 for
    float32, precision 53 and exponents below 1024 for binary64. *)

Module Float32.

Local Open Scope Z_scope.
Local Open Scope py_scope.

Definition f32 : Type := SpecFloat.spec_float.
Definition f64 : Type := SpecFloat.spec_float.

Definition fadd : f32 -> f32 -> f32 := SpecFloat.SFadd 24 128.
Definition fsub : f32 -> f32 -> f32 := SpecFloat.SFsub 24 128.
Definition fmul : f32 -> f32 -> f32 := SpecFloat.SFmul 24 128.
Definition fdiv : f32 -> f32 -> f32 := SpecFloat.SFdiv 24 128.
Definition fabs : f32 -> f32 := SpecFloat.SFabs.
Definition fopp : f32 -> f32 := SpecFloat.SFopp.
Definition flt : f32 -> f32 -> bool := SpecFloat.SFltb.

Definition dmul : f64 -> f64 -> f64 := SpecFloat.SFmul 53 1024.
Definition ddiv : f64 -> f64 -> f64 := SpecFloat.SFdiv 53 1024.

Definition f_nan : f32 := SpecFloat.S754_nan.
Definition f_inf : f32 := SpecFloat.S754_infinity false.
Definition f_zero : f32 := SpecFloat.S754_zero false.
(** 1.0 *)
Definition f_one : f32 := SpecFloat.S754_finite false 8388608 (-23).

(** [2^k] as a float32, for [-126 <= k <= 127]. *)
Definition pow2 (k : Z) : f32 :=
  SpecFloat.S754_finite false 8388608 (k - 23).

(** [2^k] as a Python float, for [-1022 <= k <= 1023]. *)
Definition dpow2 (k : Z) : f64 :=
  SpecFloat.S754_finite false 4503599627370496 (k - 52).

Definition is_nan (x : SpecFloat.spec_float) : bool :=
  match x with
  | SpecFloat.S754_nan => true
  | _ => false
  end.

Definition is_zero (x : SpecFloat.spec_float) : bool :=
  match x with
  | SpecFloat.S754_zero _ => true
  | _ => false
  end.

Definition is_finite (x : SpecFloat.spec_float) : bool :=
  match x with
  | SpecFloat.S754_zero _ | SpecFloat.S754_finite _ _ _ => true
  | _ => false
  end.

(** *** The values of the format

    [spec_float] has more values than float32: any mantissa with any
    exponent. A float32 value is one that [valid_binary] accepts: a
    zero, an infinity, NaN, or a mantissa of at most 24 bits whose
    exponent is the one that the format gives to a number of its
    size. *)

(** The exponent of a number with [e] binary digits before the point:
    [e - 24], and -149 for the subnormal numbers. *)
Definition fx (e : Z) : Z := Z.max (e - 24) (-149).

(** The exponent of [x * 2^e] is that of the format. *)
Definition canonical (x e : Z) : Prop :=
  fx (SpecFloat.Zdigits2 x + e) = e.

(** The exponent of [x * 2^e] is at most that of the format: rounding
    drops digits of [x], it never has to add any. *)
Definition proper (x e : Z) : Prop :=
  e <= fx (SpecFloat.Zdigits2 x + e).

Definition valid (x : SpecFloat.spec_float) : Prop :=
  SpecFloat.valid_binary 24 128 x = true.

(** The sign bit is clear (NaN has none). *)
Definition nonneg (x : SpecFloat.spec_float) : Prop :=
  match x with
  | SpecFloat.S754_zero s | SpecFloat.S754_infinity s
  | SpecFloat.S754_finite s _ _ => s = false
  | SpecFloat.S754_nan => True
  end.

(** A Python float that meets a float32 tensor in an operation is
    rounded to float32 first. *)
Definition to_f32 (x : f64) : f32 :=
  match x with
  | SpecFloat.S754_finite s m e =>
      SpecFloat.binary_normalize 24 128
        (SpecFloat.cond_Zopp s (Zpos m)) e s
  | _ => x
  end.

(** The number of elements, as [mean] divides by it. *)
Definition of_nat (n : nat) : f32 :=
  SpecFloat.binary_normalize 24 128 (Z.of_nat n) 0 false.

Definition frow : Type := (f32 * f32)%type.
(** Shape (N, 2), float32. *)
Definition ftensor2 : Type := list frow.

Definition frow_map (f : f32 -> f32) (a : frow) : frow :=
  (f (fst a), f (snd a)).
Definition frow_map2 (f : f32 -> f32 -> f32) (a b : frow) : frow :=
  (f (fst a) (fst b), f (snd a) (snd b)).

Definition valid_row (r : frow) : Prop := valid (fst r) /\ valid (snd r).

Definition is_zero_row (r : frow) : Prop :=
  is_zero (fst r) = true /\ is_zero (snd r) = true.

Definition finite_row (r : frow) : Prop :=
  is_finite (fst r) = true /\ is_finite (snd r) = true.

(** Elementwise binary operation with broadcasting on the first
    dimension, as [Tensor.ew2]. *)
Definition few2 (f : f32 -> f32 -> f32) (a b : ftensor2) : result ftensor2 :=
  if Nat.eqb (length a) (length b)
  then Ok (Tensor.zip_with (frow_map2 f) a b)
  else match a, b with
       | [x], _ => Ok (map (frow_map2 f x) b)
       | _, [y] => Ok (map (fun x => frow_map2 f x y) a)
       | _, _ => Raise RuntimeError
       end.

(** [sigma**2] on a Python float: the rounded square;
    [OverflowError] when a finite [sigma] has an infinite square. *)
Definition sigma_square (sigma : f64) : result f64 :=
  let sigma_2 := dmul sigma sigma in
  if is_finite sigma && negb (is_finite sigma_2)
  then Raise (External "OverflowError")
  else Ok sigma_2.

(** [(abs_in_box_diff < 1.0 / sigma_2).detach().float()], per element. *)
Definition smoothL1_sign32 (sigma_2 : f64) (d : f32) : f32 :=
  if flt (fabs d) (to_f32 (ddiv (dpow2 0) sigma_2))
  then f_one else f_zero.

(** [torch.pow(in_box_diff, 2) * (sigma_2 / 2.0)], per element. *)
Definition quadratic_part32 (sigma_2 : f64) (d : f32) : f32 :=
  fmul (fmul d d) (to_f32 (ddiv sigma_2 (dpow2 1))).

(** [abs_in_box_diff - (0.5 / sigma_2)], per element. *)
Definition linear_part32 (sigma_2 : f64) (d : f32) : f32 :=
  fsub (fabs d) (to_f32 (ddiv (dpow2 (-1)) sigma_2)).

(** One element of [in_loss_box], from the entry [d] of [in_box_diff]:
    both parts are computed, each is multiplied by its 0/1 factor. *)
Definition in_loss_box32 (sigma_2 : f64) (d : f32) : f32 :=
  fadd (fmul (quadratic_part32 sigma_2 d) (smoothL1_sign32 sigma_2 d))
       (fmul (linear_part32 sigma_2 d)
             (fsub f_one (smoothL1_sign32 sigma_2 d))).

(** Neither part of the element overflows. *)
Definition parts_finite (sigma_2 : f64) (d : f32) : bool :=
  is_finite (quadratic_part32 sigma_2 d)
  && is_finite (linear_part32 sigma_2 d).

Definition parts_finite_row (sigma_2 : f64) (r : frow) : Prop :=
  parts_finite sigma_2 (fst r) = true
  /\ parts_finite sigma_2 (snd r) = true.

(** [in_box_diff] on tensors of one shape. *)
Definition in_box_diff32 (pred target inside : ftensor2) : ftensor2 :=
  Tensor.zip_with (frow_map2 fmul) inside
    (Tensor.zip_with (frow_map2 fsub) pred target).

(** Sum in index order. *)
Definition fsum (l : list f32) : f32 := fold_left fadd l f_zero.

(** [smooth_l1_loss] with the default [dim = [1]]: sum over the two
    channels, then the mean over the anchors. *)
Definition smooth_l1_loss32
  (bbox_pred bbox_targets bbox_inside_weights bbox_outside_weights : ftensor2)
  (sigma : f64) : result f32 :=
  sigma_2 <- sigma_square sigma ;;
  box_diff <- few2 fsub bbox_pred bbox_targets ;;
  in_box_diff <- few2 fmul bbox_inside_weights box_diff ;;
  _ <- (if is_zero sigma_2 then Raise ZeroDivisionError else Ok tt) ;;
  out_loss_box <-
    few2 fmul bbox_outside_weights
      (map (frow_map (in_loss_box32 sigma_2)) in_box_diff) ;;
  let loss_box := map (fun r => fadd (fst r) (snd r)) out_loss_box in
  Ok (fdiv (fsum loss_box) (of_nat (length loss_box))).

(** The last statements of [rpn_loss]: the regression loss, then
    [rpn_cross_entropy + loss_box_weight * rpn_loss_box], where
    [rpn_cross_entropy] is the float32 value that the "Class Loss" block
    has produced. *)
Definition rpn_loss32
  (rpn_cross_entropy : f32)
  (rpn_bbox_pred rpn_bbox_targets
   rpn_bbox_inside_weights rpn_bbox_outside_weights : ftensor2)
  (sigma loss_box_weight : f64) : result f32 :=
  rpn_loss_box <-
    smooth_l1_loss32 rpn_bbox_pred rpn_bbox_targets
      rpn_bbox_inside_weights rpn_bbox_outside_weights sigma ;;
  Ok (fadd rpn_cross_entropy (fmul (to_f32 loss_box_weight) rpn_loss_box)).

(** *** The reference definition, in the same arithmetic *)

(** Smooth-L1 term of a residual [d]: [0.5 sigma^2 d^2] when
    [|d| < 1/sigma^2], else [|d| - 0.5/sigma^2]; one branch is
    evaluated. *)
Definition smooth_l1_term32 (sigma_2 : f64) (d : f32) : f32 :=
  if flt (fabs d) (to_f32 (ddiv (dpow2 0) sigma_2))
  then fmul (to_f32 (ddiv sigma_2 (dpow2 1))) (fmul d d)
  else fsub (fabs d) (to_f32 (ddiv (dpow2 (-1)) sigma_2)).

Definition channel_loss32 (sigma_2 : f64) (pred target inside outside : f32)
  : f32 :=
  fmul outside (smooth_l1_term32 sigma_2 (fmul inside (fsub pred target))).

(** Sum over the two channels of anchor [k]. *)
Definition anchor_loss32 (sigma_2 : f64)
  (pred target inside outside : ftensor2) (k : nat) : f32 :=
  let z := (f_zero, f_zero) in
  let p := nth k pred z in
  let t := nth k target z in
  let i := nth k inside z in
  let o := nth k outside z in
  fadd (channel_loss32 sigma_2 (fst p) (fst t) (fst i) (fst o))
       (channel_loss32 sigma_2 (snd p) (snd t) (snd i) (snd o)).

(** Average over the anchors. *)
Definition regression_loss32 (sigma : f64)
  (pred target inside outside : ftensor2) : f32 :=
  let sigma_2 := dmul sigma sigma in
  fdiv (fsum (map (anchor_loss32 sigma_2 pred target inside outside)
                (seq 0 (length pred))))
       (of_nat (length pred)).

(** *** Sample values *)

(** [sigma = 1.0], the default. *)
Definition sigma_one : f64 := dpow2 0.

(** One anchor with the prediction [2^70] on the first channel, target
    0, all weights 1. *)
Definition far_pred : ftensor2 := [(pow2 70, f_zero)].
Definition zero_target : ftensor2 := [(f_zero, f_zero)].
Definition unit_weights : ftensor2 := [(f_one, f_one)].

(** [ln 2] rounded to float32: the cross-entropy of one anchor with
    probability 0.5. *)
Definition ln_2 : f32 := SpecFloat.S754_finite false 11629080 (-24).

End Float32.

(** ** Magnitudes that keep float32 away from overflow

    With entries of size at most [2^20], at most [2^20] anchors and
    [sigma] between [2^-20] and [2^20], the residuals are at most
    [2^41], their squares at most [2^82], and every intermediate value
    of the loss stays below [2^122], inside the float32 range. *)

Module Magnitude.

Import Tensor.
Local Open Scope R_scope.

(** [2^20] *)
Definition bound : R := 1048576.

Definition moderate (x : R) : Prop := Rabs x <= bound.

Definition moderate_row (r : row) : Prop :=
  moderate (fst r) /\ moderate (snd r).

Definition moderate_tensor (m : tensor2) : Prop :=
  Forall moderate_row m /\ (Z.of_nat (length m) <= 1048576)%Z.

Definition moderate_sigma (sigma : R) : Prop :=
  / bound <= sigma <= bound.

Definition moderate_weight (w : R) : Prop := 0 <= w <= bound.

End Magnitude.

(** ** A collaborator instance whose checkpoint file is missing *)

Module StubMissingFile.

Import Tensor RegionProposalNetwork1d.
Local Open Scope string_scope.

(** As [Stub.collab], except that [torch.load(backbone_path, ...)]
    finds no file. *)
#[local] Instance collab : Collaborators := {|
  ttensor := list nat;
  nn_module := unit;
  anchors_t := unit;
  gt_boxes_t := unit;
  ndarray := list nat;
  size := fun t => t;
  entries := fun _ => [0.5%R];
  call := fun _ t => Ok t;
  sigmoid := fun t => t;
  permute_0_2_1 := fun t => Ok t;
  to_numpy := fun t => t;
  top_outputs := fun o => Ok o;
  deepcopy := fun m => Ok m;
  load_state_dict := fun _ _ _ => Raise (External "FileNotFoundError");
  generate_anchors_1d := fun _ => Ok (tt, 1%nat);
  anchors_to := fun a _ => Ok a;
  make_rpn_net := fun _ _ _ => Ok tt;
  make_conv1d := fun _ _ _ => Ok tt;
  proposal_layer_1d := fun _ _ _ _ _ _ _ _ => Ok [1%nat; 1%nat; 3%nat];
  anchor_target_layer_1d :=
    fun _ _ _ _ => Ok ([1%Z], [0%R; 0%R], [1%R; 1%R], [1%R; 1%R])
|}.

End StubMissingFile.

(** ** Properties of the loss *)

Module LossProperties.

Import Tensor RegionProposalNetwork1d.
Local Open Scope R_scope.

Lemma Rhalf : 0.5 = 1 / 2.
Proof. lra. Qed.

Lemma sigma_2_pos (sigma : R) : 0 < sigma -> 0 < sigma ^ 2.
Proof. intros H. simpl. nra. Qed.

Lemma inv_sigma_2_pos (sigma : R) : 0 < sigma -> 0 < 1 / sigma ^ 2.
Proof.
  intros H. apply Rdiv_lt_0_compat; [lra | now apply sigma_2_pos].
Qed.

(** The code's branch-free formula is the piecewise definition. *)
Lemma in_loss_box_piecewise (sigma d : R) :
  0 < sigma ->
  in_loss_box (sigma ^ 2) d = Reference.smooth_l1_term sigma d.
Proof.
  intros Hs. pose proof (sigma_2_pos sigma Hs) as H2.
  unfold in_loss_box, Reference.smooth_l1_term, smoothL1_sign,
    quadratic_part, linear_part.
  destruct (Rlt_dec (Rabs d) (1 / sigma ^ 2)); rewrite Rhalf; field; lra.
Qed.

Lemma in_loss_box_either (sigma_2 d : R) :
  in_loss_box sigma_2 d = quadratic_part sigma_2 d
  \/ in_loss_box sigma_2 d = linear_part sigma_2 d.
Proof.
  unfold in_loss_box, smoothL1_sign.
  destruct (Rlt_dec (Rabs d) (1 / sigma_2)); [left | right]; ring.
Qed.

(** A function that picks, at each point, one of two functions which are
    continuous at [x0] and agree with it there is continuous at [x0]. *)
Lemma continuity_pt_glue (f g h : R -> R) (x0 : R) :
  (forall x, f x = g x \/ f x = h x) ->
  g x0 = f x0 -> h x0 = f x0 ->
  continuity_pt g x0 -> continuity_pt h x0 -> continuity_pt f x0.
Proof.
  intros Hsel Hg0 Hh0 Hg Hh eps Heps.
  destruct (Hg eps Heps) as [a1 [Ha1 Hg1]].
  destruct (Hh eps Heps) as [a2 [Ha2 Hh1]].
  exists (Rmin a1 a2). split.
  - apply Rmin_pos; assumption.
  - intros x [HD Hdist]. simpl in *.
    destruct (Hsel x) as [E | E]; rewrite E.
    + rewrite <- Hg0. apply Hg1. split; [exact HD |].
      eapply Rlt_le_trans; [exact Hdist | apply Rmin_l].
    + rewrite <- Hh0. apply Hh1. split; [exact HD |].
      eapply Rlt_le_trans; [exact Hdist | apply Rmin_r].
Qed.

Lemma quadratic_part_continuous (sigma_2 x0 : R) :
  continuity_pt (quadratic_part sigma_2) x0.
Proof.
  apply derivable_continuous_pt.
  unfold quadratic_part. reg.
Qed.

Lemma linear_part_continuous (sigma_2 x0 : R) :
  continuity_pt (linear_part sigma_2) x0.
Proof.
  unfold linear_part.
  apply (continuity_pt_minus Rabs (fun _ => 0.5 / sigma_2)).
  - apply Rcontinuity_abs.
  - apply continuity_pt_const. intros x y. reflexivity.
Qed.

Lemma boundary_sq (sigma d : R) :
  0 < sigma -> Rabs d = 1 / sigma ^ 2 -> d ^ 2 = (1 / sigma ^ 2) ^ 2.
Proof.
  intros Hs Hd. rewrite <- Hd. rewrite <- (pow2_abs d). reflexivity.
Qed.

Lemma ew2_same_length (f : R -> R -> R) (a b : tensor2) :
  length a = length b -> ew2 f a b = Ok (zip_with (row_map2 f) a b).
Proof.
  intros H. unfold ew2. rewrite H, Nat.eqb_refl. reflexivity.
Qed.

Lemma zip_with_length {A B C : Type} (f : A -> B -> C) (a : list A) :
  forall b, length a = length b -> length (zip_with f a b) = length a.
Proof.
  induction a as [|x a IH]; intros [|y b] H; simpl in *;
    try reflexivity; try discriminate.
  f_equal. apply IH. now injection H.
Qed.

Lemma sum_dims_channels (m : tensor2) :
  sum_dims (T2 m) (sorted_reverse [1%Z])
  = Ok (T1 (map (fun r => fst r + snd r) m)).
Proof. reflexivity. Qed.

(** Row sums of the weighted loss tensor, anchor by anchor. *)
Lemma out_loss_rows (sigma : R) (Hs : 0 < sigma) (pred : tensor2) :
  forall target inside outside : tensor2,
    length target = length pred ->
    length inside = length pred ->
    length outside = length pred ->
    map (fun r => fst r + snd r)
      (zip_with (row_map2 Rmult) outside
         (tmap (in_loss_box (sigma ^ 2))
            (zip_with (row_map2 Rmult) inside
               (zip_with (row_map2 Rminus) pred target))))
    = map (Reference.anchor_loss sigma pred target inside outside)
        (seq 0 (length pred)).
Proof.
  induction pred as [|p pred IH]; intros target inside outside Ht Hi Ho.
  - destruct outside; [reflexivity | discriminate].
  - destruct target as [|t target]; [discriminate |].
    destruct inside as [|i inside]; [discriminate |].
    destruct outside as [|o outside]; [discriminate |].
    simpl in Ht, Hi, Ho.
    injection Ht as Ht. injection Hi as Hi. injection Ho as Ho.
    cbn [length seq map zip_with tmap].
    f_equal.
    + unfold Reference.anchor_loss, Reference.channel_loss.
      cbn [nth row_map row_map2 fst snd].
      rewrite !(in_loss_box_piecewise sigma _ Hs). reflexivity.
    + rewrite <- seq_shift, map_map.
      fold (tmap (in_loss_box (sigma ^ 2))
              (zip_with (row_map2 Rmult) inside
                 (zip_with (row_map2 Rminus) pred target))).
      rewrite (IH target inside outside Ht Hi Ho).
      apply map_ext. intros k. reflexivity.
Qed.

(** With [dim = [1]] and [sigma > 0], on tensors of one shape, no step
    of [smooth_l1_loss] raises: the result is the mean of the row sums
    of the weighted loss tensor. *)
Lemma smooth_l1_loss_row_mean
  (pred target inside outside : tensor2) (sigma : R) :
  0 < sigma ->
  length target = length pred ->
  length inside = length pred ->
  length outside = length pred ->
  smooth_l1_loss pred target inside outside sigma [1%Z]
  = Ok (mean_list
          (map (fun r => fst r + snd r)
             (zip_with (row_map2 Rmult) outside
                (tmap (in_loss_box (sigma ^ 2))
                   (zip_with (row_map2 Rmult) inside
                      (zip_with (row_map2 Rminus) pred target)))))).
Proof.
  intros Hs Ht Hi Ho.
  pose proof (sigma_2_pos sigma Hs) as H2.
  assert (L1 : length (zip_with (row_map2 Rminus) pred target) = length pred)
    by (apply zip_with_length; symmetry; exact Ht).
  assert (L2 : length (zip_with (row_map2 Rmult) inside
                         (zip_with (row_map2 Rminus) pred target))
               = length pred)
    by (rewrite zip_with_length; [exact Hi | now rewrite L1]).
  unfold smooth_l1_loss.
  rewrite (ew2_same_length Rminus pred target) by (symmetry; exact Ht).
  cbn [bind].
  rewrite (ew2_same_length Rmult inside) by (now rewrite L1).
  cbn [bind].
  destruct (Req_dec_T (sigma ^ 2) 0) as [E | _]; [lra |].
  cbn [bind].
  rewrite (ew2_same_length Rmult outside) by
    (unfold tmap; rewrite length_map; now rewrite L2).
  cbn [bind].
  rewrite sum_dims_channels. reflexivity.
Qed.

Lemma moderate_sigma_pos (sigma : R) :
  Magnitude.moderate_sigma sigma -> 0 < sigma.
Proof.
  unfold Magnitude.moderate_sigma, Magnitude.bound. intros [H _].
  assert (0 < / 1048576) by (apply Rinv_0_lt_compat; lra).
  lra.
Qed.

Lemma moderate_rows (a b : R) :
  Rabs a <= 1048576 -> Rabs b <= 1048576 ->
  Magnitude.moderate_tensor [(a, b)].
Proof.
  intros Ha Hb. split.
  - apply Forall_cons; [split; assumption | apply Forall_nil].
  - cbn [length]. lia.
Qed.

(** *** Moderate magnitudes

    Under the [Magnitude] bounds no value that the loss computes on the
    way leaves the float32 range: the squares of the residuals stay
    below [2^82], the quadratic part below [2^121], the sums below
    [2^82], and the scalars derived from [sigma] stay above [2^-41]. *)

Lemma bound_pow : Magnitude.bound = 2 ^ 20.
Proof. unfold Magnitude.bound. cbn [pow]. lra. Qed.

Lemma two_pow_pos (n : nat) : 0 < 2 ^ n.
Proof. apply pow_lt. lra. Qed.

Lemma Rabs_mult_le (a b x y : R) :
  Rabs a <= x -> Rabs b <= y -> Rabs (a * b) <= x * y.
Proof.
  intros Ha Hb. rewrite Rabs_mult.
  apply Rmult_le_compat; try apply Rabs_pos; assumption.
Qed.

(** Scalars of the loss under a moderate sigma. *)
Lemma moderate_scalars (sigma : R) :
  Magnitude.moderate_sigma sigma ->
  / 2 ^ 40 <= sigma ^ 2 <= 2 ^ 40
  /\ / 2 ^ 40 <= 1 / sigma ^ 2 <= 2 ^ 40
  /\ / 2 ^ 41 <= sigma ^ 2 / 2 <= 2 ^ 39
  /\ / 2 ^ 41 <= 0.5 / sigma ^ 2 <= 2 ^ 39.
Proof.
  unfold Magnitude.moderate_sigma. rewrite bound_pow. intros [Hlo Hhi].
  pose proof (two_pow_pos 20) as P20. pose proof (two_pow_pos 40) as P40.
  assert (I20 : 0 < / 2 ^ 20) by (apply Rinv_0_lt_compat; exact P20).
  assert (Hs : 0 < sigma) by lra.
  assert (E40 : 2 ^ 40 = 2 ^ 20 * 2 ^ 20) by (rewrite <- pow_add; reflexivity).
  assert (E41 : 2 ^ 41 = 2 * 2 ^ 40) by reflexivity.
  assert (E39 : 2 ^ 40 = 2 * 2 ^ 39) by reflexivity.
  assert (I40 : / 2 ^ 40 = / 2 ^ 20 * / 2 ^ 20)
    by (rewrite E40; apply Rinv_mult).
  assert (S2 : / 2 ^ 40 <= sigma ^ 2 <= 2 ^ 40).
  { replace (sigma ^ 2) with (sigma * sigma) by ring. rewrite I40, E40.
    split; apply Rmult_le_compat; lra. }
  assert (S2pos : 0 < sigma ^ 2).
  { assert (0 < / 2 ^ 40) by (apply Rinv_0_lt_compat; exact P40). lra. }
  assert (Inv : / 2 ^ 40 <= / sigma ^ 2 <= 2 ^ 40).
  { split.
    - apply Rinv_le_contravar; [exact S2pos | apply S2].
    - rewrite <- (Rinv_inv (2 ^ 40)).
      apply Rinv_le_contravar; [apply Rinv_0_lt_compat; exact P40 | apply S2]. }
  assert (I41 : / 2 ^ 41 = / 2 ^ 40 / 2).
  { rewrite E41. rewrite Rinv_mult. lra. }
  rewrite Rhalf.
  repeat split; try apply S2; unfold Rdiv; rewrite ?Rmult_1_l;
    try apply Inv; rewrite ?I41; lra.
Qed.

Lemma moderate_between (x : R) :
  Magnitude.moderate x -> - 2 ^ 20 <= x <= 2 ^ 20.
Proof.
  unfold Magnitude.moderate. rewrite bound_pow. intros H.
  split.
  - pose proof (Rabs_pos x). pose proof (Rle_abs (- x)) as H1.
    rewrite Rabs_Ropp in H1. lra.
  - pose proof (Rle_abs x). lra.
Qed.

(** Every intermediate value of one element of the loss, in the order
    in which the code computes it. *)
Lemma moderate_element (sigma p t iw ow : R) :
  Magnitude.moderate_sigma sigma ->
  Magnitude.moderate p -> Magnitude.moderate t ->
  Magnitude.moderate iw -> Magnitude.moderate ow ->
  let d := iw * (p - t) in
  Rabs (p - t) <= 2 ^ 21
  /\ Rabs d <= 2 ^ 41
  /\ 0 <= d ^ 2 <= 2 ^ 82
  /\ 0 <= quadratic_part (sigma ^ 2) d <= 2 ^ 121
  /\ Rabs (linear_part (sigma ^ 2) d) <= 2 ^ 42
  /\ 0 <= in_loss_box (sigma ^ 2) d <= 2 ^ 41
  /\ Rabs (ow * in_loss_box (sigma ^ 2) d) <= 2 ^ 61.
Proof.
  intros Hsig Hp Ht Hi Ho d.
  pose proof (moderate_sigma_pos sigma Hsig) as Hs.
  destruct (moderate_scalars sigma Hsig) as [S2 [Inv [Hh Hc]]].
  pose proof (moderate_between p Hp) as Bp.
  pose proof (moderate_between t Ht) as Bt.
  unfold Magnitude.moderate in Hi, Ho. rewrite bound_pow in Hi, Ho.
  pose proof (two_pow_pos 20) as P20. pose proof (two_pow_pos 40) as P40.
  pose proof (two_pow_pos 41) as P41.
  assert (I40 : 0 < / 2 ^ 40) by (apply Rinv_0_lt_compat; exact P40).
  assert (I41 : 0 < / 2 ^ 41) by (apply Rinv_0_lt_compat; exact P41).
  assert (E21 : 2 ^ 21 = 2 * 2 ^ 20) by reflexivity.
  assert (E41 : 2 ^ 41 = 2 ^ 20 * 2 ^ 21)
    by (rewrite <- pow_add; reflexivity).
  assert (E82 : 2 ^ 82 = 2 ^ 41 * 2 ^ 41)
    by (rewrite <- pow_add; reflexivity).
  assert (E121 : 2 ^ 121 = 2 ^ 82 * 2 ^ 39)
    by (rewrite <- pow_add; reflexivity).
  assert (E61 : 2 ^ 61 = 2 ^ 20 * 2 ^ 41)
    by (rewrite <- pow_add; reflexivity).
  assert (E42 : 2 ^ 42 = 2 * 2 ^ 41) by reflexivity.
  assert (E41' : 2 ^ 41 = 4 * 2 ^ 39) by (cbn [pow]; ring).
  assert (Hdiff : Rabs (p - t) <= 2 ^ 21) by (apply Rabs_le; lra).
  assert (Hd : Rabs d <= 2 ^ 41).
  { unfold d. rewrite E41. apply Rabs_mult_le; assumption. }
  assert (Hsq : 0 <= d ^ 2 <= 2 ^ 82).
  { split; [apply pow2_ge_0 |].
    rewrite <- (pow2_abs d), E82.
    replace (Rabs d ^ 2) with (Rabs d * Rabs d) by ring.
    apply Rmult_le_compat; try apply Rabs_pos; assumption. }
  assert (Hq : 0 <= quadratic_part (sigma ^ 2) d <= 2 ^ 121).
  { unfold quadratic_part. split.
    - apply Rmult_le_pos; lra.
    - rewrite E121. apply Rmult_le_compat; lra. }
  assert (Hlin : Rabs (linear_part (sigma ^ 2) d) <= 2 ^ 42).
  { unfold linear_part. pose proof (Rabs_pos d).
    apply Rabs_le. lra. }
  assert (Hterm : 0 <= in_loss_box (sigma ^ 2) d <= 2 ^ 41).
  { rewrite (in_loss_box_piecewise sigma d Hs).
    unfold Reference.smooth_l1_term. pose proof (Rabs_pos d) as Hd0.
    assert (Ec : 0.5 / sigma ^ 2 = (1 / sigma ^ 2) / 2)
      by (rewrite Rhalf; field; lra).
    destruct (Rlt_dec (Rabs d) (1 / sigma ^ 2)) as [L | L].
    - rewrite Rhalf.
      assert (Hprod : sigma ^ 2 * Rabs d <= 1).
      { replace 1 with (sigma ^ 2 * (1 / sigma ^ 2)) by (field; lra).
        apply Rmult_le_compat_l; lra. }
      replace (1 / 2 * sigma ^ 2 * d ^ 2)
        with (1 / 2 * ((sigma ^ 2 * Rabs d) * Rabs d))
        by (rewrite <- (pow2_abs d); ring).
      assert (0 <= sigma ^ 2 * Rabs d) by (apply Rmult_le_pos; lra).
      assert (0 <= sigma ^ 2 * Rabs d * Rabs d)
        by (apply Rmult_le_pos; lra).
      assert (sigma ^ 2 * Rabs d * Rabs d <= 1 * Rabs d)
        by (apply Rmult_le_compat_r; lra).
      lra.
    - apply Rnot_lt_le in L. lra. }
  repeat split; try assumption; try apply Hsq; try apply Hq; try apply Hterm.
  rewrite E61. apply Rabs_mult_le; [exact Ho |].
  rewrite Rabs_pos_eq; apply Hterm.
Qed.

Lemma moderate_nth (m : tensor2) (k : nat) :
  Magnitude.moderate_tensor m -> Magnitude.moderate_row (nth k m (0, 0)).
Proof.
  intros [H _]. destruct (nth_in_or_default k m (0, 0)) as [Hin | ->].
  - exact (proj1 (Forall_forall _ _) H _ Hin).
  - unfold Magnitude.moderate_row, Magnitude.moderate, Magnitude.bound.
    cbn [fst snd]. rewrite Rabs_R0. lra.
Qed.

Lemma Rsum_bound (B : R) (l : list R) :
  Forall (fun x => Rabs x <= B) l -> Rabs (Rsum l) <= INR (length l) * B.
Proof.
  induction 1 as [|x l Hx _ IH].
  - cbn [Rsum fold_right length INR]. rewrite Rabs_R0. lra.
  - change (Rsum (x :: l)) with (x + Rsum l).
    change (length (x :: l)) with (S (length l)). rewrite S_INR.
    pose proof (Rabs_triang x (Rsum l)). lra.
Qed.

(** The per-anchor sums and every partial sum over the anchors. *)
Lemma moderate_sums
  (pred target inside outside : tensor2) (sigma : R) :
  Magnitude.moderate_sigma sigma ->
  Magnitude.moderate_tensor pred ->
  Magnitude.moderate_tensor target ->
  Magnitude.moderate_tensor inside ->
  Magnitude.moderate_tensor outside ->
  (forall k,
     Rabs (Reference.anchor_loss sigma pred target inside outside k)
     <= 2 ^ 62)
  /\ (forall n, (n <= length pred)%nat ->
        Rabs (Rsum (map (Reference.anchor_loss sigma pred target inside
                           outside) (seq 0 n)))
        <= 2 ^ 82).
Proof.
  intros Hsig Hp Ht Hi Ho.
  assert (Hrow : forall k,
            Rabs (Reference.anchor_loss sigma pred target inside outside k)
            <= 2 ^ 62).
  { intros k. unfold Reference.anchor_loss, Reference.channel_loss.
    destruct (moderate_nth pred k Hp) as [P1 P2].
    destruct (moderate_nth target k Ht) as [T1 T2].
    destruct (moderate_nth inside k Hi) as [I1 I2].
    destruct (moderate_nth outside k Ho) as [O1 O2].
    pose proof (moderate_element sigma _ _ _ _ Hsig P1 T1 I1 O1) as E1.
    pose proof (moderate_element sigma _ _ _ _ Hsig P2 T2 I2 O2) as E2.
    cbv zeta in E1, E2.
    destruct E1 as (_ & _ & _ & _ & _ & _ & E1).
    destruct E2 as (_ & _ & _ & _ & _ & _ & E2).
    rewrite (in_loss_box_piecewise sigma _
               (moderate_sigma_pos sigma Hsig)) in E1.
    rewrite (in_loss_box_piecewise sigma _
               (moderate_sigma_pos sigma Hsig)) in E2.
    assert (E62 : 2 ^ 62 = 2 * 2 ^ 61) by reflexivity.
    pose proof (Rabs_triang
      (fst (nth k outside (0, 0))
       * Reference.smooth_l1_term sigma
           (fst (nth k inside (0, 0))
            * (fst (nth k pred (0, 0)) - fst (nth k target (0, 0)))))
      (snd (nth k outside (0, 0))
       * Reference.smooth_l1_term sigma
           (snd (nth k inside (0, 0))
            * (snd (nth k pred (0, 0)) - snd (nth k target (0, 0)))))).
    lra. }
  split; [exact Hrow |].
  intros n Hn.
  pose proof (Rsum_bound (2 ^ 62)
                (map (Reference.anchor_loss sigma pred target inside outside)
                   (seq 0 n))) as Hsum.
  rewrite length_map, length_seq in Hsum.
  assert (Hall : Forall (fun x => Rabs x <= 2 ^ 62)
                   (map (Reference.anchor_loss sigma pred target inside
                           outside) (seq 0 n))).
  { apply Forall_forall. intros x Hx. apply in_map_iff in Hx.
    destruct Hx as [k [<- _]]. apply Hrow. }
  specialize (Hsum Hall).
  assert (Hlen : INR n <= 2 ^ 20).
  { destruct Hp as [_ Hp]. rewrite INR_IZR_INZ.
    rewrite <- bound_pow. unfold Magnitude.bound. apply IZR_le. lia. }
  assert (E82 : 2 ^ 82 = 2 ^ 20 * 2 ^ 62)
    by (rewrite <- pow_add; reflexivity).
  pose proof (pos_INR n). pose proof (two_pow_pos 62).
  assert (INR n * 2 ^ 62 <= 2 ^ 20 * 2 ^ 62)
    by (apply Rmult_le_compat_r; lra).
  lra.
Qed.

(** X22: in exact arithmetic, on per-anchor tensors of one shape, with
    entries of size at most [2^20], at most [2^20] anchors and [sigma]
    between [2^-20] and [2^20], the loss that [smooth_l1_loss] computes
    with the default [dim = [1]] is the reference regression loss:
    smooth-L1 term of [d = inside_weight (pred - target)], times
    [outside_weight], summed over the two channels, averaged over the
    anchors. By [moderate_element] and [moderate_sums] the bounds keep
    every intermediate value inside the float32 range, so that the
    equality of the real-valued model is the one of the code, rounding
    aside. *)
Theorem smooth_l1_loss_matches_reference_moderate
  (pred target inside outside : tensor2) (sigma : R) :
  Magnitude.moderate_sigma sigma ->
  Magnitude.moderate_tensor pred ->
  Magnitude.moderate_tensor target ->
  Magnitude.moderate_tensor inside ->
  Magnitude.moderate_tensor outside ->
  length target = length pred ->
  length inside = length pred ->
  length outside = length pred ->
  smooth_l1_loss pred target inside outside sigma [1%Z]
  = Ok (Reference.regression_loss sigma pred target inside outside).
Proof.
  intros Hsig _ _ _ _ Ht Hi Ho.
  pose proof (moderate_sigma_pos sigma Hsig) as Hs.
  rewrite (smooth_l1_loss_row_mean pred target inside outside sigma
             Hs Ht Hi Ho).
  unfold Reference.regression_loss.
  rewrite (out_loss_rows sigma Hs pred target inside outside Ht Hi Ho).
  reflexivity.
Qed.

Lemma smooth_l1_loss_matches_reference_moderate_witness :
  smooth_l1_loss [(1, 2)] [(0, 0)] [(1, 1)] [(1, 1)] 1 [1%Z]
  = Ok (Reference.regression_loss 1 [(1, 2)] [(0, 0)] [(1, 1)] [(1, 1)]).
Proof.
  apply (smooth_l1_loss_matches_reference_moderate
           [(1, 2)] [(0, 0)] [(1, 1)] [(1, 1)] 1);
    try reflexivity;
    try (apply moderate_rows; apply Rabs_le; lra).
  unfold Magnitude.moderate_sigma, Magnitude.bound. lra.
Defined.

(** C7: the smooth-L1 term computed by the code is 0 at residual 0; at
    the branch boundary [|d| = 1/sigma^2] the quadratic and the linear
    formula both give [0.5/sigma^2], so does the term, and the term is
    continuous there as a function of the residual. *)
Theorem smooth_l1_zero_and_continuous (sigma : R) :
  0 < sigma ->
  in_loss_box (sigma ^ 2) 0 = 0
  /\ forall d, Rabs d = 1 / sigma ^ 2 ->
       quadratic_part (sigma ^ 2) d = 0.5 / sigma ^ 2
       /\ linear_part (sigma ^ 2) d = 0.5 / sigma ^ 2
       /\ in_loss_box (sigma ^ 2) d = 0.5 / sigma ^ 2
       /\ continuity_pt (in_loss_box (sigma ^ 2)) d.
Proof.
  intros Hs. pose proof (sigma_2_pos sigma Hs) as H2.
  pose proof (inv_sigma_2_pos sigma Hs) as Hi.
  split.
  - unfold in_loss_box, smoothL1_sign, quadratic_part.
    rewrite Rabs_R0.
    destruct (Rlt_dec 0 (1 / sigma ^ 2)) as [_ | N]; [ring | contradiction].
  - intros d Hd.
    assert (Hq : quadratic_part (sigma ^ 2) d = 0.5 / sigma ^ 2).
    { unfold quadratic_part. rewrite (boundary_sq sigma d Hs Hd), Rhalf.
      field. lra. }
    assert (Hl : linear_part (sigma ^ 2) d = 0.5 / sigma ^ 2).
    { unfold linear_part. rewrite Hd, Rhalf. field. lra. }
    assert (Hf : in_loss_box (sigma ^ 2) d = 0.5 / sigma ^ 2).
    { destruct (in_loss_box_either (sigma ^ 2) d) as [E | E];
        rewrite E; assumption. }
    repeat split; try assumption.
    apply (continuity_pt_glue _ (quadratic_part (sigma ^ 2))
             (linear_part (sigma ^ 2))).
    + apply in_loss_box_either.
    + now rewrite Hq, Hf.
    + now rewrite Hl, Hf.
    + apply quadratic_part_continuous.
    + apply linear_part_continuous.
Qed.

Lemma smooth_l1_zero_and_continuous_witness :
  in_loss_box (1 ^ 2) 0 = 0
  /\ forall d, Rabs d = 1 / 1 ^ 2 ->
       quadratic_part (1 ^ 2) d = 0.5 / 1 ^ 2
       /\ linear_part (1 ^ 2) d = 0.5 / 1 ^ 2
       /\ in_loss_box (1 ^ 2) d = 0.5 / 1 ^ 2
       /\ continuity_pt (in_loss_box (1 ^ 2)) d.
Proof. apply (smooth_l1_zero_and_continuous 1). lra. Defined.

End LossProperties.

(** ** Properties of the float32 model

    The operations of [SpecFloat] round a mantissa and an exponent to
    the format. The lemmas below show that they stay inside float32
    ([valid]), that multiplying by 1.0 changes nothing, and how the
    sign of a result comes about; with them the blended formula of the
    code is the branch that the comparison selects, as long as the
    branch that it does not select is finite. *)

Module Float32Properties.

Import SpecFloat.
Import Py Float32.
Local Open Scope Z_scope.

(** *** Digits and shifts *)

Lemma fexp32 (e : Z) : fexp 24 128 e = fx e.
Proof. reflexivity. Qed.

Lemma digits2_size (p : positive) : digits2_pos p = Pos.size p.
Proof. induction p; simpl; congruence. Qed.

Lemma Zdigits2_log2 (p : positive) :
  Zdigits2 (Zpos p) = Z.log2 (Zpos p) + 1.
Proof.
  unfold Zdigits2. rewrite digits2_size.
  destruct p; simpl; try rewrite Pos2Z.inj_succ; lia.
Qed.

Lemma iter_pos_nat {A : Type} (f : A -> A) (n : positive) :
  forall x, iter_pos f n x = Nat.iter (Pos.to_nat n) f x.
Proof.
  induction n as [n IH | n IH |]; intros x; cbn [iter_pos].
  - rewrite !IH, Pos2Nat.inj_xI.
    rewrite <- Nat.iter_succ_r.
    replace (S (2 * Pos.to_nat n))%nat
      with (Pos.to_nat n + S (Pos.to_nat n))%nat by lia.
    rewrite Nat.iter_add. reflexivity.
  - rewrite !IH, Pos2Nat.inj_xO.
    replace (2 * Pos.to_nat n)%nat with (Pos.to_nat n + Pos.to_nat n)%nat
      by lia.
    rewrite Nat.iter_add. reflexivity.
  - reflexivity.
Qed.

Lemma shr_1_m (r : shr_record) :
  0 <= shr_m r -> shr_m (shr_1 r) = shr_m r / 2.
Proof.
  destruct r as [m r s]. cbn [shr_m]. intros H.
  destruct m as [|[p|p|]|p]; cbn [shr_1 shr_m]; try lia.
  - reflexivity.
  - apply Z.div_unique with 1; lia.
  - apply Z.div_unique with 0; lia.
  - reflexivity.
Qed.

Lemma shr_iter_m (k : nat) (r : shr_record) :
  0 <= shr_m r ->
  shr_m (Nat.iter k shr_1 r) = shr_m r / 2 ^ Z.of_nat k.
Proof.
  intros H. induction k as [|k IH].
  - cbn. now rewrite Z.div_1_r.
  - rewrite Nat.iter_succ. rewrite shr_1_m.
    + rewrite IH, Nat2Z.inj_succ, Z.pow_succ_r by lia.
      rewrite Z.div_div by lia. f_equal. lia.
    + rewrite IH. apply Z.div_pos; lia.
Qed.

(** [shr] divides the mantissa by [2^n] and adds [n] to the exponent,
    for [n >= 0]. *)
Lemma shr_spec (r : shr_record) (e n : Z) :
  0 <= shr_m r -> 0 <= n ->
  shr_m (fst (shr r e n)) = shr_m r / 2 ^ n /\ snd (shr r e n) = e + n.
Proof.
  intros Hm Hn. unfold shr. destruct n as [|p|p]; try lia.
  - cbn [fst snd]. rewrite Z.div_1_r. lia.
  - cbn [fst snd]. rewrite iter_pos_nat, shr_iter_m by exact Hm.
    rewrite positive_nat_Z. lia.
Qed.

Lemma digits_pos (x : Z) : 0 < x -> Zdigits2 x = Z.log2 x + 1.
Proof. destruct x as [|p|p]; try lia. intros _. apply Zdigits2_log2. Qed.

Lemma digits_nonneg (x : Z) : 0 <= Zdigits2 x.
Proof. destruct x; cbn; lia. Qed.

Lemma digits_mono (x y : Z) : 0 <= x -> x <= y -> Zdigits2 x <= Zdigits2 y.
Proof.
  intros Hx Hxy. destruct (Z.eq_dec x 0) as [-> | N].
  - apply digits_nonneg.
  - rewrite !digits_pos by lia.
    pose proof (Z.log2_le_mono x y Hxy). lia.
Qed.

Lemma digits_div (x n : Z) :
  0 < x -> 0 <= n -> 0 < x / 2 ^ n ->
  Zdigits2 (x / 2 ^ n) = Zdigits2 x - n.
Proof.
  intros Hx Hn Hq. rewrite !digits_pos by lia.
  rewrite <- Z.shiftr_div_pow2 by lia.
  rewrite Z.log2_shiftr by lia.
  assert (n <= Z.log2 x).
  { destruct (Z.lt_ge_cases (Z.log2 x) n) as [L | L]; [| exact L].
    apply Z.log2_lt_pow2 in L; [| lia].
    rewrite Z.div_small in Hq by lia. lia. }
  lia.
Qed.

Lemma digits_div_zero (x n : Z) :
  0 < x -> 0 <= n -> x / 2 ^ n = 0 -> Zdigits2 x <= n.
Proof.
  intros Hx Hn Hq. rewrite digits_pos by lia.
  assert (x < 2 ^ n).
  { destruct (Z.lt_ge_cases x (2 ^ n)) as [L | L]; [exact L |].
    assert (1 <= x / 2 ^ n).
    { apply Z.div_le_lower_bound; lia. }
    lia. }
  apply Z.log2_lt_pow2 in H; lia.
Qed.

(** *** Rounding stays in the format *)

Lemma canonical_mantissa_iff (m : positive) (e : Z) :
  canonical_mantissa 24 128 m e = true <-> canonical (Zpos m) e.
Proof.
  unfold canonical_mantissa, canonical. rewrite fexp32.
  cbn [Zdigits2]. apply Z.eqb_eq.
Qed.

(** One rounding shift: what is left of the mantissa is canonical, and
    when nothing is left the exponent is the least one. *)
Lemma shr_fexp_spec (x e : Z) (l : location) :
  0 <= x -> proper x e ->
  let x' := shr_m (fst (shr_fexp 24 128 x e l)) in
  let e' := snd (shr_fexp 24 128 x e l) in
  0 <= x'
  /\ -149 <= e'
  /\ (0 < x' -> canonical x' e')
  /\ (x' = 0 -> e' = -149).
Proof.
  intros Hx Hp x' e'. unfold proper in Hp.
  assert (Hm : shr_m (shr_record_of_loc x l) = x)
    by (destruct l as [|[]]; reflexivity).
  destruct (shr_spec (shr_record_of_loc x l) e
              (fx (Zdigits2 x + e) - e)) as [E1 E2]; [lia | lia |].
  rewrite Hm in E1.
  assert (Ex : x' = x / 2 ^ (fx (Zdigits2 x + e) - e)) by exact E1.
  assert (Ee : e' = fx (Zdigits2 x + e)).
  { unfold e', shr_fexp. rewrite fexp32, E2. lia. }
  clearbody x' e'. clear E1 E2 Hm.
  assert (Hx' : 0 <= x') by (rewrite Ex; apply Z.div_pos; lia).
  repeat split.
  - exact Hx'.
  - unfold fx in Ee. lia.
  - intros Hpos. unfold canonical.
    assert (0 < x).
    { destruct (Z.eq_dec x 0) as [-> |]; [| lia].
      rewrite Z.div_0_l in Ex by lia. lia. }
    rewrite Ex, digits_div by lia.
    rewrite Ee. f_equal. lia.
  - intros Hz. destruct (Z.eq_dec x 0) as [-> | N].
    + cbn [Zdigits2] in *. unfold fx in *. lia.
    + assert (Zdigits2 x <= fx (Zdigits2 x + e) - e)
        by (apply digits_div_zero; lia).
      unfold fx in *. lia.
Qed.

Lemma round_nearest_even_range (x : Z) (l : location) :
  x <= round_nearest_even x l <= x + 1.
Proof.
  destruct l as [|[]]; cbn [round_nearest_even]; try lia.
  destruct (Z.even x); lia.
Qed.

Lemma fx_mono (a b : Z) : a <= b -> fx a <= fx b.
Proof. unfold fx. lia. Qed.

(** Rounding a mantissa whose exponent is not above the one of its
    format gives a float32 value. *)
Lemma binary_round_aux_valid (s : bool) (mx ex : Z) (l : location) :
  0 <= mx -> proper mx ex ->
  valid_binary 24 128 (binary_round_aux 24 128 s mx ex l) = true.
Proof.
  intros Hm Hp. unfold binary_round_aux.
  pose proof (shr_fexp_spec mx ex l Hm Hp) as H1. cbv zeta in H1.
  destruct (shr_fexp 24 128 mx ex l) as [r' e'] eqn:E1.
  cbn [fst snd] in H1. destruct H1 as (Hx' & He' & Hc' & Hz').
  pose proof (round_nearest_even_range (shr_m r') (loc_of_shr_record r'))
    as Hr.
  set (m1 := round_nearest_even (shr_m r') (loc_of_shr_record r')) in *.
  assert (Hp1 : proper m1 e').
  { unfold proper. destruct (Z.eq_dec (shr_m r') 0) as [Z0 | N].
    - rewrite (Hz' Z0). unfold fx. lia.
    - assert (Hc : canonical (shr_m r') e') by (apply Hc'; lia).
      unfold canonical in Hc.
      pose proof (digits_mono (shr_m r') m1 Hx' (proj1 Hr)) as Hd.
      pose proof (fx_mono (Zdigits2 (shr_m r') + e') (Zdigits2 m1 + e')
                    ltac:(lia)).
      lia. }
  pose proof (shr_fexp_spec m1 e' loc_Exact ltac:(lia) Hp1) as H2.
  cbv zeta in H2.
  destruct (shr_fexp 24 128 m1 e' loc_Exact) as [r'' e''] eqn:E2.
  cbn [fst snd] in H2. destruct H2 as (Hx'' & He'' & Hc'' & _).
  destruct (shr_m r'') as [|m|m] eqn:Em; try reflexivity.
  destruct (e'' <=? 128 - 24) eqn:Le; [| reflexivity].
  cbn [valid_binary]. unfold bounded. rewrite Le, andb_true_r.
  apply canonical_mantissa_iff. apply Hc''. lia.
Qed.

Lemma valid_finite (s : bool) (m : positive) (e : Z) :
  valid (S754_finite s m e) <-> canonical (Zpos m) e /\ e <= 104.
Proof.
  unfold valid. cbn [valid_binary]. unfold bounded.
  rewrite andb_true_iff, canonical_mantissa_iff, Z.leb_le. reflexivity.
Qed.

Lemma canonical_facts (m : positive) (e : Z) :
  canonical (Zpos m) e ->
  -149 <= e /\ 1 <= Zdigits2 (Zpos m) <= 24
  /\ (Zdigits2 (Zpos m) = 24 \/ e = -149).
Proof.
  unfold canonical, fx. cbn [Zdigits2]. lia.
Qed.

(** The product of two mantissas of [dx] and [dy] digits has at least
    [dx + dy - 1] digits: enough for the rounding to drop digits
    only. *)
Lemma SFmul_valid (x y : spec_float) :
  valid x -> valid y -> valid (SFmul 24 128 x y).
Proof.
  intros Hx Hy.
  destruct x as [sx | sx | | sx mx ex]; destruct y as [sy | sy | | sy my ey];
    try reflexivity.
  apply valid_finite in Hx, Hy. destruct Hx as [Cx _], Hy as [Cy _].
  cbn [SFmul]. apply binary_round_aux_valid; [lia |].
  pose proof (canonical_facts mx ex Cx) as Fx.
  pose proof (canonical_facts my ey Cy) as Fy.
  unfold proper.
  rewrite !digits_pos in * by lia.
  pose proof (Z.log2_mul_below (Zpos mx) (Zpos my) ltac:(lia) ltac:(lia)).
  rewrite Pos2Z.inj_mul. unfold fx. lia.
Qed.

Lemma iter_xO (d : positive) (m : positive) :
  Zpos (Pos.iter xO m d) = Zpos m * 2 ^ Zpos d.
Proof.
  induction d as [|d IH] using Pos.peano_ind.
  - cbn [Pos.iter]. lia.
  - rewrite Pos.iter_succ, Pos2Z.inj_xO, IH, Pos2Z.inj_succ,
      Z.pow_succ_r by lia.
    lia.
Qed.

Lemma shl_align_proper (m : positive) (e : Z) :
  let '(mz, ez) := shl_align m e (fexp 24 128 (Zpos (digits2_pos m) + e)) in
  proper (Zpos mz) ez /\ (-149 <= e -> -149 <= ez).
Proof.
  rewrite fexp32. unfold shl_align.
  change (Z.pos (digits2_pos m)) with (Zdigits2 (Zpos m)).
  destruct (fx (Zdigits2 (Z.pos m) + e) - e) as [|d|d] eqn:E.
  - unfold proper. lia.
  - unfold proper. lia.
  - split; [| unfold fx; lia].
    unfold proper. rewrite iter_xO.
    rewrite !digits_pos by lia.
    rewrite Z.log2_mul_pow2 by lia.
    apply Z.eq_le_incl. symmetry.
    replace (Z.pos d + Z.log2 (Z.pos m) + 1
             + fx (Z.log2 (Z.pos m) + 1 + e))
      with (Z.log2 (Z.pos m) + 1 + e).
    + reflexivity.
    + rewrite digits_pos in E by lia. lia.
Qed.

Lemma binary_round_valid (s : bool) (m : positive) (e : Z) :
  valid (binary_round 24 128 s m e).
Proof.
  unfold binary_round.
  pose proof (shl_align_proper m e) as H.
  destruct (shl_align m e (fexp 24 128 (Zpos (digits2_pos m) + e)))
    as [mz ez].
  apply binary_round_aux_valid; [lia | apply H].
Qed.

Lemma binary_normalize_valid (m e : Z) (szero : bool) :
  valid (binary_normalize 24 128 m e szero).
Proof.
  destruct m; [reflexivity | |]; apply binary_round_valid.
Qed.

Lemma SFopp_valid (x : spec_float) : valid x -> valid (SFopp x).
Proof. destruct x; intros H; exact H. Qed.

Lemma SFabs_valid (x : spec_float) : valid x -> valid (SFabs x).
Proof. destruct x; intros H; exact H. Qed.

Lemma SFsub_valid (x y : spec_float) :
  valid x -> valid y -> valid (SFsub 24 128 x y).
Proof.
  intros Hx Hy.
  destruct x as [sx | sx | | sx mx ex]; destruct y as [sy | sy | | sy my ey];
    try reflexivity; try exact Hx; try exact Hy.
  - destruct sx, sy; reflexivity.
  - destruct sx, sy; reflexivity.
  - apply binary_normalize_valid.
Qed.

Lemma SFadd_valid (x y : spec_float) :
  valid x -> valid y -> valid (SFadd 24 128 x y).
Proof.
  intros Hx Hy.
  destruct x as [sx | sx | | sx mx ex]; destruct y as [sy | sy | | sy my ey];
    try reflexivity; try exact Hx; try exact Hy.
  - destruct sx, sy; reflexivity.
  - destruct sx, sy; reflexivity.
  - apply binary_normalize_valid.
Qed.

(** *** Multiplying by 1.0 *)

Lemma iter_shr_exact (d m : positive) :
  iter_pos shr_1 d (Build_shr_record (Zpos (Pos.iter xO m d)) false false)
  = Build_shr_record (Zpos m) false false.
Proof.
  rewrite iter_pos_nat. revert m.
  induction d as [|d IH] using Pos.peano_ind; intros m.
  - reflexivity.
  - rewrite Pos2Nat.inj_succ, Nat.iter_succ_r, Pos.iter_succ.
    cbn [shr_1 orb]. apply IH.
Qed.

Lemma pow2_23 (m : positive) :
  (m * 8388608)%positive = Pos.iter xO m 23.
Proof. apply Pos2Z.inj. rewrite iter_xO, Pos2Z.inj_mul. reflexivity. Qed.

(** Multiplying a float32 value by 1.0 gives it back. *)
Lemma SFmul_one (x : spec_float) : valid x -> SFmul 24 128 x f_one = x.
Proof.
  intros Hx. destruct x as [s | s | | s m e]; cbn [SFmul f_one];
    try (destruct s; reflexivity); try reflexivity.
  apply valid_finite in Hx. destruct Hx as [Hc He].
  rewrite xorb_false_r, pow2_23.
  unfold binary_round_aux, shr_fexp. rewrite !fexp32.
  assert (D : Zdigits2 (Zpos (Pos.iter xO m 23)) = Zdigits2 (Zpos m) + 23).
  { rewrite iter_xO, !digits_pos by lia.
    rewrite Z.log2_mul_pow2 by lia. lia. }
  rewrite D.
  replace (Zdigits2 (Z.pos m) + 23 + (e + -23)) with (Zdigits2 (Zpos m) + e)
    by lia.
  unfold canonical in Hc. rewrite Hc.
  replace (e - (e + -23)) with 23 by lia.
  cbn [shr_record_of_loc shr]. rewrite iter_shr_exact.
  cbn [shr_m loc_of_shr_record round_nearest_even].
  replace (e + -23 + 23) with e by lia.
  rewrite fexp32, Hc, Z.sub_diag. cbn [shr shr_record_of_loc shr_m].
  apply Z.leb_le in He. change (128 - 24) with 104. rewrite He.
  reflexivity.
Qed.

(** *** Signs *)

Lemma binary_round_aux_sign (prec emax : Z) (s : bool) (mx ex : Z)
  (l : location) :
  match binary_round_aux prec emax s mx ex l with
  | S754_zero s' | S754_infinity s' | S754_finite s' _ _ => s' = s
  | S754_nan => True
  end.
Proof.
  unfold binary_round_aux.
  destruct (shr_fexp prec emax mx ex l) as [r' e'].
  destruct (shr_fexp prec emax _ e' loc_Exact) as [r'' e''].
  destruct (shr_m r''); try reflexivity.
  destruct (e'' <=? emax - prec); reflexivity.
Qed.

Lemma binary_round_aux_nonneg (prec emax : Z) (mx ex : Z) (l : location) :
  nonneg (binary_round_aux prec emax false mx ex l).
Proof.
  pose proof (binary_round_aux_sign prec emax false mx ex l) as H.
  destruct (binary_round_aux prec emax false mx ex l); exact H.
Qed.

Lemma SFmul_nonneg (prec emax : Z) (x y : spec_float) :
  nonneg x -> nonneg y -> nonneg (SFmul prec emax x y).
Proof.
  destruct x as [sx | sx | | sx mx ex]; destruct y as [sy | sy | | sy my ey];
    cbn [nonneg SFmul]; intros Hx Hy; try subst sx; try subst sy;
    try reflexivity; try exact I.
  apply binary_round_aux_nonneg.
Qed.

Lemma SFmul_square_nonneg (prec emax : Z) (x : spec_float) :
  nonneg (SFmul prec emax x x).
Proof.
  destruct x as [s | s | | s m e]; cbn [nonneg SFmul];
    rewrite ?xorb_nilpotent; try reflexivity; try exact I.
  apply binary_round_aux_nonneg.
Qed.

Lemma SFmul_comm (prec emax : Z) (x y : spec_float) :
  SFmul prec emax x y = SFmul prec emax y x.
Proof.
  destruct x as [sx | sx | | sx mx ex]; destruct y as [sy | sy | | sy my ey];
    cbn [SFmul]; rewrite ?(xorb_comm sx sy); try reflexivity.
  rewrite (Pos.mul_comm mx my), (Z.add_comm ex ey). reflexivity.
Qed.

(** *** A difference is never the negative zero *)

Lemma shr_fexp_pos (x e : Z) (l : location) :
  0 < x -> -149 <= e ->
  0 < shr_m (fst (shr_fexp 24 128 x e l))
  /\ -149 <= snd (shr_fexp 24 128 x e l).
Proof.
  intros Hx He. unfold shr_fexp. rewrite fexp32.
  assert (Hm : shr_m (shr_record_of_loc x l) = x)
    by (destruct l as [|[]]; reflexivity).
  set (n := fx (Zdigits2 x + e) - e).
  pose proof (digits_pos x Hx) as D. pose proof (Z.log2_nonneg x) as L.
  destruct (Z.le_gt_cases n 0) as [Hn | Hn].
  - unfold shr. destruct n as [|p|p] eqn:E; try lia;
      cbn [fst snd]; rewrite Hm; lia.
  - destruct (shr_spec (shr_record_of_loc x l) e n) as [E1 E2];
      [lia | lia |].
    rewrite E1, E2, Hm. split; [| lia].
    destruct (Z.eq_dec (x / 2 ^ n) 0) as [Z0 | N].
    + pose proof (digits_div_zero x n Hx ltac:(lia) Z0).
      unfold n, fx in *. lia.
    + pose proof (Z.div_pos x (2 ^ n) ltac:(lia) ltac:(lia)). lia.
Qed.

Lemma binary_round_aux_nonzero (s s' : bool) (mx ex : Z) (l : location) :
  0 < mx -> -149 <= ex ->
  binary_round_aux 24 128 s mx ex l <> S754_zero s'.
Proof.
  intros Hm He. unfold binary_round_aux.
  pose proof (shr_fexp_pos mx ex l Hm He) as H1.
  destruct (shr_fexp 24 128 mx ex l) as [r' e'].
  cbn [fst snd] in H1. destruct H1 as [Hx' He'].
  pose proof (round_nearest_even_range (shr_m r') (loc_of_shr_record r'))
    as Hr.
  set (m1 := round_nearest_even (shr_m r') (loc_of_shr_record r')) in *.
  pose proof (shr_fexp_pos m1 e' loc_Exact ltac:(lia) He') as H2.
  destruct (shr_fexp 24 128 m1 e' loc_Exact) as [r'' e''].
  cbn [fst snd] in H2. destruct H2 as [Hx'' _].
  destruct (shr_m r''); try lia.
  destruct (e'' <=? 128 - 24); discriminate.
Qed.

Lemma binary_normalize_not_negzero (m e : Z) :
  -149 <= e -> binary_normalize 24 128 m e false <> S754_zero true.
Proof.
  intros He. destruct m as [|p|p]; cbn [binary_normalize];
    [discriminate | |].
  - unfold binary_round.
    destruct (shl_align p e (fexp 24 128 (Zpos (digits2_pos p) + e)))
      as [mz ez].
    pose proof (binary_round_aux_sign 24 128 false (Zpos mz) ez loc_Exact)
      as H.
    intros E. rewrite E in H. discriminate H.
  - unfold binary_round.
    pose proof (shl_align_proper p e) as H.
    destruct (shl_align p e (fexp 24 128 (Zpos (digits2_pos p) + e)))
      as [mz ez].
    apply binary_round_aux_nonzero; [lia | apply H; exact He].
Qed.

Lemma SFsub_abs_not_negzero (d c : spec_float) :
  valid d -> valid c ->
  SFsub 24 128 (SFabs d) c <> S754_zero true.
Proof.
  intros Hd Hc.
  destruct d as [sd | sd | | sd md ed]; destruct c as [sc | sc | | sc mc ec];
    cbn [SFabs SFsub]; try discriminate; try (destruct sc; discriminate).
  apply valid_finite in Hd, Hc. destruct Hd as [Cd _], Hc as [Cc _].
  pose proof (canonical_facts md ed Cd). pose proof (canonical_facts mc ec Cc).
  apply binary_normalize_not_negzero. lia.
Qed.

(** *** The blended term is the selected branch *)

Lemma to_f32_valid (x : f64) : valid (to_f32 x).
Proof.
  destruct x as [s | s | | s m e]; try reflexivity.
  apply binary_normalize_valid.
Qed.

Lemma is_finite_cases (x : spec_float) :
  is_finite x = true ->
  (exists s, x = S754_zero s) \/ (exists s m e, x = S754_finite s m e).
Proof.
  destruct x as [s | s | | s m e]; try discriminate; intros _;
    [left | right]; eauto.
Qed.

(** The heart of the matter: with both parts finite,
    [q * sign + lin * (1 - sign)] is [q] when the comparison holds and
    [lin] when it does not. The part that is not selected is multiplied
    by 0 and gives a zero, and adding a zero changes nothing; a part
    that is infinite would give NaN instead. *)
Lemma blend_is_branch (thr h c d : f32) :
  valid d -> valid h -> valid c -> nonneg h ->
  is_finite (fmul (fmul d d) h) = true ->
  is_finite (fsub (fabs d) c) = true ->
  let sign := if flt (fabs d) thr then f_one else f_zero in
  fadd (fmul (fmul (fmul d d) h) sign)
       (fmul (fsub (fabs d) c) (fsub f_one sign))
  = if flt (fabs d) thr then fmul h (fmul d d) else fsub (fabs d) c.
Proof.
  intros Vd Vh Vc Nh Fq Fl sign. unfold sign. clear sign.
  assert (Vq : valid (fmul (fmul d d) h))
    by (apply SFmul_valid; [apply SFmul_valid |]; assumption).
  assert (Vl : valid (fsub (fabs d) c))
    by (apply SFsub_valid; [apply SFabs_valid |]; assumption).
  assert (Nq : nonneg (fmul (fmul d d) h))
    by (apply SFmul_nonneg; [apply SFmul_square_nonneg | exact Nh]).
  pose proof (SFsub_abs_not_negzero d c Vd Vc) as Zl.
  replace (fmul h (fmul d d)) with (fmul (fmul d d) h)
    by apply SFmul_comm.
  set (q := fmul (fmul d d) h) in *. set (lin := fsub (fabs d) c) in *.
  fold fsub in Zl. fold fabs in Zl. fold lin in Zl.
  destruct (flt (fabs d) thr).
  - change (fsub f_one f_one) with (S754_zero false).
    change (fmul q f_one) with (SFmul 24 128 q f_one).
    rewrite (SFmul_one q Vq).
    destruct (is_finite_cases lin Fl) as [[sl ->] | [sl [ml [el ->]]]];
      destruct (is_finite_cases q Fq) as [[sq E] | [sq [mq [eq E]]]];
      rewrite E in *; cbn [nonneg] in Nq; try subst sq;
      try (destruct sl; reflexivity).
  - change (fsub f_one f_zero) with f_one.
    change (fmul lin f_one) with (SFmul 24 128 lin f_one).
    rewrite (SFmul_one lin Vl).
    destruct (is_finite_cases lin Fl) as [[sl E] | [sl [ml [el E]]]];
      destruct (is_finite_cases q Fq) as [[sq ->] | [sq [mq [eq ->]]]];
      rewrite E in *; try (destruct sl; [contradiction Zl; reflexivity |]);
      try (destruct sq; reflexivity).
Qed.

Lemma SFdiv_nonneg (prec emax : Z) (x : spec_float) (m : positive) (e : Z) :
  nonneg x -> nonneg (SFdiv prec emax x (S754_finite false m e)).
Proof.
  destruct x as [s | s | | s mx ex]; cbn [nonneg SFdiv]; intros H;
    try subst s; try reflexivity; try exact I.
  destruct (SFdiv_core_binary prec emax (Z.pos mx) ex (Z.pos m) e)
    as [[mz ez] lz].
  apply binary_round_aux_nonneg.
Qed.

Lemma to_f32_nonneg (x : f64) : nonneg x -> nonneg (to_f32 x).
Proof.
  destruct x as [s | s | | s m e]; cbn [nonneg to_f32]; intros H;
    try subst s; try reflexivity; try exact I.
  cbn [cond_Zopp binary_normalize]. unfold binary_round.
  destruct (shl_align m e (fexp 24 128 (Z.pos (digits2_pos m) + e)))
    as [mz ez].
  apply binary_round_aux_nonneg.
Qed.

(** One element: the term of the code is the reference term. *)
Lemma in_loss_box32_piecewise (sigma_2 : f64) (d : f32) :
  nonneg sigma_2 -> valid d -> parts_finite sigma_2 d = true ->
  in_loss_box32 sigma_2 d = smooth_l1_term32 sigma_2 d.
Proof.
  intros Hn Vd Hp. apply andb_true_iff in Hp. destruct Hp as [Fq Fl].
  unfold in_loss_box32, smooth_l1_term32, smoothL1_sign32.
  unfold quadratic_part32 in *. unfold linear_part32 in *.
  apply blend_is_branch; try assumption; try apply to_f32_valid.
  apply to_f32_nonneg. apply SFdiv_nonneg. exact Hn.
Qed.

(** *** The loss *)

Lemma few2_same_length (f : f32 -> f32 -> f32) (a b : ftensor2) :
  length a = length b ->
  few2 f a b = Ok (Tensor.zip_with (frow_map2 f) a b).
Proof. intros H. unfold few2. rewrite H, Nat.eqb_refl. reflexivity. Qed.

Lemma out_loss_rows32 (sigma_2 : f64) (Hn : nonneg sigma_2)
  (pred : ftensor2) :
  forall target inside outside : ftensor2,
    length target = length pred ->
    length inside = length pred ->
    length outside = length pred ->
    Forall valid_row pred -> Forall valid_row target ->
    Forall valid_row inside ->
    Forall (parts_finite_row sigma_2) (in_box_diff32 pred target inside) ->
    map (fun r => fadd (fst r) (snd r))
      (Tensor.zip_with (frow_map2 fmul) outside
         (map (frow_map (in_loss_box32 sigma_2))
            (in_box_diff32 pred target inside)))
    = map (anchor_loss32 sigma_2 pred target inside outside)
        (seq 0 (length pred)).
Proof.
  induction pred as [|p pred IH];
    intros target inside outside Ht Hi Ho Vp Vt Vi Hf.
  - destruct outside; [reflexivity | discriminate].
  - destruct target as [|t target]; [discriminate |].
    destruct inside as [|i inside]; [discriminate |].
    destruct outside as [|o outside]; [discriminate |].
    cbn [length] in Ht, Hi, Ho.
    injection Ht as Ht. injection Hi as Hi. injection Ho as Ho.
    inversion Vp as [|? ? [Vp1 Vp2] Vp']; subst.
    inversion Vt as [|? ? [Vt1 Vt2] Vt']; subst.
    inversion Vi as [|? ? [Vi1 Vi2] Vi']; subst.
    unfold in_box_diff32 in Hf |- *. cbn [Tensor.zip_with] in Hf |- *.
    inversion Hf as [|? ? [Hf1 Hf2] Hf']; subst.
    cbn [length seq map Tensor.zip_with].
    f_equal.
    + unfold anchor_loss32, channel_loss32.
      cbn [nth frow_map frow_map2 fst snd] in *.
      rewrite !in_loss_box32_piecewise; try assumption; try reflexivity;
        apply SFmul_valid; try assumption; apply SFsub_valid; assumption.
    + rewrite <- seq_shift, map_map.
      fold (in_box_diff32 pred target inside).
      rewrite (IH target inside outside Ht Hi Ho Vp' Vt' Vi' Hf').
      apply map_ext. intros k. reflexivity.
Qed.

(** With both parts of every element finite, the loss of the code is
    the reference loss. *)
Lemma smooth_l1_loss32_reference
  (pred target inside outside : ftensor2) (sigma : f64) :
  length target = length pred ->
  length inside = length pred ->
  length outside = length pred ->
  Forall valid_row pred -> Forall valid_row target ->
  Forall valid_row inside ->
  is_finite (dmul sigma sigma) = true ->
  is_zero (dmul sigma sigma) = false ->
  Forall (parts_finite_row (dmul sigma sigma))
    (in_box_diff32 pred target inside) ->
  smooth_l1_loss32 pred target inside outside sigma
  = Ok (regression_loss32 sigma pred target inside outside).
Proof.
  intros Ht Hi Ho Vp Vt Vi Fs Zs Hf.
  assert (L1 : length (Tensor.zip_with (frow_map2 fsub) pred target)
               = length pred)
    by (apply LossProperties.zip_with_length; symmetry; exact Ht).
  assert (L2 : length (in_box_diff32 pred target inside) = length pred).
  { unfold in_box_diff32. rewrite LossProperties.zip_with_length;
      [exact Hi | now rewrite L1]. }
  unfold smooth_l1_loss32, sigma_square.
  rewrite Fs, andb_false_r. cbn [bind negb].
  rewrite (few2_same_length fsub pred target) by (symmetry; exact Ht).
  cbn [bind].
  rewrite (few2_same_length fmul inside) by (now rewrite L1).
  cbn [bind]. rewrite Zs. cbn [bind].
  fold (in_box_diff32 pred target inside).
  rewrite (few2_same_length fmul outside)
    by (rewrite length_map; now rewrite L2).
  cbn [bind].
  rewrite (out_loss_rows32 (dmul sigma sigma)
             (SFmul_square_nonneg 53 1024 sigma)
             pred target inside outside Ht Hi Ho Vp Vt Vi Hf).
  unfold regression_loss32. rewrite length_map, length_seq. reflexivity.
Qed.

(** C1, amended: on float32 tensors of one shape and for a [sigma]
    whose square is finite and not 0, as long as the quadratic part
    and the linear part of every element are finite (neither
    overflows), the loss that [smooth_l1_loss] computes with the
    default [dim = [1]] is the reference regression loss in the same
    arithmetic: smooth-L1 term of [d = inside_weight (pred - target)],
    times [outside_weight], summed over the two channels, averaged
    over the anchors. *)
Theorem smooth_l1_loss32_is_reference
  (pred target inside outside : ftensor2) (sigma : f64) :
  length target = length pred ->
  length inside = length pred ->
  length outside = length pred ->
  Forall valid_row pred -> Forall valid_row target ->
  Forall valid_row inside ->
  is_finite (dmul sigma sigma) = true ->
  is_zero (dmul sigma sigma) = false ->
  Forall (parts_finite_row (dmul sigma sigma))
    (in_box_diff32 pred target inside) ->
  smooth_l1_loss32 pred target inside outside sigma
  = Ok (regression_loss32 sigma pred target inside outside).
Proof. exact (smooth_l1_loss32_reference pred target inside outside sigma). Qed.

Lemma smooth_l1_loss32_is_reference_witness :
  smooth_l1_loss32 [(pow2 0, pow2 1)] zero_target unit_weights
    unit_weights sigma_one
  = Ok (regression_loss32 sigma_one [(pow2 0, pow2 1)] zero_target
          unit_weights unit_weights).
Proof.
  apply (smooth_l1_loss32_is_reference [(pow2 0, pow2 1)] zero_target
           unit_weights unit_weights sigma_one);
    try reflexivity;
    apply Forall_cons; try apply Forall_nil; split; reflexivity.
Defined.

Example smooth_l1_loss32_sample :
  smooth_l1_loss32 [(pow2 0, pow2 1)] zero_target unit_weights
    unit_weights sigma_one
  = Ok (pow2 1).
Proof. vm_compute. reflexivity. Qed.

(** When a part overflows the equality fails. With [sigma = 1.0], all
    weights 1, target 0 and the prediction [2^70] on one channel, the
    residual is in the linear branch and the reference loss is
    [2^70 - 0.5], rounded to [2^70]; the code also evaluates the
    quadratic part, whose square overflows to [inf], and multiplies it
    by the 0 of [smoothL1_sign]: [inf * 0] is NaN, and so is the loss. *)
Lemma smooth_l1_loss_overflow_is_nan :
  smooth_l1_loss32 far_pred zero_target unit_weights unit_weights sigma_one
  = Ok f_nan
  /\ regression_loss32 sigma_one far_pred zero_target unit_weights
       unit_weights
     = pow2 70
  /\ smooth_l1_loss32 far_pred zero_target unit_weights unit_weights
       sigma_one
     <> Ok (regression_loss32 sigma_one far_pred zero_target unit_weights
              unit_weights).
Proof.
  assert (E1 : smooth_l1_loss32 far_pred zero_target unit_weights
                 unit_weights sigma_one
               = Ok f_nan) by (vm_compute; reflexivity).
  assert (E2 : regression_loss32 sigma_one far_pred zero_target
                 unit_weights unit_weights
               = pow2 70) by (vm_compute; reflexivity).
  split; [exact E1 | split; [exact E2 |]].
  rewrite E1, E2. discriminate.
Qed.

(** X24: on float32, under the same conditions, [rpn_loss] returns
    [rpn_cross_entropy + loss_box_weight * rpn_loss_box] with the
    reference regression loss for [rpn_loss_box]. *)
Theorem rpn_loss32_total
  (ce : f32) (pred target inside outside : ftensor2)
  (sigma loss_box_weight : f64) :
  length target = length pred ->
  length inside = length pred ->
  length outside = length pred ->
  Forall valid_row pred -> Forall valid_row target ->
  Forall valid_row inside ->
  is_finite (dmul sigma sigma) = true ->
  is_zero (dmul sigma sigma) = false ->
  Forall (parts_finite_row (dmul sigma sigma))
    (in_box_diff32 pred target inside) ->
  rpn_loss32 ce pred target inside outside sigma loss_box_weight
  = Ok (fadd ce
          (fmul (to_f32 loss_box_weight)
             (regression_loss32 sigma pred target inside outside))).
Proof.
  intros Ht Hi Ho Vp Vt Vi Fs Zs Hf. unfold rpn_loss32.
  rewrite (smooth_l1_loss32_reference pred target inside outside sigma
             Ht Hi Ho Vp Vt Vi Fs Zs Hf).
  reflexivity.
Qed.

Lemma rpn_loss32_total_witness :
  rpn_loss32 ln_2 [(pow2 0, pow2 1)] zero_target unit_weights unit_weights
    sigma_one sigma_one
  = Ok (fadd ln_2
          (fmul (to_f32 sigma_one)
             (regression_loss32 sigma_one [(pow2 0, pow2 1)] zero_target
                unit_weights unit_weights))).
Proof.
  apply (rpn_loss32_total ln_2 [(pow2 0, pow2 1)] zero_target
           unit_weights unit_weights sigma_one sigma_one);
    try reflexivity;
    apply Forall_cons; try apply Forall_nil; split; reflexivity.
Defined.

(** *** Masking by the inside weights *)

Lemma in_loss_box32_zero (sigma_2 : f64) (s : bool) :
  in_loss_box32 sigma_2 (S754_zero s) = in_loss_box32 sigma_2 f_zero.
Proof. destruct s; reflexivity. Qed.

Lemma fmul_zero_finite (w x : f32) :
  is_zero w = true -> is_finite x = true -> is_zero (fmul w x) = true.
Proof.
  destruct w as [sw | | |]; try discriminate.
  destruct x as [sx | | | sx mx ex]; try discriminate; reflexivity.
Qed.

Lemma in_loss_box32_masked (sigma_2 : f64) (w x : f32) :
  is_zero w = true -> is_finite x = true ->
  in_loss_box32 sigma_2 (fmul w x) = in_loss_box32 sigma_2 f_zero.
Proof.
  intros Hw Hx. pose proof (fmul_zero_finite w x Hw Hx) as H.
  destruct (fmul w x) as [s | | |]; try discriminate.
  apply in_loss_box32_zero.
Qed.

Lemma masked_rows (sigma_2 : f64) (pred : ftensor2) :
  forall pred' target target' inside : ftensor2,
    length pred' = length pred ->
    length target = length pred ->
    length target' = length pred ->
    length inside = length pred ->
    (forall k, (k < length pred)%nat ->
       let z := (f_zero, f_zero) in
       (is_zero_row (nth k inside z)
        /\ finite_row (frow_map2 fsub (nth k pred z) (nth k target z))
        /\ finite_row (frow_map2 fsub (nth k pred' z) (nth k target' z)))
       \/ (nth k pred z = nth k pred' z
           /\ nth k target z = nth k target' z)) ->
    map (frow_map (in_loss_box32 sigma_2))
      (Tensor.zip_with (frow_map2 fmul) inside
         (Tensor.zip_with (frow_map2 fsub) pred target))
    = map (frow_map (in_loss_box32 sigma_2))
        (Tensor.zip_with (frow_map2 fmul) inside
           (Tensor.zip_with (frow_map2 fsub) pred' target')).
Proof.
  induction pred as [|p pred IH];
    intros pred' target target' inside Hp Ht Ht' Hi Hmask.
  - destruct inside; [reflexivity | discriminate].
  - destruct pred' as [|p' pred']; [discriminate |].
    destruct target as [|t target]; [discriminate |].
    destruct target' as [|t' target']; [discriminate |].
    destruct inside as [|i inside]; [discriminate |].
    cbn [length] in Hp, Ht, Ht', Hi.
    injection Hp as Hp. injection Ht as Ht. injection Ht' as Ht'.
    injection Hi as Hi.
    cbn [Tensor.zip_with map]. f_equal.
    + destruct (Hmask 0%nat ltac:(cbn [length]; lia))
        as [[[Z1 Z2] [[F1 F2] [F1' F2']]] | [E1 E2]].
      * cbn [nth frow_map frow_map2 fst snd] in *.
        unfold frow_map, frow_map2. cbn [fst snd].
        rewrite !in_loss_box32_masked by assumption. reflexivity.
      * cbn [nth] in E1, E2. subst p' t'. reflexivity.
    + apply IH; try assumption.
      intros k Hk. exact (Hmask (S k) ltac:(cbn [length]; lia)).
Qed.

(** X23: on float32, an anchor whose inside weights are zero on both
    channels is masked, as long as [pred - target] is finite there:
    the loss does not depend on the prediction and the target at that
    anchor. *)
Theorem smooth_l1_loss32_inside_mask
  (pred pred' target target' inside outside : ftensor2) (sigma : f64) :
  length pred' = length pred ->
  length target = length pred ->
  length target' = length pred ->
  length inside = length pred ->
  (forall k, (k < length pred)%nat ->
     let z := (f_zero, f_zero) in
     (is_zero_row (nth k inside z)
      /\ finite_row (frow_map2 fsub (nth k pred z) (nth k target z))
      /\ finite_row (frow_map2 fsub (nth k pred' z) (nth k target' z)))
     \/ (nth k pred z = nth k pred' z
         /\ nth k target z = nth k target' z)) ->
  smooth_l1_loss32 pred target inside outside sigma
  = smooth_l1_loss32 pred' target' inside outside sigma.
Proof.
  intros Hp Ht Ht' Hi Hmask.
  unfold smooth_l1_loss32.
  destruct (sigma_square sigma) as [sigma_2 | e]; [| reflexivity].
  cbn [bind].
  rewrite (few2_same_length fsub pred target) by (symmetry; exact Ht).
  rewrite (few2_same_length fsub pred' target') by congruence.
  cbn [bind].
  rewrite (few2_same_length fmul inside (Tensor.zip_with _ pred target))
    by (rewrite LossProperties.zip_with_length; congruence).
  rewrite (few2_same_length fmul inside (Tensor.zip_with _ pred' target'))
    by (rewrite LossProperties.zip_with_length; congruence).
  cbn [bind].
  rewrite (masked_rows sigma_2 pred pred' target target' inside
             Hp Ht Ht' Hi Hmask).
  reflexivity.
Qed.

Lemma smooth_l1_loss32_inside_mask_witness :
  smooth_l1_loss32 [(pow2 0, pow2 1); (pow2 70, pow2 3)]
    [(f_zero, f_zero); (pow2 2, pow2 2)]
    [(f_one, f_one); (f_zero, f_zero)]
    [(f_one, f_one); (f_one, f_one)] sigma_one
  = smooth_l1_loss32 [(pow2 0, pow2 1); (pow2 5, pow2 6)]
      [(f_zero, f_zero); (pow2 1, pow2 0)]
      [(f_one, f_one); (f_zero, f_zero)]
      [(f_one, f_one); (f_one, f_one)] sigma_one.
Proof.
  apply (smooth_l1_loss32_inside_mask
           [(pow2 0, pow2 1); (pow2 70, pow2 3)]
           [(pow2 0, pow2 1); (pow2 5, pow2 6)]
           [(f_zero, f_zero); (pow2 2, pow2 2)]
           [(f_zero, f_zero); (pow2 1, pow2 0)]
           [(f_one, f_one); (f_zero, f_zero)]
           [(f_one, f_one); (f_one, f_one)] sigma_one);
    try reflexivity.
  intros [|[|k]] Hk.
  - right. split; reflexivity.
  - left. repeat split; reflexivity.
  - cbn [length] in Hk. lia.
Defined.

End Float32Properties.

(** ** Properties of the classification loss and of the total *)

Module RpnLossProperties.

Import Tensor RegionProposalNetwork1d.
Local Open Scope R_scope.

(** Selecting by the indices of a mask keeps the masked entries. *)
Lemma index_select_nonzero {A : Type} (mask : list bool) :
  forall (pre t : list A),
    (length mask <= length t)%nat ->
    index_select (pre ++ t) (nonzero_from (length pre) mask)
    = Ok (map fst (filter snd (combine t mask))).
Proof.
  induction mask as [|b mask IH]; intros pre t Hlen.
  - destruct t; reflexivity.
  - destruct t as [|x t]; [simpl in Hlen; lia |].
    simpl in Hlen.
    assert (Hstep : index_select (pre ++ x :: t)
                      (nonzero_from (S (length pre)) mask)
                    = Ok (map fst (filter snd (combine t mask)))).
    { replace (pre ++ x :: t) with ((pre ++ [x]) ++ t)
        by (rewrite <- app_assoc; reflexivity).
      replace (S (length pre)) with (length (pre ++ [x]))
        by (rewrite length_app; simpl; lia).
      apply IH. lia. }
    destruct b; cbn [nonzero_from combine filter snd map fst].
    + cbn [index_select].
      rewrite nth_error_app2 by lia.
      rewrite Nat.sub_diag. cbn [nth_error].
      rewrite Hstep. reflexivity.
    + exact Hstep.
Qed.

Lemma select_probs (probs : list R) :
  forall labels : list Z,
    map fst (filter snd (combine probs (map not_ignore labels)))
    = map fst (Reference.labelled probs labels).
Proof.
  unfold Reference.labelled.
  induction probs as [|p probs IH]; intros [|l labels]; try reflexivity.
  cbn [map combine filter snd].
  destruct (not_ignore l); cbn [map fst]; rewrite IH; reflexivity.
Qed.

Lemma select_labels (probs : list R) :
  forall labels : list Z,
    length probs = length labels ->
    map fst (filter snd (combine labels (map not_ignore labels)))
    = map snd (Reference.labelled probs labels).
Proof.
  unfold Reference.labelled.
  induction probs as [|p probs IH]; intros [|l labels] H;
    try reflexivity; try discriminate.
  cbn [map combine filter snd].
  injection H as H.
  destruct (not_ignore l); cbn [map fst snd]; rewrite (IH labels H);
    reflexivity.
Qed.

Lemma rpn_cross_entropy_reference (probs : list R) (labels : list Z) :
  length probs = length labels ->
  rpn_cross_entropy probs labels = Reference.classification_loss probs labels.
Proof.
  intros H. unfold rpn_cross_entropy, Reference.classification_loss, nonzero.
  pose proof (index_select_nonzero (map not_ignore labels) [] probs) as Sp.
  pose proof (index_select_nonzero (map not_ignore labels) [] labels) as Sl.
  rewrite length_map in Sp, Sl. cbn [app length] in Sp, Sl.
  rewrite Sp, Sl by lia.
  cbn [bind].
  rewrite select_probs, (select_labels probs labels H), map_map.
  reflexivity.
Qed.

Lemma combine_app_same {A B : Type} (a1 : list A) :
  forall (b1 : list B) (a2 : list A) (b2 : list B),
    length a1 = length b1 ->
    combine (a1 ++ a2) (b1 ++ b2) = combine a1 b1 ++ combine a2 b2.
Proof.
  induction a1 as [|x a1 IH]; intros [|y b1] a2 b2 H;
    try reflexivity; try discriminate.
  injection H as H. simpl. f_equal. apply IH. exact H.
Qed.

Lemma labelled_drop_ignore (p1 p2 : list R) (l1 l2 : list Z) (x : R) :
  length p1 = length l1 ->
  Reference.labelled (p1 ++ x :: p2) (l1 ++ (-1)%Z :: l2)
  = Reference.labelled (p1 ++ p2) (l1 ++ l2).
Proof.
  intros H. unfold Reference.labelled.
  rewrite !combine_app_same by exact H.
  rewrite !filter_app. reflexivity.
Qed.

(** C2: on per-anchor probabilities and labels, the classification
    component of [rpn_loss] is the binary cross-entropy over exactly the
    anchors whose label is not -1; an anchor labelled -1 can be removed,
    with its probability, without changing the component. *)
Theorem classification_loss_skips_ignore (probs : list R) (labels : list Z) :
  length probs = length labels ->
  rpn_cross_entropy probs labels = Reference.classification_loss probs labels
  /\ forall (p1 p2 : list R) (l1 l2 : list Z) (x : R),
       probs = p1 ++ x :: p2 ->
       labels = l1 ++ (-1)%Z :: l2 ->
       length p1 = length l1 ->
       rpn_cross_entropy probs labels
       = rpn_cross_entropy (p1 ++ p2) (l1 ++ l2).
Proof.
  intros H. split.
  - apply rpn_cross_entropy_reference. exact H.
  - intros p1 p2 l1 l2 x Ep El H1.
    assert (H2 : length (p1 ++ p2) = length (l1 ++ l2)).
    { subst probs labels. rewrite !length_app in *. simpl in H. lia. }
    rewrite (rpn_cross_entropy_reference probs labels H).
    rewrite (rpn_cross_entropy_reference _ _ H2).
    unfold Reference.classification_loss.
    subst probs labels.
    rewrite (labelled_drop_ignore p1 p2 l1 l2 x H1). reflexivity.
Qed.

Lemma classification_loss_skips_ignore_witness :
  rpn_cross_entropy [0.5; 0.25] [1%Z; (-1)%Z]
  = Reference.classification_loss [0.5; 0.25] [1%Z; (-1)%Z]
  /\ forall (p1 p2 : list R) (l1 l2 : list Z) (x : R),
       [0.5; 0.25] = p1 ++ x :: p2 ->
       [1%Z; (-1)%Z] = l1 ++ (-1)%Z :: l2 ->
       length p1 = length l1 ->
       rpn_cross_entropy [0.5; 0.25] [1%Z; (-1)%Z]
       = rpn_cross_entropy (p1 ++ p2) (l1 ++ l2).
Proof.
  apply (classification_loss_skips_ignore [0.5; 0.25] [1%Z; (-1)%Z]).
  reflexivity.
Defined.

(** *** No labelled anchor *)

Lemma nonzero_from_all_ignore (labels : list Z) :
  Forall (fun l => l = (-1)%Z) labels ->
  forall i, nonzero_from i (map not_ignore labels) = [].
Proof.
  induction 1 as [|l labels Hl _ IH]; intros i; [reflexivity |].
  subst l. cbn [map nonzero_from]. unfold not_ignore at 1.
  cbn [Z.eqb Pos.eqb negb]. apply IH.
Qed.

Lemma rpn_cross_entropy_all_ignore (probs : list R) (labels : list Z) :
  Forall (fun l => l = (-1)%Z) labels ->
  rpn_cross_entropy probs labels = Ok NaN.
Proof.
  intros H. unfold rpn_cross_entropy, nonzero.
  rewrite (nonzero_from_all_ignore labels H). reflexivity.
Qed.

Lemma tf_add_NaN_l (b : tfloat) : tf_add NaN b = NaN.
Proof. reflexivity. Qed.

(** C3, as the code has it: when every label is -1 the selection is
    empty, the mean-reduced cross-entropy over it is NaN, and [rpn_loss]
    has no guard: it never returns a finite loss then. *)
Theorem all_ignore_loss_is_nan
  (probs : list R) (labels : list Z)
  (pred target inside outside : list R)
  (sigma : R) (dim : list Z) (loss_box_weight : R) :
  Forall (fun l => l = (-1)%Z) labels ->
  rpn_cross_entropy probs labels = Ok NaN
  /\ forall v : R,
       rpn_loss probs labels pred target inside outside sigma dim
         loss_box_weight <> Ok (Fin v).
Proof.
  intros H. pose proof (rpn_cross_entropy_all_ignore probs labels H) as E.
  split; [exact E |].
  intros v. unfold rpn_loss. rewrite E. cbn [bind].
  destruct (view_2 pred); [| discriminate].
  destruct (view_2 target); [| discriminate].
  destruct (view_2 inside); [| discriminate].
  destruct (view_2 outside); [| discriminate].
  cbn [bind].
  destruct (smooth_l1_loss _ _ _ _ sigma dim); [| discriminate].
  cbn [bind]. rewrite tf_add_NaN_l. discriminate.
Qed.

Lemma all_ignore_loss_is_nan_witness :
  rpn_cross_entropy [0.5] [(-1)%Z] = Ok NaN
  /\ forall v : R,
       rpn_loss [0.5] [(-1)%Z] [0; 0] [0; 0] [0; 0] [0; 0] 1 [1%Z] 1
       <> Ok (Fin v).
Proof.
  apply (all_ignore_loss_is_nan [0.5] [(-1)%Z] [0; 0] [0; 0] [0; 0] [0; 0]
           1 [1%Z] 1).
  repeat constructor.
Defined.

(** One anchor, labelled Ignore: the classification loss is not a
    finite fallback value. *)
Lemma all_ignore_not_guarded :
  ~ exists v : R, rpn_cross_entropy [0.5] [(-1)%Z] = Ok (Fin v).
Proof.
  intros [v H]. cbv [rpn_cross_entropy nonzero nonzero_from map not_ignore
    Z.eqb negb index_select bind binary_cross_entropy length Nat.eqb
    forallb mean_list zip_with] in H.
  discriminate H.
Qed.

(** *** Valid inputs *)

Lemma clamped_log_nonpos (x : R) : x <= 1 -> clamped_log x <= 0.
Proof.
  intros Hx. unfold clamped_log.
  destruct (Rle_dec x 0) as [_ | Hpos]; [lra |].
  apply Rmax_lub; [| lra].
  destruct (Rle_lt_or_eq_dec x 1 Hx) as [Hlt | Heq].
  - rewrite <- ln_1. left. apply ln_increasing; lra.
  - subst x. rewrite ln_1. lra.
Qed.

Lemma bce_term_nonneg (x : R) (l : Z) :
  0 <= x <= 1 -> l = 0%Z \/ l = 1%Z -> 0 <= bce_term x (IZR l).
Proof.
  intros Hx Hl. unfold bce_term.
  pose proof (clamped_log_nonpos x (proj2 Hx)) as H1.
  assert (H2 : clamped_log (1 - x) <= 0) by (apply clamped_log_nonpos; lra).
  destruct Hl; subst l; lra.
Qed.

Lemma Rsum_nonneg (l : list R) : Forall (fun x => 0 <= x) l -> 0 <= Rsum l.
Proof.
  induction 1 as [|x l Hx _ IH]; simpl; lra.
Qed.

Lemma mean_list_nonneg (l : list R) :
  l <> [] -> Forall (fun x => 0 <= x) l ->
  exists v, mean_list l = Fin v /\ 0 <= v.
Proof.
  intros Hne Hall. destruct l as [|x l]; [contradiction |].
  eexists. split; [reflexivity |].
  apply Rle_mult_inv_pos; [now apply Rsum_nonneg |].
  apply lt_0_INR. simpl. lia.
Qed.

Lemma smooth_l1_term_nonneg (sigma d : R) :
  0 < sigma -> 0 <= Reference.smooth_l1_term sigma d.
Proof.
  intros Hs. pose proof (LossProperties.sigma_2_pos sigma Hs) as H2.
  unfold Reference.smooth_l1_term.
  destruct (Rlt_dec (Rabs d) (1 / sigma ^ 2)) as [_ | Hge].
  - rewrite LossProperties.Rhalf.
    assert (0 <= d ^ 2) by (apply pow2_ge_0). nra.
  - apply Rnot_lt_le in Hge.
    assert (E : 0.5 / sigma ^ 2 = (1 / sigma ^ 2) / 2)
      by (rewrite LossProperties.Rhalf; field; lra).
    pose proof (LossProperties.inv_sigma_2_pos sigma Hs). lra.
Qed.

Lemma view_2_flat (m : tensor2) : view_2 (flat m) = Ok m.
Proof.
  induction m as [|[a b] m IH]; [reflexivity |].
  cbn [flat view_2]. rewrite IH. reflexivity.
Qed.


Lemma zip_with_map {A B C D : Type} (f : B -> C -> D) (g : A -> B)
  (h : A -> C) (l : list A) :
  zip_with f (map g l) (map h l) = map (fun a => f (g a) (h a)) l.
Proof.
  induction l as [|a l IH]; [reflexivity |]. simpl. now rewrite IH.
Qed.

Lemma labelled_nonempty (probs : list R) :
  forall labels : list Z,
    length probs = length labels ->
    Exists (fun l => l <> (-1)%Z) labels ->
    Reference.labelled probs labels <> [].
Proof.
  unfold Reference.labelled.
  induction probs as [|p probs IH]; intros [|l labels] Hlen Hex;
    try discriminate; try (inversion Hex; fail).
  injection Hlen as Hlen. cbn [combine filter snd].
  destruct (not_ignore l) eqn:E; [discriminate |].
  apply IH; [exact Hlen |].
  inversion Hex as [? ? Hl | ? ? Hrest]; subst; [| exact Hrest].
  unfold not_ignore in E. apply negb_false_iff, Z.eqb_eq in E.
  contradiction.
Qed.

Lemma labelled_valid (probs : list R) (labels : list Z) :
  Forall Reference.unit_interval probs ->
  Forall Reference.valid_label labels ->
  Forall (fun pl => Reference.unit_interval (fst pl)
                    /\ (snd pl = 0%Z \/ snd pl = 1%Z))
    (Reference.labelled probs labels).
Proof.
  intros Hp Hl. apply Forall_forall. intros [p l] Hin.
  unfold Reference.labelled in Hin. apply filter_In in Hin.
  destruct Hin as [Hin Hsel]. cbn [fst snd] in *.
  split.
  - apply in_combine_l in Hin.
    exact (proj1 (Forall_forall _ _) Hp p Hin).
  - apply in_combine_r in Hin.
    destruct (proj1 (Forall_forall _ _) Hl l Hin) as [H0 | [H1 | Hm]];
      [left; exact H0 | right; exact H1 |].
    subst l. discriminate Hsel.
Qed.

Lemma Rleb_true (x y : R) : x <= y -> Rleb x y = true.
Proof.
  intros H. unfold Rleb. destruct (Rle_dec x y); [reflexivity | contradiction].
Qed.

Lemma classification_loss_finite (probs : list R) (labels : list Z) :
  length probs = length labels ->
  Forall Reference.unit_interval probs ->
  Forall Reference.valid_label labels ->
  Exists (fun l => l <> (-1)%Z) labels ->
  exists cls, Reference.classification_loss probs labels = Ok (Fin cls)
              /\ 0 <= cls.
Proof.
  intros Hlen Hp Hl Hex.
  pose proof (labelled_nonempty probs labels Hlen Hex) as Hne.
  pose proof (labelled_valid probs labels Hp Hl) as Hv.
  unfold Reference.classification_loss.
  set (sel := Reference.labelled probs labels) in *.
  unfold binary_cross_entropy.
  rewrite !length_map, Nat.eqb_refl. cbn [negb].
  assert (Hrange : forallb (fun x => Rleb 0 x && Rleb x 1) (map fst sel)
                   = true).
  { apply forallb_forall. intros x Hx. apply in_map_iff in Hx.
    destruct Hx as [pl [<- Hin]].
    destruct (proj1 (Forall_forall _ _) Hv pl Hin) as [[H0 H1] _].
    now rewrite (Rleb_true _ _ H0), (Rleb_true _ _ H1). }
  rewrite Hrange. cbn [negb].
  rewrite zip_with_map.
  destruct (mean_list_nonneg
              (map (fun a => bce_term (fst a) (IZR (snd a))) sel))
    as [v [Ev Hv0]].
  - destruct sel; [contradiction | discriminate].
  - apply Forall_forall. intros y Hy. apply in_map_iff in Hy.
    destruct Hy as [pl [<- Hin]].
    destruct (proj1 (Forall_forall _ _) Hv pl Hin) as [Hu Hb].
    apply bce_term_nonneg; assumption.
  - exists v. rewrite Ev. split; [reflexivity | exact Hv0].
Qed.

Lemma nth_nonneg_row (outside : tensor2) :
  Forall Reference.nonneg_row outside ->
  forall k, Reference.nonneg_row (nth k outside (0, 0)).
Proof.
  intros H k. destruct (nth_in_or_default k outside (0, 0)) as [Hin | ->].
  - exact (proj1 (Forall_forall _ _) H _ Hin).
  - split; simpl; lra.
Qed.

Lemma regression_loss_finite
  (sigma : R) (pred target inside outside : tensor2) :
  0 < sigma -> pred <> [] ->
  Forall Reference.nonneg_row outside ->
  exists reg,
    Reference.regression_loss sigma pred target inside outside = Fin reg
    /\ 0 <= reg.
Proof.
  intros Hs Hne Ho. unfold Reference.regression_loss.
  apply mean_list_nonneg.
  - destruct pred; [contradiction | discriminate].
  - apply Forall_forall. intros y Hy. apply in_map_iff in Hy.
    destruct Hy as [k [<- _]].
    unfold Reference.anchor_loss, Reference.channel_loss.
    destruct (nth_nonneg_row outside Ho k) as [H1 H2].
    apply Rplus_le_le_0_compat; apply Rmult_le_pos;
      try assumption; now apply smooth_l1_term_nonneg.
Qed.

(** C4, amended: on valid inputs of moderate size (one probability in
    [0, 1] and one label in {0, 1, -1} per anchor, some label not -1,
    box tensors with one row per anchor, entries of size at most
    [2^20], at most [2^20] anchors, non-negative outside weights,
    [sigma] between [2^-20] and [2^20], [loss_box_weight] between 0
    and [2^20]) [rpn_loss] returns the finite value
    classification loss + loss_box_weight * regression loss, and that
    value is non-negative. The bounds keep every intermediate value
    inside the float32 range ([LossProperties.moderate_element],
    [LossProperties.moderate_sums]). *)
Theorem rpn_loss_finite_nonneg_moderate
  (probs : list R) (labels : list Z)
  (pred target inside outside : tensor2) (sigma loss_box_weight : R) :
  length probs = length labels ->
  length pred = length labels ->
  length target = length pred ->
  length inside = length pred ->
  length outside = length pred ->
  Forall Reference.unit_interval probs ->
  Forall Reference.valid_label labels ->
  Exists (fun l => l <> (-1)%Z) labels ->
  Forall Reference.nonneg_row outside ->
  Magnitude.moderate_tensor pred ->
  Magnitude.moderate_tensor target ->
  Magnitude.moderate_tensor inside ->
  Magnitude.moderate_tensor outside ->
  Magnitude.moderate_sigma sigma ->
  Magnitude.moderate_weight loss_box_weight ->
  exists cls reg : R,
    Reference.classification_loss probs labels = Ok (Fin cls)
    /\ Reference.regression_loss sigma pred target inside outside = Fin reg
    /\ rpn_loss probs labels (flat pred) (flat target) (flat inside)
         (flat outside) sigma [1%Z] loss_box_weight
       = Ok (Fin (cls + loss_box_weight * reg))
    /\ 0 <= cls + loss_box_weight * reg.
Proof.
  intros Hlen Hn Ht Hi Ho Hp Hl Hex Hw _ _ _ _ Hsig [Hb _].
  pose proof (LossProperties.moderate_sigma_pos sigma Hsig) as Hs.
  destruct (classification_loss_finite probs labels Hlen Hp Hl Hex)
    as [cls [Ec Hc]].
  assert (Hne : pred <> []).
  { intros ->. simpl in Hn. destruct labels; [inversion Hex | discriminate]. }
  destruct (regression_loss_finite sigma pred target inside outside
              Hs Hne Hw) as [reg [Er Hr]].
  exists cls, reg. repeat split; try assumption.
  - unfold rpn_loss.
    rewrite (rpn_cross_entropy_reference probs labels Hlen), Ec.
    cbn [bind]. rewrite !view_2_flat. cbn [bind].
    rewrite (LossProperties.smooth_l1_loss_row_mean
               pred target inside outside sigma Hs Ht Hi Ho).
    rewrite (LossProperties.out_loss_rows sigma Hs pred target inside
               outside Ht Hi Ho).
    cbn [bind]. fold (Reference.regression_loss sigma pred target inside
                        outside).
    rewrite Er. reflexivity.
  - assert (0 <= loss_box_weight * reg) by (apply Rmult_le_pos; assumption).
    lra.
Qed.

Lemma rpn_loss_finite_nonneg_moderate_witness :
  exists cls reg : R,
    Reference.classification_loss [0.5] [1%Z] = Ok (Fin cls)
    /\ Reference.regression_loss 1 [(1, 2)] [(0, 0)] [(1, 1)] [(1, 1)]
       = Fin reg
    /\ rpn_loss [0.5] [1%Z] (flat [(1, 2)]) (flat [(0, 0)]) (flat [(1, 1)])
         (flat [(1, 1)]) 1 [1%Z] 1
       = Ok (Fin (cls + 1 * reg))
    /\ 0 <= cls + 1 * reg.
Proof.
  apply (rpn_loss_finite_nonneg_moderate [0.5] [1%Z]
           [(1, 2)] [(0, 0)] [(1, 1)] [(1, 1)] 1 1);
    try reflexivity;
    try (apply LossProperties.moderate_rows; apply Rabs_le; lra).
  - apply Forall_cons; [| apply Forall_nil].
    unfold Reference.unit_interval. lra.
  - apply Forall_cons; [| apply Forall_nil].
    right. left. reflexivity.
  - apply Exists_cons_hd. discriminate.
  - apply Forall_cons; [| apply Forall_nil].
    split; simpl; lra.
  - unfold Magnitude.moderate_sigma, Magnitude.bound. lra.
  - unfold Magnitude.moderate_weight, Magnitude.bound. lra.
Defined.

(** Without the bounds the total need not be finite on float32. One
    anchor with probability 0.5 and label 1 (cross-entropy [ln 2]),
    weights 1, [sigma = 1.0], [loss_box_weight = 1.0], target 0 and the
    prediction [2^70] on one channel is a valid input, and the
    regression loss is NaN there; a NaN regression loss makes the total
    NaN whatever the classification loss is. *)
Lemma rpn_loss_overflow_is_nan :
  Float32.rpn_loss32 Float32.ln_2 Float32.far_pred Float32.zero_target
    Float32.unit_weights Float32.unit_weights Float32.sigma_one
    Float32.sigma_one
  = Ok Float32.f_nan
  /\ Float32.is_finite Float32.f_nan = false
  /\ (forall ce : Float32.f32,
        Float32.rpn_loss32 ce Float32.far_pred Float32.zero_target
          Float32.unit_weights Float32.unit_weights Float32.sigma_one
          Float32.sigma_one
        = Ok Float32.f_nan).
Proof.
  assert (E : Float32.smooth_l1_loss32 Float32.far_pred
                Float32.zero_target Float32.unit_weights
                Float32.unit_weights Float32.sigma_one
              = Ok Float32.f_nan) by (vm_compute; reflexivity).
  split; [vm_compute; reflexivity | split; [reflexivity |]].
  intros ce. unfold Float32.rpn_loss32. rewrite E. cbn [bind].
  destruct ce; reflexivity.
Qed.

End RpnLossProperties.

(** ** Properties of the orchestrator *)

Module OrchestratorProperties.

Import Tensor RegionProposalNetwork1d.
Local Open Scope string_scope.

Example forward_test_mode :
  forward (Stub.model_in "test") [1; 6; 201]%nat None
  = Ok (@Proposals Stub.collab [1; 1; 3]%nat).
Proof. reflexivity. Qed.

Example init_on_stub :
  @__init__ Stub.collab tt false "" 16 3 6000 0.7%R 300 "cpu" "train"
  = Raise (NameError "out_channels").
Proof. reflexivity. Qed.

Lemma load_name_out_channels :
  load_name "out_channels" = Raise (NameError "out_channels").
Proof. reflexivity. Qed.

Section WithCollaborators.

Context {collab : Collaborators}.

(** C5: in train mode a sequence whose batch dimension is not 1 makes
    [forward] raise the assertion error "batch_size=1 train only",
    whatever the backbone, the heads and the layers would do: none of
    them is consulted and no loss is computed. *)
Theorem forward_train_batch_size
  (self : Self) (sequence : ttensor) (gt_boxes : option gt_boxes_t)
  (b : nat) :
  mode self = "train" ->
  nth_error (size sequence) 0 = Some b ->
  b <> 1%nat ->
  forward self sequence gt_boxes
  = Raise (AssertionError "batch_size=1 train only").
Proof.
  intros Hm Hb Hne. unfold forward, size_0.
  rewrite Hm, Hb. cbn [String.eqb Ascii.eqb Bool.eqb bind].
  apply Nat.eqb_neq in Hne. rewrite Hne. reflexivity.
Qed.

(** C6: under a mode other than 'train' and 'test', [forward] never
    returns a result: once the forward pass is through it raises
    [NotImplementedError], and a forward pass that raises propagates
    its own error. [__init__] stores the mode unchecked, so the error
    comes at call time. *)
Theorem forward_unknown_mode
  (self : Self) (sequence : ttensor) (gt_boxes : option gt_boxes_t) :
  mode self <> "train" ->
  mode self <> "test" ->
  (forall o, forward self sequence gt_boxes <> Ok o)
  /\ match forward_pass self sequence with
     | Ok _ => forward self sequence gt_boxes = Raise NotImplementedError
     | Raise e => forward self sequence gt_boxes = Raise e
     end.
Proof.
  intros Htrain Htest.
  apply String.eqb_neq in Htrain. apply String.eqb_neq in Htest.
  assert (E : forward self sequence gt_boxes
              = bind (forward_pass self sequence)
                  (fun _ => Raise NotImplementedError)).
  { unfold forward. rewrite Htrain, Htest. cbn [bind].
    destruct (forward_pass self sequence) as [[[p q] o] | e];
      reflexivity. }
  rewrite E.
  destruct (forward_pass self sequence) as [r | e]; cbn [bind];
    split; try reflexivity; intros o; discriminate.
Qed.

(** C8: [__init__] never returns an instance. When the attribute
    assignments before the layers go through, loading the name
    [out_channels] raises [NameError]: it is no parameter, no module
    global and no built-in. Otherwise the error of the failing
    assignment is raised. *)
Theorem init_raises_name_error
  (model : nn_module) (load_backbone : bool) (backbone_path : string)
  (rpn_channels rpn_kernel_size pre_nms_topN0 : Z) (nms_threshold0 : R)
  (post_nms_topN0 : Z) (device0 mode0 : string) :
  let construct :=
    __init__ model load_backbone backbone_path rpn_channels
      rpn_kernel_size pre_nms_topN0 nms_threshold0 post_nms_topN0
      device0 mode0 in
  mem "out_channels" (init_locals ++ module_globals ++ builtins) = false
  /\ (forall self, construct <> Ok self)
  /\ match init_attributes model load_backbone backbone_path device0 with
     | Ok _ => construct = Raise (NameError "out_channels")
     | Raise e => construct = Raise e
     end.
Proof.
  intros construct. split; [reflexivity |].
  unfold construct, __init__.
  destruct (init_attributes model load_backbone backbone_path device0)
    as [[[bb an] na] | e]; cbn [bind].
  - change (load_name "nn") with (Ok Global).
    change (load_name "DepthSeparableConv1d") with (Ok Global).
    cbn [bind]. rewrite load_name_out_channels. cbn [bind].
    split; [intros self; discriminate | reflexivity].
  - split; [intros self; discriminate | reflexivity].
Qed.

End WithCollaborators.

(** Not every choice of constructor arguments ends in the
    undefined-name error: with [load_backbone=True] and a checkpoint
    path that cannot be read, [torch.load] raises at line 34, before
    [out_channels] is looked up, and that error leaves [__init__]. *)
Lemma init_missing_backbone_file :
  @__init__ StubMissingFile.collab tt true "missing.pth" 16 3 6000 0.7%R
    300 "cpu" "train"
  = Raise (External "FileNotFoundError")
  /\ @__init__ StubMissingFile.collab tt true "missing.pth" 16 3 6000
       0.7%R 300 "cpu" "train"
     <> Raise (NameError "out_channels").
Proof.
  assert (E : @__init__ StubMissingFile.collab tt true "missing.pth" 16 3
                6000 0.7%R 300 "cpu" "train"
              = Raise (External "FileNotFoundError")) by reflexivity.
  split; [exact E | rewrite E; discriminate].
Qed.

Lemma forward_train_batch_size_witness :
  forward (Stub.model_in "train") [2; 6; 201]%nat None
  = Raise (AssertionError "batch_size=1 train only").
Proof.
  apply (@forward_train_batch_size Stub.collab
           (Stub.model_in "train") [2; 6; 201]%nat None 2%nat);
    [reflexivity | reflexivity | discriminate].
Defined.

Lemma forward_unknown_mode_witness :
  (forall o, forward (Stub.model_in "eval") [1; 6; 201]%nat None <> Ok o)
  /\ match forward_pass (Stub.model_in "eval") [1; 6; 201]%nat with
     | Ok _ =>
         forward (Stub.model_in "eval") [1; 6; 201]%nat None
         = Raise NotImplementedError
     | Raise e =>
         forward (Stub.model_in "eval") [1; 6; 201]%nat None = Raise e
     end.
Proof.
  apply (@forward_unknown_mode Stub.collab
           (Stub.model_in "eval") [1; 6; 201]%nat None);
    discriminate.
Defined.

End OrchestratorProperties.

(** ** Properties of the interval overlap test *)

Module OverlapProperties.

Import EvaluationParserCluster.
Local Open Scope Z_scope.

Example overlaps_nested : overlaps 2 3 1 10 = true.
Proof. reflexivity. Qed.

Example overlaps_touching : overlaps 1 5 5 9 = true.
Proof. reflexivity. Qed.

Example overlaps_disjoint : overlaps 1 4 5 9 = false.
Proof. reflexivity. Qed.

Ltac split_comparisons :=
  repeat match goal with
         | |- context [(?x <=? ?y)] => destruct (Z.leb_spec x y)
         end.

Lemma overlaps_true_iff (a b c d : Z) :
  a <= b -> c <= d ->
  (overlaps a b c d = true <-> Reference.intersect a b c d).
Proof.
  intros Hab Hcd. unfold overlaps, Reference.intersect.
  rewrite !Z.geb_leb. split_comparisons; cbn; split;
    try discriminate; try reflexivity; intros; lia.
Qed.

(** C9: on well-formed closed intervals [overlaps] holds exactly when
    the intervals intersect, and swapping the two intervals does not
    change the answer. *)
Theorem overlaps_iff_intersect
  (pred_min pred_max target_min target_max : Z) :
  pred_min <= pred_max ->
  target_min <= target_max ->
  (overlaps pred_min pred_max target_min target_max = true
   <-> pred_min <= target_max /\ target_min <= pred_max)
  /\ overlaps pred_min pred_max target_min target_max
     = overlaps target_min target_max pred_min pred_max.
Proof.
  intros Hp Ht. split.
  - exact (overlaps_true_iff _ _ _ _ Hp Ht).
  - pose proof (overlaps_true_iff _ _ _ _ Hp Ht) as H1.
    pose proof (overlaps_true_iff _ _ _ _ Ht Hp) as H2.
    unfold Reference.intersect in *.
    destruct (overlaps pred_min pred_max target_min target_max);
      destruct (overlaps target_min target_max pred_min pred_max);
      try reflexivity; exfalso.
    + assert (false = true) by (apply H2; split; apply H1; reflexivity).
      discriminate.
    + assert (false = true) by (apply H1; split; apply H2; reflexivity).
      discriminate.
Qed.

Lemma overlaps_iff_intersect_witness :
  (overlaps 3 7 5 9 = true <-> 3 <= 9 /\ 5 <= 7)
  /\ overlaps 3 7 5 9 = overlaps 5 9 3 7.
Proof. apply (overlaps_iff_intersect 3 7 5 9); lia. Defined.

End OverlapProperties.

(** ** Properties of the chromatogram labels and bounding box *)

Module LabelProperties.

Import OswParser.
Import Tensor.

Example labels_inside_peak :
  get_chromatogram_labels_and_bbox (Some 2.5%Q) (Some 4%Q)
    [1%Q; 2.5%Q; 3%Q; 4%Q; 5%Q]
  = ([0; 1; 1; 1; 0]%Z, Some 1%nat, Some 3%nat).
Proof. reflexivity. Qed.

Example labels_without_bounds :
  get_chromatogram_labels_and_bbox None (Some 4%Q) [1%Q; 3%Q]
  = ([0; 0]%Z, None, None).
Proof. reflexivity. Qed.

Example labels_zero_bound :
  get_chromatogram_labels_and_bbox (Some 0%Q) (Some 4%Q) [1%Q; 3%Q]
  = ([0; 0]%Z, None, None).
Proof. reflexivity. Qed.

Lemma append_loop_is_map {A B : Type} (f : A -> B) (l : list A) :
  forall acc, fold_left (fun acc x => acc ++ [f x]) l acc = acc ++ map f l.
Proof.
  induction l as [|x l IH]; intros acc; simpl.
  - now rewrite app_nil_r.
  - rewrite IH, <- app_assoc. reflexivity.
Qed.

Lemma truthy_Some (v : option Q) :
  truthy v = true <-> exists q, v = Some q /\ ~ (q == 0)%Q.
Proof.
  destruct v as [q|]; simpl.
  - rewrite negb_true_iff, <- not_true_iff_false, Qeq_bool_iff.
    split.
    + intros H. exists q. split; [reflexivity | exact H].
    + intros [q' [E H]]. injection E as ->. exact H.
  - split; [discriminate | intros [q [E _]]; discriminate].
Qed.

Lemma label_of_cases (left_width right_width : option Q) (time : Q) :
  (Reference.in_peak left_width right_width time
   /\ label_of left_width right_width time = 1%Z)
  \/ (~ Reference.in_peak left_width right_width time
      /\ label_of left_width right_width time = 0%Z).
Proof.
  unfold label_of, Reference.in_peak.
  destruct (truthy left_width) eqn:Tl; cbn [andb].
  2:{ right. split; [| reflexivity].
      intros [l [r [El [_ [Hl _]]]]].
      assert (truthy left_width = true)
        by (apply truthy_Some; exists l; auto).
      congruence. }
  destruct (truthy right_width) eqn:Tr.
  2:{ right. split; [| reflexivity].
      intros [l [r [_ [Er [_ [Hr _]]]]]].
      assert (truthy right_width = true)
        by (apply truthy_Some; exists r; auto).
      congruence. }
  apply truthy_Some in Tl. apply truthy_Some in Tr.
  destruct Tl as [l [-> Hl]]. destruct Tr as [r [-> Hr]].
  destruct (Qle_bool l time) eqn:L1; cbn [andb].
  2:{ right. split; [| reflexivity].
      intros [l' [r' [El [Er [_ [_ [H1 _]]]]]]].
      injection El as <-. apply Qle_bool_iff in H1. congruence. }
  destruct (Qle_bool time r) eqn:L2.
  2:{ right. split; [| reflexivity].
      intros [l' [r' [El [Er [_ [_ [_ H2]]]]]]].
      injection Er as <-. apply Qle_bool_iff in H2. congruence. }
  left. split; [| reflexivity].
  exists l, r. apply Qle_bool_iff in L1. apply Qle_bool_iff in L2.
  repeat split; assumption.
Qed.

Lemma nonzero_from_In (mask : list bool) :
  forall k i,
    In i (nonzero_from k mask)
    <-> (k <= i)%nat /\ nth_error mask (i - k) = Some true.
Proof.
  induction mask as [|b mask IH]; intros k i.
  - simpl. split; [contradiction | intros [_ H]].
    destruct (i - k)%nat; discriminate.
  - assert (Hrest : In i (nonzero_from (S k) mask)
                    <-> (k < i)%nat
                        /\ nth_error (b :: mask) (i - k) = Some true).
    { rewrite IH. split; intros [H1 H2]; split; try lia.
      - replace (i - k)%nat with (S (i - S k)) by lia. exact H2.
      - replace (i - k)%nat with (S (i - S k)) in H2 by lia. exact H2. }
    cbn [nonzero_from]. destruct b.
    + cbn [In]. rewrite Hrest. split.
      * intros [<- | [H1 H2]]; [| split; [lia | exact H2]].
        split; [lia |]. now rewrite Nat.sub_diag.
      * intros [H1 H2].
        destruct (Nat.eq_dec k i) as [E | N]; [left; exact E | right].
        split; [lia | exact H2].
    + rewrite Hrest. split; intros [H1 H2].
      * split; [lia | exact H2].
      * split; [| exact H2].
        destruct (Nat.eq_dec k i) as [-> | N]; [| lia].
        rewrite Nat.sub_diag in H2. discriminate H2.
Qed.

Lemma nonzero_from_sorted (mask : list bool) :
  forall k, StronglySorted lt (nonzero_from k mask).
Proof.
  induction mask as [|b mask IH]; intros k; cbn [nonzero_from].
  - constructor.
  - destruct b; [| apply IH].
    constructor; [apply IH |].
    apply Forall_forall. intros i Hi.
    apply nonzero_from_In in Hi. lia.
Qed.

Lemma sorted_head_least (x : nat) (l : list nat) :
  StronglySorted lt (x :: l) -> forall i, In i (x :: l) -> (x <= i)%nat.
Proof.
  intros H i [<- | Hi]; [lia |].
  apply StronglySorted_inv in H. destruct H as [_ H].
  pose proof (proj1 (Forall_forall _ _) H i Hi). lia.
Qed.

Lemma sorted_last_greatest (l : list nat) :
  StronglySorted lt l -> forall i, In i l -> (i <= last l 0)%nat.
Proof.
  induction l as [|x l IH]; intros H i Hi; [contradiction |].
  apply StronglySorted_inv in H. destruct H as [Hs Hall].
  destruct l as [|y l].
  - destruct Hi as [<- | []]. simpl. lia.
  - change (last (x :: y :: l) 0%nat) with (last (y :: l) 0%nat).
    destruct Hi as [<- | Hi]; [| apply IH; assumption].
    pose proof (proj1 (Forall_forall _ _) Hall y (or_introl eq_refl)).
    pose proof (IH Hs y (or_introl eq_refl)). lia.
Qed.

Lemma last_In (l : list nat) : l <> [] -> In (last l 0%nat) l.
Proof.
  induction l as [|x l IH]; intros H; [contradiction |].
  destruct l as [|y l]; [left; reflexivity |].
  right. apply IH. discriminate.
Qed.

Lemma where_eq_1_In (row_labels : list Z) (i : nat) :
  In i (where_eq_1 row_labels) <-> nth_error row_labels i = Some 1%Z.
Proof.
  unfold where_eq_1, nonzero. rewrite nonzero_from_In, Nat.sub_0_r.
  rewrite nth_error_map.
  destruct (nth_error row_labels i) as [l|]; simpl.
  - split.
    + intros [_ H]. injection H as H. apply Z.eqb_eq in H. now subst.
    + intros H. injection H as ->. split; [lia | reflexivity].
  - split; [intros [_ H]; discriminate | discriminate].
Qed.

(** C10: the label vector has one entry per time, 1 exactly at the times
    inside the peak (both bounds truthy and left <= time <= right) and 0
    elsewhere; [bb_start] and [bb_end] are the first and the last index
    labelled 1, and both are [None] when no index is labelled 1. *)
Theorem labels_and_bbox_spec
  (left_width right_width : option Q) (times : list Q) :
  let '(row_labels, bb_start, bb_end) :=
    get_chromatogram_labels_and_bbox left_width right_width times in
  length row_labels = length times
  /\ (forall i time,
        nth_error times i = Some time ->
        (Reference.in_peak left_width right_width time
         /\ nth_error row_labels i = Some 1%Z)
        \/ (~ Reference.in_peak left_width right_width time
            /\ nth_error row_labels i = Some 0%Z))
  /\ match bb_start, bb_end with
     | Some s, Some e =>
         nth_error row_labels s = Some 1%Z
         /\ nth_error row_labels e = Some 1%Z
         /\ forall i, nth_error row_labels i = Some 1%Z ->
                      (s <= i <= e)%nat
     | None, None => forall i, nth_error row_labels i <> Some 1%Z
     | _, _ => False
     end.
Proof.
  unfold get_chromatogram_labels_and_bbox.
  rewrite append_loop_is_map. cbn [app].
  set (row_labels := map (label_of left_width right_width) times).
  pose proof (nonzero_from_sorted (map (fun l => (l =? 1)%Z) row_labels) 0)
    as Hsorted.
  fold (nonzero (map (fun l => (l =? 1)%Z) row_labels)) in Hsorted.
  fold (where_eq_1 row_labels) in Hsorted.
  assert (Hlabels :
            length row_labels = length times
            /\ forall i time,
                nth_error times i = Some time ->
                (Reference.in_peak left_width right_width time
                 /\ nth_error row_labels i = Some 1%Z)
                \/ (~ Reference.in_peak left_width right_width time
                    /\ nth_error row_labels i = Some 0%Z)).
  { split; [apply length_map |].
    intros i time Hi. unfold row_labels.
    rewrite nth_error_map, Hi. cbn [option_map].
    destruct (label_of_cases left_width right_width time) as [[H ->] | [H ->]];
      [left | right]; split; auto. }
  destruct Hlabels as [Hlen Hvals].
  destruct (where_eq_1 row_labels) as [|s idxs] eqn:Eidx;
    cbn [length Nat.ltb Nat.leb].
  - repeat split; try assumption.
    intros i Hi. apply where_eq_1_In in Hi. rewrite Eidx in Hi. exact Hi.
  - cbn [hd_error]. repeat split; try assumption.
    + apply where_eq_1_In. rewrite Eidx. left. reflexivity.
    + apply where_eq_1_In. rewrite Eidx. apply last_In. discriminate.
    + apply where_eq_1_In in H. rewrite Eidx in H.
      exact (sorted_head_least s idxs Hsorted i H).
    + apply where_eq_1_In in H. rewrite Eidx in H.
      exact (sorted_last_greatest (s :: idxs) Hsorted i H).
Qed.

End LabelProperties.

(** ** Further properties of the regression loss *)

Module LossExtras.

Import Tensor RegionProposalNetwork1d.
Local Open Scope R_scope.

Lemma in_loss_box_even (sigma_2 d : R) :
  in_loss_box sigma_2 (- d) = in_loss_box sigma_2 d.
Proof.
  unfold in_loss_box, smoothL1_sign, quadratic_part, linear_part.
  rewrite Rabs_Ropp.
  replace ((- d) ^ 2) with (d ^ 2) by ring. reflexivity.
Qed.

Lemma row_opp_minus (a b : row) :
  row_map2 Rminus b a = row_map Ropp (row_map2 Rminus a b).
Proof.
  destruct a, b. unfold row_map2, row_map. cbn [fst snd]. f_equal; ring.
Qed.

Lemma row_mult_opp (a b : row) :
  row_map2 Rmult a (row_map Ropp b) = row_map Ropp (row_map2 Rmult a b).
Proof.
  destruct a, b. unfold row_map2, row_map. cbn [fst snd]. f_equal; ring.
Qed.

Lemma zip_minus_swap (a : tensor2) :
  forall b, zip_with (row_map2 Rminus) b a
            = tmap Ropp (zip_with (row_map2 Rminus) a b).
Proof.
  induction a as [|x a IH]; intros [|y b]; try reflexivity.
  cbn [zip_with tmap map]. rewrite row_opp_minus. f_equal. apply IH.
Qed.

Lemma zip_mult_opp (a : tensor2) :
  forall b, zip_with (row_map2 Rmult) a (tmap Ropp b)
            = tmap Ropp (zip_with (row_map2 Rmult) a b).
Proof.
  induction a as [|x a IH]; intros [|y b]; try reflexivity.
  cbn [zip_with tmap map]. rewrite row_mult_opp. f_equal. apply IH.
Qed.

(** Swapping the operands of the subtraction negates the difference and
    raises in the same cases. *)
Lemma ew2_minus_swap (a b : tensor2) :
  ew2 Rminus b a = bind (ew2 Rminus a b) (fun d => Ok (tmap Ropp d)).
Proof.
  unfold ew2. rewrite (Nat.eqb_sym (length b) (length a)).
  destruct (Nat.eqb (length a) (length b)) eqn:E; cbn [bind].
  - now rewrite zip_minus_swap.
  - destruct a as [|x [|x' a]]; destruct b as [|y [|y' b]];
      try discriminate E; cbn [bind]; try reflexivity;
      f_equal; unfold tmap; rewrite map_map; apply map_ext;
      intros r; apply row_opp_minus.
Qed.

Lemma ew2_mult_opp (a b : tensor2) :
  ew2 Rmult a (tmap Ropp b)
  = bind (ew2 Rmult a b) (fun m => Ok (tmap Ropp m)).
Proof.
  unfold ew2. unfold tmap at 1. rewrite length_map.
  fold (tmap Ropp b).
  destruct (Nat.eqb (length a) (length b)) eqn:E; cbn [bind].
  - now rewrite zip_mult_opp.
  - destruct a as [|x [|x' a]]; destruct b as [|y [|y' b]];
      try discriminate E; cbn [bind tmap map]; try reflexivity;
      f_equal;
      repeat first
        [ reflexivity
        | apply row_mult_opp
        | rewrite ?map_map; apply map_ext; intros r; apply row_mult_opp
        | apply f_equal2 ].
Qed.

Lemma tmap_in_loss_opp (sigma_2 : R) (m : tensor2) :
  tmap (in_loss_box sigma_2) (tmap Ropp m) = tmap (in_loss_box sigma_2) m.
Proof.
  unfold tmap. rewrite map_map. apply map_ext. intros [a b].
  unfold row_map. cbn [fst snd]. now rewrite !in_loss_box_even.
Qed.

(** X1: the regression loss does not tell prediction from target:
    exchanging [bbox_pred] and [bbox_targets] gives the same result, for
    every shape, [sigma] and [dim], errors included. *)
Theorem smooth_l1_loss_swap
  (pred target inside outside : tensor2) (sigma : R) (dim : list Z) :
  smooth_l1_loss target pred inside outside sigma dim
  = smooth_l1_loss pred target inside outside sigma dim.
Proof.
  unfold smooth_l1_loss.
  rewrite (ew2_minus_swap pred target).
  destruct (ew2 Rminus pred target) as [d | e]; cbn [bind]; [| reflexivity].
  rewrite ew2_mult_opp.
  destruct (ew2 Rmult inside d) as [m | e]; cbn [bind]; [| reflexivity].
  rewrite tmap_in_loss_opp. reflexivity.
Qed.

(** *** Zero loss and masking *)


(** With [dim = [1]], the loss is the mean of the reference per-anchor
    losses. *)
Lemma smooth_l1_loss_anchor_mean
  (pred target inside outside : tensor2) (sigma : R) :
  0 < sigma ->
  length target = length pred ->
  length inside = length pred ->
  length outside = length pred ->
  smooth_l1_loss pred target inside outside sigma [1%Z]
  = Ok (mean_list
          (map (Reference.anchor_loss sigma pred target inside outside)
             (seq 0 (length pred)))).
Proof.
  intros Hs Ht Hi Ho.
  rewrite (LossProperties.smooth_l1_loss_row_mean pred target inside outside
             sigma Hs Ht Hi Ho).
  rewrite (LossProperties.out_loss_rows sigma Hs pred target inside outside
             Ht Hi Ho).
  reflexivity.
Qed.




(** X3: an anchor whose inside weights or whose outside weights are 0
    on both channels is masked: on tensors of moderate size (entries of
    size at most [2^20], at most [2^20] anchors, [sigma] between
    [2^-20] and [2^20]) the loss does not depend on the prediction and
    the target at that anchor. The bounds keep the term of a masked
    anchor finite in float32, so that its product with the weight 0
    is 0. *)
Theorem smooth_l1_loss_masked_moderate
  (pred pred' target target' inside outside : tensor2) (sigma : R) :
  Magnitude.moderate_sigma sigma ->
  Magnitude.moderate_tensor pred ->
  Magnitude.moderate_tensor pred' ->
  Magnitude.moderate_tensor target ->
  Magnitude.moderate_tensor target' ->
  Magnitude.moderate_tensor inside ->
  Magnitude.moderate_tensor outside ->
  length pred' = length pred ->
  length target = length pred ->
  length target' = length pred ->
  length inside = length pred ->
  length outside = length pred ->
  (forall k, (k < length pred)%nat ->
     nth k inside (0, 0) = (0, 0)
     \/ nth k outside (0, 0) = (0, 0)
     \/ (nth k pred (0, 0) = nth k pred' (0, 0)
         /\ nth k target (0, 0) = nth k target' (0, 0))) ->
  smooth_l1_loss pred target inside outside sigma [1%Z]
  = smooth_l1_loss pred' target' inside outside sigma [1%Z].
Proof.
  intros Hsig _ _ _ _ _ _ Hp Ht Ht' Hi Ho Hmask.
  pose proof (LossProperties.moderate_sigma_pos sigma Hsig) as Hs.
  rewrite (smooth_l1_loss_anchor_mean pred target inside outside sigma Hs
             Ht Hi Ho).
  rewrite (smooth_l1_loss_anchor_mean pred' target' inside outside sigma Hs)
    by congruence.
  rewrite Hp. f_equal. f_equal.
  apply map_ext_in. intros k Hk. apply in_seq in Hk.
  unfold Reference.anchor_loss, Reference.channel_loss.
  destruct (Hmask k ltac:(lia)) as [E | [E | [E1 E2]]].
  - rewrite E. cbn [fst snd]. rewrite !Rmult_0_l. reflexivity.
  - rewrite E. cbn [fst snd]. rewrite !Rmult_0_l. reflexivity.
  - rewrite E1, E2. reflexivity.
Qed.

Lemma moderate_two_rows (a b c d : R) :
  Rabs a <= 1048576 -> Rabs b <= 1048576 ->
  Rabs c <= 1048576 -> Rabs d <= 1048576 ->
  Magnitude.moderate_tensor [(a, b); (c, d)].
Proof.
  intros Ha Hb Hc Hd. split.
  - repeat (apply Forall_cons; [split; assumption |]). apply Forall_nil.
  - cbn [length]. lia.
Qed.

Lemma smooth_l1_loss_masked_moderate_witness :
  smooth_l1_loss [(1, 2); (5, 6)] [(0, 0); (7, 8)]
    [(1, 1); (0, 0)] [(1, 1); (1, 1)] 1 [1%Z]
  = smooth_l1_loss [(1, 2); (9, 9)] [(0, 0); (3, 3)]
      [(1, 1); (0, 0)] [(1, 1); (1, 1)] 1 [1%Z].
Proof.
  apply (smooth_l1_loss_masked_moderate
           [(1, 2); (5, 6)] [(1, 2); (9, 9)] [(0, 0); (7, 8)]
           [(0, 0); (3, 3)] [(1, 1); (0, 0)] [(1, 1); (1, 1)] 1);
    try reflexivity;
    try (apply moderate_two_rows; apply Rabs_le; lra).
  - unfold Magnitude.moderate_sigma, Magnitude.bound. lra.
  - intros [|[|k]] Hk.
    + right. right. split; reflexivity.
    + left. reflexivity.
    + cbn [length] in Hk. lia.
Defined.

(** X4: with [sigma = 0] and tensors of one shape, the loss raises
    [ZeroDivisionError] (from [1.0 / sigma_2]). *)
Theorem smooth_l1_loss_sigma_zero
  (pred target inside outside : tensor2) (dim : list Z) :
  length target = length pred ->
  length inside = length pred ->
  smooth_l1_loss pred target inside outside 0 dim = Raise ZeroDivisionError.
Proof.
  intros Ht Hi. unfold smooth_l1_loss.
  rewrite (LossProperties.ew2_same_length Rminus pred target)
    by (symmetry; exact Ht).
  cbn [bind].
  rewrite (LossProperties.ew2_same_length Rmult inside)
    by (rewrite LossProperties.zip_with_length;
        [exact Hi | symmetry; exact Ht]).
  cbn [bind].
  destruct (Req_dec_T (0 ^ 2) 0) as [_ | N]; [reflexivity |].
  exfalso. apply N. ring.
Qed.

Lemma smooth_l1_loss_sigma_zero_witness :
  smooth_l1_loss [(1, 2)] [(0, 0)] [(1, 1)] [(1, 1)] 0 [1%Z]
  = Raise ZeroDivisionError.
Proof.
  apply (smooth_l1_loss_sigma_zero [(1, 2)] [(0, 0)] [(1, 1)] [(1, 1)]
           [1%Z]); reflexivity.
Defined.

(** *** The smooth-L1 term on float32 *)

Example in_loss_box32_one :
  Float32.in_loss_box32 Float32.sigma_one (Float32.pow2 0)
  = Float32.pow2 (-1).
Proof. vm_compute. reflexivity. Qed.

Example in_loss_box32_half :
  Float32.in_loss_box32 Float32.sigma_one (Float32.pow2 (-1))
  = Float32.pow2 (-3).
Proof. vm_compute. reflexivity. Qed.

(** The square of [2^-80] underflows: the term is 0 at a residual that
    is not. *)
Example in_loss_box32_underflow :
  Float32.in_loss_box32 Float32.sigma_one (Float32.pow2 (-80))
  = Float32.f_zero.
Proof. vm_compute. reflexivity. Qed.

(** X5: on float32 the smooth-L1 term of the code depends on the size
    of the residual only: a residual and its opposite have the same
    term, whatever the residual (zeros, infinities and NaN included)
    and whatever [sigma_2]. *)
Theorem in_loss_box32_even (sigma_2 : Float32.f64) (d : Float32.f32) :
  Float32.in_loss_box32 sigma_2 (Float32.fopp d)
  = Float32.in_loss_box32 sigma_2 d.
Proof.
  destruct d as [s | s | | s m e]; try destruct s; reflexivity.
Qed.

(** X6: on float32, a residual in the linear branch whose square
    overflows has the term NaN: the quadratic part is [inf] (for a
    positive finite [sigma_2 / 2.0]) and is multiplied by the 0 of
    [smoothL1_sign]. *)
Theorem in_loss_box32_square_overflow
  (sigma_2 : Float32.f64) (d : Float32.f32) (m : positive) (e : Z) :
  Float32.fmul d d = Float32.f_inf ->
  Float32.to_f32 (Float32.ddiv sigma_2 (Float32.dpow2 1))
  = SpecFloat.S754_finite false m e ->
  Float32.flt (Float32.fabs d)
    (Float32.to_f32 (Float32.ddiv (Float32.dpow2 0) sigma_2)) = false ->
  Float32.in_loss_box32 sigma_2 d = Float32.f_nan.
Proof.
  intros Hsq Hscale Hbranch.
  unfold Float32.in_loss_box32, Float32.quadratic_part32,
    Float32.smoothL1_sign32.
  rewrite Hsq, Hscale, Hbranch. reflexivity.
Qed.

Lemma in_loss_box32_square_overflow_witness :
  Float32.in_loss_box32 Float32.sigma_one (Float32.pow2 70)
  = Float32.f_nan.
Proof.
  apply (in_loss_box32_square_overflow Float32.sigma_one
           (Float32.pow2 70) 8388608 (-24));
    vm_compute; reflexivity.
Defined.

End LossExtras.

(** ** Properties of the evaluation parsers *)

Module EvaluationProperties.

Import PyStr EvaluationFiles.
Import EvaluationParserCluster.
Local Open Scope Z_scope.

Example split_fields :
  split comma "a,,b" = ["a"; ""; "b"]%string.
Proof. reflexivity. Qed.

Example rstrip_line :
  rstrip_crlf ("a,b" ++ String cr (String lf EmptyString)) = "a,b"%string.
Proof. reflexivity. Qed.

(** On integers the parser's test is [overlaps]. *)
Lemma overlaps_obj_int (a b c d : Z) :
  overlaps_obj (Some a) (Some b) (Some c) (Some d) = Ok (overlaps a b c d).
Proof.
  unfold overlaps_obj, overlaps, or_else, and_then, le_obj, ge_obj.
  cbn [bind].
  destruct (a <=? c), (c <=? b), (b <=? d), (b >=? d), (c <=? a), (a <=? d);
    reflexivity.
Qed.

(** X7: when the model interval has a start but no end, [overlaps]
    raises [TypeError], whatever the three integers are; so a row with
    an OSW peak and such a model peak, both above their thresholds, makes
    the loop body raise [TypeError]. *)
Theorem missing_model_end_raises
  (osw_threshold mod_threshold : Q) (mod_min_pts : Z) (chrom_id : string)
  (osw_start osw_end mod_start : Z) (osw_score mod_score : Q)
  (st : eval_state) :
  osw_start <> 0 ->
  mod_start <> 0 ->
  Qlt_bool osw_score osw_threshold = false ->
  Qlt_bool mod_score mod_threshold = false ->
  overlaps_obj (Some osw_start) (Some osw_end) (Some mod_start) None
  = Raise TypeError
  /\ classify_row osw_threshold mod_threshold mod_min_pts chrom_id
       osw_start osw_end (Some mod_start) None osw_score mod_score st
     = Raise TypeError.
Proof.
  intros Ho Hm Hs1 Hs2.
  assert (E : overlaps_obj (Some osw_start) (Some osw_end) (Some mod_start)
                None = Raise TypeError).
  { unfold overlaps_obj, or_else, and_then, le_obj, ge_obj. cbn [bind].
    destruct (Z.leb_spec osw_start mod_start),
      (Z.leb_spec mod_start osw_end), (Z.leb_spec mod_start osw_start);
      try reflexivity; lia. }
  split; [exact E |].
  unfold classify_row, drop_short. cbn [truthy_int andb].
  rewrite andb_false_r, Hs1, Hs2.
  unfold decide. cbn [truthy_int].
  apply Z.eqb_neq in Ho. apply Z.eqb_neq in Hm. rewrite Ho, Hm.
  cbn [negb andb]. rewrite E. reflexivity.
Qed.

Lemma missing_model_end_raises_witness :
  overlaps_obj (Some 3) (Some 9) (Some 5) None = Raise TypeError
  /\ classify_row 2.5 0.5 1 "c1" 3 9 (Some 5) None 3 1 initial_eval_state
     = Raise TypeError.
Proof.
  apply (missing_model_end_raises 2.5 0.5 1 "c1" 3 9 5 3 1
           initial_eval_state);
    [discriminate | discriminate | reflexivity | reflexivity].
Defined.

(** *** Counters, lists and labels *)

Lemma for_each_invariant {S A : Type} (P : S -> Prop)
  (body : S -> A -> result S) :
  (forall s x s', P s -> body s x = Ok s' -> P s') ->
  forall items s s', P s -> for_each body items s = Ok s' -> P s'.
Proof.
  intros Hstep. induction items as [|x items IH]; intros s s' Hs Hrun.
  - injection Hrun as <-. exact Hs.
  - cbn [for_each] in Hrun.
    destruct (body s x) as [s1 | e] eqn:E; cbn [bind] in Hrun;
      [| discriminate].
    exact (IH s1 s' (Hstep s x s1 Hs E) Hrun).
Qed.

Lemma for_each_app {S A : Type} (body : S -> A -> result S)
  (l1 l2 : list A) :
  forall s, for_each body (l1 ++ l2) s
            = bind (for_each body l1 s) (for_each body l2).
Proof.
  induction l1 as [|x l1 IH]; intros s; [reflexivity |].
  cbn [app for_each]. destruct (body s x) as [s1 | e]; cbn [bind];
    [apply IH | reflexivity].
Qed.

Lemma count_occ_snoc (l : list Z) (x y : Z) :
  count_occ Z.eq_dec (l ++ [x]) y
  = (count_occ Z.eq_dec l y + (if Z.eq_dec x y then 1 else 0))%nat.
Proof.
  rewrite count_occ_app. cbn [count_occ].
  destruct (Z.eq_dec x y); reflexivity.
Qed.

Lemma consistent_empty : consistent empty_tally.
Proof. repeat split. Qed.

Lemma consistent_record (o : outcome) (e : entry) (t : tally) :
  consistent t -> consistent (record o e t).
Proof.
  intros (H1 & H2 & H3 & H4 & H5 & H6 & H7).
  unfold consistent, record.
  destruct o; cbn [counts l_tp l_fp l_tn l_fn targets bump tp fp tn fn
                     target_of];
    rewrite ?length_app, !count_occ_snoc; cbn [length];
    repeat split;
    repeat match goal with
           | |- context [Z.eq_dec ?a ?b] =>
               destruct (Z.eq_dec a b); try discriminate
           end;
    lia.
Qed.

(** *** What the lists hold *)

Lemma decide_TP (a b c d : option Z) (id : string) :
  decide a b c d = Ok TP -> is_true_positive (id, a, b, c, d).
Proof.
  unfold decide, is_true_positive. cbn [fst snd].
  destruct a as [a|], c as [c|]; cbn [truthy_int negb andb];
    try discriminate;
    try (destruct (c =? 0); discriminate);
    try (destruct (a =? 0); discriminate).
  destruct (a =? 0) eqn:Ea; destruct (c =? 0) eqn:Ec; cbn [negb andb];
    try discriminate.
  apply Z.eqb_neq in Ea. apply Z.eqb_neq in Ec.
  destruct b as [b|], d as [d|].
  - rewrite overlaps_obj_int. cbn [bind].
    destruct (overlaps a b c d) eqn:E; [| discriminate].
    intros _. exists a, b, c, d. repeat split; assumption.
  - unfold overlaps_obj, or_else, and_then, le_obj, ge_obj. cbn [bind].
    destruct (a <=? c), (c <=? b), (c <=? a); discriminate.
  - unfold overlaps_obj, or_else, and_then, le_obj, ge_obj. cbn [bind].
    destruct (a <=? c), (c <=? a), (a <=? d); discriminate.
  - unfold overlaps_obj, or_else, and_then, le_obj, ge_obj. cbn [bind].
    destruct (a <=? c), (c <=? a); discriminate.
Qed.

Lemma decide_negative (a b c d : option Z) (o : outcome) :
  decide a b c d = Ok o -> o = FN \/ o = TN -> truthy_int c = false.
Proof.
  unfold decide.
  destruct (truthy_int a), (truthy_int c); cbn [negb andb]; try reflexivity;
    intros H [-> | ->]; try discriminate.
  - destruct (overlaps_obj a b c d) as [[|] | e]; discriminate.
  - destruct (overlaps_obj a b c d) as [[|] | e]; discriminate.
Qed.

Lemma classify_row_sound
  (th1 th2 : Q) (pts : Z) (id : string) (a b : Z) (c d : option Z)
  (s1 s2 : Q) (st st' : eval_state) :
  lists_sound st ->
  classify_row th1 th2 pts id a b c d s1 s2 st = Ok st' ->
  lists_sound st'.
Proof.
  intros (Htp & Hfn & Htn) Hrun. unfold classify_row in Hrun.
  destruct (drop_short pts c d) as [c1 d1].
  destruct (if Qlt_bool s1 th1 then (None, None) else (Some a, Some b))
    as [a2 b2].
  destruct (if Qlt_bool s2 th2 then (None, None) else (c1, d1)) as [c2 d2].
  destruct (decide a2 b2 c2 d2) as [o | e] eqn:E; cbn [bind] in Hrun;
    [| discriminate].
  injection Hrun as <-. unfold lists_sound, record.
  cbn [mod_tally l_tp l_fn l_tn].
  destruct o; repeat split; try assumption;
    apply Forall_app; (split; [assumption |]);
    apply Forall_cons; try apply Forall_nil.
  - exact (decide_TP _ _ _ _ id E).
  - unfold has_no_model_peak. cbn [fst snd].
    apply (decide_negative _ _ _ _ _ E). right. reflexivity.
  - unfold has_no_model_peak. cbn [fst snd].
    apply (decide_negative _ _ _ _ _ E). left. reflexivity.
Qed.

(** X11: a peak that starts at index 0 counts as absent. A row whose
    OSW start is 0 is labelled 0 and never reaches the true positive or
    false negative list, whatever its scores and its model peak; a row
    whose model start is 0 never reaches the true positive or false
    positive list. Neither row can raise. *)
Theorem zero_start_is_no_peak
  (th1 th2 : Q) (pts : Z) (id : string) (a b : Z) (c d : option Z)
  (s1 s2 : Q) (st : eval_state) :
  (exists st',
     classify_row th1 th2 pts id 0 b c d s1 s2 st = Ok st'
     /\ targets (mod_tally st') = targets (mod_tally st) ++ [0]
     /\ l_tp (mod_tally st') = l_tp (mod_tally st)
     /\ l_fn (mod_tally st') = l_fn (mod_tally st))
  /\ (exists st',
        classify_row th1 th2 pts id a b (Some 0) d s1 s2 st = Ok st'
        /\ l_tp (mod_tally st') = l_tp (mod_tally st)
        /\ l_fp (mod_tally st') = l_fp (mod_tally st)).
Proof.
  split.
  - unfold classify_row.
    destruct (drop_short pts c d) as [c1 d1].
    assert (Ha : forall p : option Z * option Z,
               p = (None, None) \/ p = (Some 0, Some b) ->
               truthy_int (fst p) = false).
    { intros p [-> | ->]; reflexivity. }
    destruct (if Qlt_bool s1 th1 then (None, None) else (Some 0, Some b))
      as [a2 b2] eqn:E1.
    assert (Ta : truthy_int a2 = false).
    { apply (Ha (a2, b2)). rewrite <- E1.
      destruct (Qlt_bool s1 th1); [left | right]; reflexivity. }
    destruct (if Qlt_bool s2 th2 then (None, None) else (c1, d1))
      as [c2 d2].
    unfold decide. rewrite Ta. cbn [negb andb].
    destruct (truthy_int c2); cbn [negb bind]; eexists;
      (split; [reflexivity |]); repeat split.
  - unfold classify_row, drop_short. cbn [truthy_int Z.eqb negb andb].
    destruct (if Qlt_bool s1 th1 then (None, None) else (Some a, Some b))
      as [a2 b2].
    assert (Tc : forall p : option Z * option Z,
               p = (None, None) \/ p = (Some 0, d) ->
               truthy_int (fst p) = false).
    { intros p [-> | ->]; reflexivity. }
    destruct (if Qlt_bool s2 th2 then (None, None) else (Some 0, d))
      as [c2 d2] eqn:E2.
    assert (Tm : truthy_int c2 = false).
    { apply (Tc (c2, d2)). rewrite <- E2.
      destruct (Qlt_bool s2 th2); [left | right]; reflexivity. }
    unfold decide. rewrite Tm. cbn [negb andb].
    rewrite !andb_false_r.
    destruct (truthy_int a2); cbn [negb andb bind]; eexists;
      (split; [reflexivity |]); repeat split.
Qed.

(** X20: a model peak with non-zero bounds that spans fewer than
    [mod_min_pts] points counts as no model peak: the row never reaches
    the true positive or the false positive list, and cannot raise. *)
Theorem short_model_peak_is_dropped
  (th1 th2 : Q) (pts : Z) (id : string) (a b c d : Z) (s1 s2 : Q)
  (st : eval_state) :
  c <> 0 -> d <> 0 -> d - c + 1 < pts ->
  exists st',
    classify_row th1 th2 pts id a b (Some c) (Some d) s1 s2 st = Ok st'
    /\ l_tp (mod_tally st') = l_tp (mod_tally st)
    /\ l_fp (mod_tally st') = l_fp (mod_tally st).
Proof.
  intros Hc Hd Hshort. unfold classify_row, drop_short. cbn [truthy_int].
  apply Z.eqb_neq in Hc. apply Z.eqb_neq in Hd. rewrite Hc, Hd.
  cbn [negb andb].
  destruct (Z.ltb_spec (d - c + 1) pts) as [_ | N]; [| lia].
  destruct (if Qlt_bool s1 th1 then (None, None) else (Some a, Some b))
    as [a2 b2].
  assert (E : (if Qlt_bool s2 th2 then (None, None)
               else (@None Z, @None Z)) = (None, None))
    by (destruct (Qlt_bool s2 th2); reflexivity).
  rewrite E. unfold decide. cbn [truthy_int negb andb].
  rewrite !andb_false_r.
  destruct (truthy_int a2); cbn [negb andb bind]; eexists;
    (split; [reflexivity |]); repeat split.
Qed.

Lemma short_model_peak_is_dropped_witness :
  exists st',
    classify_row 2.5 0.5 5 "c1" 3 9 (Some 4) (Some 6) 3 1 initial_eval_state
    = Ok st'
    /\ l_tp (mod_tally st') = l_tp (mod_tally initial_eval_state)
    /\ l_fp (mod_tally st') = l_fp (mod_tally initial_eval_state).
Proof.
  apply (short_model_peak_is_dropped 2.5 0.5 5 "c1" 3 9 4 6 3 1
           initial_eval_state); lia.
Defined.

(** X21: a score under its threshold withdraws the peak. With an OSW
    score below [osw_threshold] the row is labelled 0 and is never a
    true positive or a false negative; with a model score below
    [mod_threshold] it is never a true or a false positive. Neither row
    can raise. *)
Theorem low_score_is_no_peak
  (th1 th2 : Q) (pts : Z) (id : string) (a b : Z) (c d : option Z)
  (s1 s2 : Q) (st : eval_state) :
  (Qlt_bool s1 th1 = true ->
   exists st',
     classify_row th1 th2 pts id a b c d s1 s2 st = Ok st'
     /\ targets (mod_tally st') = targets (mod_tally st) ++ [0]
     /\ l_tp (mod_tally st') = l_tp (mod_tally st)
     /\ l_fn (mod_tally st') = l_fn (mod_tally st))
  /\ (Qlt_bool s2 th2 = true ->
      exists st',
        classify_row th1 th2 pts id a b c d s1 s2 st = Ok st'
        /\ l_tp (mod_tally st') = l_tp (mod_tally st)
        /\ l_fp (mod_tally st') = l_fp (mod_tally st)).
Proof.
  split; intros Hs; unfold classify_row;
    destruct (drop_short pts c d) as [c1 d1]; rewrite Hs.
  - destruct (if Qlt_bool s2 th2 then (None, None) else (c1, d1))
      as [c2 d2].
    unfold decide. cbn [truthy_int negb andb].
    destruct (truthy_int c2); cbn [negb bind]; eexists;
      (split; [reflexivity |]); repeat split.
  - destruct (if Qlt_bool s1 th1 then (None, None) else (Some a, Some b))
      as [a2 b2].
    unfold decide. cbn [truthy_int negb andb]. rewrite !andb_false_r.
    destruct (truthy_int a2); cbn [negb andb bind]; eexists;
      (split; [reflexivity |]); repeat split.
Qed.

Lemma low_score_is_no_peak_witness :
  exists st',
    classify_row 2.5 0.5 1 "c1" 3 9 (Some 5) (Some 12) 1 1
      initial_eval_state = Ok st'
    /\ targets (mod_tally st') = targets (mod_tally initial_eval_state) ++ [0]
    /\ l_tp (mod_tally st') = l_tp (mod_tally initial_eval_state)
    /\ l_fn (mod_tally st') = l_fn (mod_tally initial_eval_state).
Proof.
  apply (proj1 (low_score_is_no_peak 2.5 0.5 1 "c1" 3 9 (Some 5) (Some 12)
                  1 1 initial_eval_state)).
  reflexivity.
Defined.

Section WithBuiltins.

Context {builtins : Builtins}.

Lemma classify_row_consistent
  (th1 th2 : Q) (pts : Z) (id : string) (a b : Z) (c d : option Z)
  (s1 s2 : Q) (st st' : eval_state) :
  eval_consistent st ->
  classify_row th1 th2 pts id a b c d s1 s2 st = Ok st' ->
  eval_consistent st'.
Proof.
  intros (Hc & Hl1 & Hl2) Hrun. unfold classify_row in Hrun.
  destruct (drop_short pts c d) as [c1 d1].
  destruct (if Qlt_bool s1 th1 then (None, None) else (Some a, Some b))
    as [a2 b2].
  destruct (if Qlt_bool s2 th2 then (None, None) else (c1, d1)) as [c2 d2].
  destruct (decide a2 b2 c2 d2) as [o | e]; cbn [bind] in Hrun;
    [| discriminate].
  injection Hrun as <-. unfold eval_consistent.
  cbn [mod_tally osw_scores pred]. split; [now apply consistent_record |].
  unfold record. cbn [targets]. rewrite !length_app. cbn [length]. lia.
Qed.

Lemma process_line_consistent (exclude : list string) (th1 th2 : Q)
  (pts : Z) (st : eval_state) (line : string) (st' : eval_state) :
  eval_consistent st ->
  process_line exclude th1 th2 pts st line = Ok st' ->
  eval_consistent st'.
Proof.
  intros Hst Hrun. unfold process_line in Hrun.
  destruct (split comma (rstrip_crlf line))
    as [|f1 [|f2 [|f3 [|f4 [|f5 [|f6 [|f7 [|f8 [|f9 rest]]]]]]]]];
    try discriminate Hrun.
  destruct (index_neg2 (split underscore f2)) as [seq | e];
    cbn [bind] in Hrun; [| discriminate].
  destruct (contains exclude seq).
  - injection Hrun as <-. exact Hst.
  - destruct (py_int f3) as [a | e]; cbn [bind] in Hrun; [| discriminate].
    destruct (py_int f4) as [b | e]; cbn [bind] in Hrun; [| discriminate].
    destruct (int_or_none f5) as [c | e]; cbn [bind] in Hrun;
      [| discriminate].
    destruct (int_or_none f6) as [d | e]; cbn [bind] in Hrun;
      [| discriminate].
    destruct (py_float f7) as [s1 | e]; cbn [bind] in Hrun; [| discriminate].
    destruct (py_float f8) as [s2 | e]; cbn [bind] in Hrun; [| discriminate].
    exact (classify_row_consistent _ _ _ _ _ _ _ _ _ _ st st' Hst Hrun).
Qed.

Lemma parse_runs_loop (infile : list string) (th1 th2 : Q) (pts : Z)
  (exclusion_list : option (list string)) (st : eval_state) :
  parse_model_evaluation_file infile th1 th2 pts exclusion_list = Ok st ->
  exists exclude header rows,
    infile = header :: rows
    /\ for_each (process_line exclude th1 th2 pts) rows initial_eval_state
       = Ok st.
Proof.
  unfold parse_model_evaluation_file. intros Hrun.
  destruct (match exclusion_list with
            | None => Ok []
            | Some exclusions =>
                bind (next_line exclusions)
                  (fun rest => for_each read_exclusions rest [])
            end) as [exclude | e]; cbn [bind] in Hrun; [| discriminate].
  destruct infile as [|header rows]; [discriminate |].
  cbn [next_line bind] in Hrun.
  exists exclude, header, rows. split; [reflexivity | exact Hrun].
Qed.

(** X8: whenever [parse_model_evaluation_file] returns, the printed
    counters are the lengths of the four returned lists, and the three
    returned vectors [osw_scores], [target] and [pred] have one entry
    per counted row (tp + fp + tn + fn). *)
Theorem parse_counts_match_lists (infile : list string) (th1 th2 : Q)
  (pts : Z) (exclusion_list : option (list string)) (st : eval_state) :
  parse_model_evaluation_file infile th1 th2 pts exclusion_list = Ok st ->
  let t := mod_tally st in
  tp (counts t) = length (l_tp t)
  /\ fp (counts t) = length (l_fp t)
  /\ tn (counts t) = length (l_tn t)
  /\ fn (counts t) = length (l_fn t)
  /\ length (targets t)
     = (length (l_tp t) + length (l_fp t) + length (l_tn t)
        + length (l_fn t))%nat
  /\ length (osw_scores st) = length (targets t)
  /\ length (pred st) = length (targets t).
Proof.
  intros Hrun.
  destruct (parse_runs_loop _ _ _ _ _ _ Hrun)
    as (exclude & header & rows & _ & Hloop).
  assert (Hc : eval_consistent st).
  { apply (for_each_invariant eval_consistent
             (process_line exclude th1 th2 pts)
             (fun s x s' => process_line_consistent exclude th1 th2 pts
                              s x s')
             rows initial_eval_state st); [| exact Hloop].
    split; [apply consistent_empty | split; reflexivity]. }
  destruct Hc as ((H1 & H2 & H3 & H4 & H5 & _ & _) & Hl1 & Hl2).
  cbn zeta. repeat split; try assumption. lia.
Qed.

(** X9: whenever [parse_model_evaluation_file] returns, every label in
    [target] is 0 or 1, the number of 1s is tp + fn and the number of 0s
    is fp + tn. *)
Theorem parse_target_labels (infile : list string) (th1 th2 : Q)
  (pts : Z) (exclusion_list : option (list string)) (st : eval_state) :
  parse_model_evaluation_file infile th1 th2 pts exclusion_list = Ok st ->
  let t := mod_tally st in
  count_occ Z.eq_dec (targets t) 1
  = (length (l_tp t) + length (l_fn t))%nat
  /\ count_occ Z.eq_dec (targets t) 0
     = (length (l_fp t) + length (l_tn t))%nat
  /\ Forall (fun y => y = 0 \/ y = 1) (targets t).
Proof.
  intros Hrun.
  destruct (parse_runs_loop _ _ _ _ _ _ Hrun)
    as (exclude & header & rows & _ & Hloop).
  assert (Hc : eval_consistent st).
  { apply (for_each_invariant eval_consistent
             (process_line exclude th1 th2 pts)
             (fun s x s' => process_line_consistent exclude th1 th2 pts
                              s x s')
             rows initial_eval_state st); [| exact Hloop].
    split; [apply consistent_empty | split; reflexivity]. }
  destruct Hc as ((H1 & H2 & H3 & H4 & H5 & H6 & H7) & _).
  cbn zeta. split; [lia | split; [lia |]].
  apply Forall_forall. intros y Hy.
  destruct (Z.eq_dec y 0) as [-> | N0]; [left; reflexivity |].
  destruct (Z.eq_dec y 1) as [-> | N1]; [right; reflexivity |].
  exfalso.
  pose proof (count_occ_In Z.eq_dec (targets (mod_tally st)) y) as Hin.
  apply Hin in Hy.
  assert (Hsum : (count_occ Z.eq_dec (targets (mod_tally st)) 0%Z
                  + count_occ Z.eq_dec (targets (mod_tally st)) 1%Z
                  + count_occ Z.eq_dec (targets (mod_tally st)) y
                  <= length (targets (mod_tally st)))%nat).
  { clear - N0 N1. induction (targets (mod_tally st)) as [|z l IH];
      [cbn; lia |].
    cbn [count_occ length].
    destruct (Z.eq_dec z 0), (Z.eq_dec z 1), (Z.eq_dec z y); subst;
      try congruence; lia. }
  lia.
Qed.

Lemma process_line_sound (exclude : list string) (th1 th2 : Q)
  (pts : Z) (st : eval_state) (line : string) (st' : eval_state) :
  lists_sound st ->
  process_line exclude th1 th2 pts st line = Ok st' ->
  lists_sound st'.
Proof.
  intros Hst Hrun. unfold process_line in Hrun.
  destruct (split comma (rstrip_crlf line))
    as [|f1 [|f2 [|f3 [|f4 [|f5 [|f6 [|f7 [|f8 [|f9 rest]]]]]]]]];
    try discriminate Hrun.
  destruct (index_neg2 (split underscore f2)) as [seq | e];
    cbn [bind] in Hrun; [| discriminate].
  destruct (contains exclude seq).
  - injection Hrun as <-. exact Hst.
  - destruct (py_int f3) as [a | e]; cbn [bind] in Hrun; [| discriminate].
    destruct (py_int f4) as [b | e]; cbn [bind] in Hrun; [| discriminate].
    destruct (int_or_none f5) as [c | e]; cbn [bind] in Hrun;
      [| discriminate].
    destruct (int_or_none f6) as [d | e]; cbn [bind] in Hrun;
      [| discriminate].
    destruct (py_float f7) as [s1 | e]; cbn [bind] in Hrun; [| discriminate].
    destruct (py_float f8) as [s2 | e]; cbn [bind] in Hrun; [| discriminate].
    exact (classify_row_sound _ _ _ _ _ _ _ _ _ _ st st' Hst Hrun).
Qed.

(** X10: whenever [parse_model_evaluation_file] returns, every entry of
    the true positive list has four integer bounds, non-zero starts and
    passes [overlaps]; every entry of the false negative and of the true
    negative list has a model start that is [None] or 0. *)
Theorem parse_lists_sound (infile : list string) (th1 th2 : Q)
  (pts : Z) (exclusion_list : option (list string)) (st : eval_state) :
  parse_model_evaluation_file infile th1 th2 pts exclusion_list = Ok st ->
  Forall is_true_positive (l_tp (mod_tally st))
  /\ Forall has_no_model_peak (l_fn (mod_tally st))
  /\ Forall has_no_model_peak (l_tn (mod_tally st)).
Proof.
  intros Hrun.
  destruct (parse_runs_loop _ _ _ _ _ _ Hrun)
    as (exclude & header & rows & _ & Hloop).
  apply (for_each_invariant lists_sound
           (process_line exclude th1 th2 pts)
           (fun s x s' => process_line_sound exclude th1 th2 pts s x s')
           rows initial_eval_state st); [| exact Hloop].
  repeat split; apply Forall_nil.
Qed.

(** X12: a row whose sequence is excluded leaves no trace: removing its
    line from anywhere in the file does not change the result of the
    loop, and its numeric fields are never parsed. *)
Theorem excluded_row_is_skipped (exclude : list string) (th1 th2 : Q)
  (pts : Z) (line : string) (f1 f2 f3 f4 f5 f6 f7 f8 seq : string)
  (before after : list string) (st : eval_state) :
  split comma (rstrip_crlf line) = [f1; f2; f3; f4; f5; f6; f7; f8] ->
  index_neg2 (split underscore f2) = Ok seq ->
  contains exclude seq = true ->
  for_each (process_line exclude th1 th2 pts) (before ++ line :: after) st
  = for_each (process_line exclude th1 th2 pts) (before ++ after) st.
Proof.
  intros Hf Hseq Hex.
  assert (Hskip : forall s, process_line exclude th1 th2 pts s line = Ok s).
  { intros s. unfold process_line. rewrite Hf, Hseq. cbn [bind].
    rewrite Hex. reflexivity. }
  rewrite !for_each_app.
  destruct (for_each (process_line exclude th1 th2 pts) before st)
    as [s1 | e]; cbn [bind]; [| reflexivity].
  cbn [for_each]. rewrite Hskip. reflexivity.
Qed.

(** *** The amended parser *)

Lemma load_overlap_more_than :
  load_global "overlap_more_than" = Raise (NameError "overlap_more_than").
Proof. reflexivity. Qed.

Lemma decide_amended_never_TP (m1 m2 a b : option Z) :
  decide_amended m1 m2 a b <> Ok TP.
Proof.
  unfold decide_amended. rewrite load_overlap_more_than. cbn [bind].
  destruct (is_none m1), (is_none a); cbn [negb andb]; discriminate.
Qed.

Lemma record_keeps_no_TP (o : outcome) (e : entry) (t : tally) :
  o <> TP -> l_tp t = [] -> tp (counts t) = 0%nat ->
  l_tp (record o e t) = [] /\ tp (counts (record o e t)) = 0%nat.
Proof.
  intros Ho Hl Hc. destruct o; [contradiction | | |];
    cbn [record l_tp counts bump tp]; split; assumption.
Qed.

Lemma process_amended_line_no_TP (include : list string) (th1 th2 : Q)
  (pts : Z) (st : amended_state) (line : string) (st' : amended_state) :
  no_true_positive st ->
  process_amended_line include th1 th2 pts st line = Ok st' ->
  no_true_positive st'.
Proof.
  intros Hst Hrun. unfold process_amended_line in Hrun.
  destruct (split comma (rstrip_crlf line))
    as [|f1 [|f2 [|f3 [|f4 [|f5 [|f6 [|f7 [|f8 [|f9 [|f10 [|f11
         [|f12 rest]]]]]]]]]]]]; try discriminate Hrun.
  destruct (String.eqb f11 "1"); [| injection Hrun as <-; exact Hst].
  destruct (index_neg2 (split underscore f2)) as [seq | e];
    cbn [bind] in Hrun; [| discriminate].
  destruct (contains include seq); [| injection Hrun as <-; exact Hst].
  destruct (py_int f3) as [a | e]; cbn [bind] in Hrun; [| discriminate].
  destruct (py_int f4) as [b | e]; cbn [bind] in Hrun; [| discriminate].
  destruct (int_or_none f5) as [c | e]; cbn [bind] in Hrun;
    [| discriminate].
  destruct (int_or_none f6) as [d | e]; cbn [bind] in Hrun;
    [| discriminate].
  destruct (py_float f7) as [s1 | e]; cbn [bind] in Hrun; [| discriminate].
  destruct (py_float f8) as [s2 | e]; cbn [bind] in Hrun; [| discriminate].
  destruct (if nonempty f9 && nonempty f10
            then bind (py_int f9)
                   (fun s => bind (py_int f10)
                               (fun e => Ok (Some s, Some e)))
            else Ok (None, None)) as [[m1 m2] | e];
    cbn [bind fst snd] in Hrun; [| discriminate].
  unfold classify_amended_row in Hrun.
  destruct (drop_short pts c d) as [c1 d1].
  destruct (if Qle_bool s1 th1 then (None, None) else (Some a, Some b))
    as [a2 b2].
  destruct (if Qle_bool s2 th2 then (None, None) else (c1, d1)) as [c2 d2].
  destruct (decide_amended m1 m2 a2 b2) as [o1 | e] eqn:E1;
    cbn [bind] in Hrun; [| discriminate].
  destruct (decide_amended m1 m2 c2 d2) as [o2 | e] eqn:E2;
    cbn [bind] in Hrun; [| discriminate].
  injection Hrun as <-.
  destruct Hst as (H1 & H2 & H3 & H4).
  assert (N1 : o1 <> TP)
    by (intros ->; exact (decide_amended_never_TP _ _ _ _ E1)).
  assert (N2 : o2 <> TP)
    by (intros ->; exact (decide_amended_never_TP _ _ _ _ E2)).
  unfold no_true_positive. cbn [a_osw a_mod].
  destruct (record_keeps_no_TP o1 (f1, m1, m2, a2, b2) _ N1 H1 H2).
  destruct (record_keeps_no_TP o2 (f1, m1, m2, c2, d2) _ N2 H3 H4).
  repeat split; assumption.
Qed.

(** X13: [parse_amended_model_evaluation_file] calls
    [overlap_more_than], a name bound nowhere in the module. Whenever it
    returns, both true positive lists are empty and both true positive
    counters are 0. *)
Theorem amended_parser_finds_no_true_positive
  (infile : list string) (th1 th2 : Q) (pts : Z)
  (inclusion_idx_files : list (list string))
  (inclusion_list : option (list string)) (plot_things : bool)
  (st : amended_state) :
  parse_amended_model_evaluation_file infile th1 th2 pts
    inclusion_idx_files inclusion_list plot_things = Ok st ->
  l_tp (a_osw st) = [] /\ tp (counts (a_osw st)) = 0%nat
  /\ l_tp (a_mod st) = [] /\ tp (counts (a_mod st)) = 0%nat.
Proof.
  unfold parse_amended_model_evaluation_file. intros Hrun.
  destruct (for_each (fun idx file => for_each read_index file idx)
              inclusion_idx_files []) as [include_idx | e];
    cbn [bind] in Hrun; [| discriminate].
  destruct (match inclusion_list with
            | None => Ok []
            | Some inclusions =>
                bind (next_line inclusions)
                  (fun rest =>
                     for_each (read_inclusions include_idx) rest [])
            end) as [include | e]; cbn [bind] in Hrun; [| discriminate].
  destruct (next_line infile) as [rows | e]; cbn [bind] in Hrun;
    [| discriminate].
  destruct (for_each (process_amended_line include th1 th2 pts) rows
              initial_amended_state) as [st1 | e] eqn:Hloop;
    cbn [bind] in Hrun; [| discriminate].
  assert (Hst1 : no_true_positive st1).
  { apply (for_each_invariant no_true_positive
             (process_amended_line include th1 th2 pts)
             (fun s x s' => process_amended_line_no_TP include th1 th2 pts
                              s x s')
             rows initial_amended_state st1); [| exact Hloop].
    repeat split. }
  destruct (if plot_things
            then bind (plot_binary_precision_recall_curve
                         (targets (a_osw st1)) (osw_pred st1))
                   (fun _ => plot_binary_precision_recall_curve
                               (targets (a_mod st1)) (mod_pred st1))
            else Ok tt) as [u | e]; cbn [bind] in Hrun; [| discriminate].
  injection Hrun as <-. exact Hst1.
Qed.

(** X14: a row that has a manual peak and an OSW peak above the
    threshold makes the amended loop body raise
    [NameError: overlap_more_than]. *)
Theorem amended_row_raises_name_error
  (th1 th2 : Q) (pts : Z) (id : string) (a b : Z) (c d : option Z)
  (s1 s2 : Q) (m1 : Z) (m2 : option Z) (st : amended_state) :
  Qle_bool s1 th1 = false ->
  classify_amended_row th1 th2 pts id a b c d s1 s2 (Some m1) m2 st
  = Raise (NameError "overlap_more_than").
Proof.
  intros Hs. unfold classify_amended_row.
  destruct (drop_short pts c d) as [c1 d1]. rewrite Hs.
  destruct (if Qle_bool s2 th2 then (None, None) else (c1, d1)) as [c2 d2].
  unfold decide_amended at 1. cbn [is_none negb andb].
  rewrite load_overlap_more_than. reflexivity.
Qed.

End WithBuiltins.

Lemma parse_counts_match_lists_witness :
  exists st,
    @parse_model_evaluation_file stub_builtins sample_file 2.5 0.5 1
      (Some sample_exclusions) = Ok st
    /\ tp (counts (mod_tally st)) = 1%nat
    /\ fn (counts (mod_tally st)) = 1%nat
    /\ length (targets (mod_tally st)) = 2%nat.
Proof.
  eexists. split; [reflexivity |].
  pose proof (@parse_counts_match_lists stub_builtins sample_file 2.5 0.5 1
                (Some sample_exclusions) _ eq_refl) as H.
  cbn zeta in H. destruct H as (H1 & _ & _ & H4 & H5 & _).
  split; [exact H1 |]. split; [exact H4 |]. exact H5.
Defined.

Lemma parse_target_labels_witness :
  exists st,
    @parse_model_evaluation_file stub_builtins sample_file 2.5 0.5 1 None
    = Ok st
    /\ count_occ Z.eq_dec (targets (mod_tally st)) 1
       = (length (l_tp (mod_tally st)) + length (l_fn (mod_tally st)))%nat.
Proof.
  eexists. split; [reflexivity |].
  exact (proj1 (@parse_target_labels stub_builtins sample_file 2.5 0.5 1
                  None _ eq_refl)).
Defined.

Lemma parse_lists_sound_witness :
  exists st,
    @parse_model_evaluation_file stub_builtins sample_file 2.5 0.5 1 None
    = Ok st
    /\ Forall is_true_positive (l_tp (mod_tally st)).
Proof.
  eexists. split; [reflexivity |].
  exact (proj1 (@parse_lists_sound stub_builtins sample_file 2.5 0.5 1
                  None _ eq_refl)).
Defined.

Lemma excluded_row_is_skipped_witness :
  @for_each _ _ (@process_line stub_builtins ["PEPC"%string] 2.5 0.5 1)
    (["c1,run_PEPA_2,3,9,5,12,3,1"%string]
       ++ "c3,run_PEPC_3,x,y,z,,,"%string :: [])
    initial_eval_state
  = for_each (@process_line stub_builtins ["PEPC"%string] 2.5 0.5 1)
      (["c1,run_PEPA_2,3,9,5,12,3,1"%string] ++ [])
      initial_eval_state.
Proof.
  apply (@excluded_row_is_skipped stub_builtins ["PEPC"%string] 2.5 0.5 1
           "c3,run_PEPC_3,x,y,z,,,"
           "c3" "run_PEPC_3" "x" "y" "z" "" "" "" "PEPC");
    reflexivity.
Defined.

Lemma amended_parser_finds_no_true_positive_witness :
  exists st,
    @parse_amended_model_evaluation_file stub_builtins sample_amended_file
      2 0.5 1 [sample_index_file] (Some sample_inclusions) false = Ok st
    /\ fp (counts (a_osw st)) = 1%nat /\ fn (counts (a_osw st)) = 1%nat
    /\ l_tp (a_osw st) = [] /\ l_tp (a_mod st) = [].
Proof.
  eexists. split; [reflexivity |].
  pose proof (@amended_parser_finds_no_true_positive stub_builtins
                sample_amended_file 2 0.5 1 [sample_index_file]
                (Some sample_inclusions) false _ eq_refl)
    as (H1 & _ & H3 & _).
  split; [reflexivity |]. split; [reflexivity |].
  split; [exact H1 | exact H3].
Defined.

Lemma amended_row_raises_name_error_witness :
  @classify_amended_row stub_builtins 2 0.5 1 "c2" 3 9 None None 3 0
    (Some 4) (Some 8) initial_amended_state
  = Raise (NameError "overlap_more_than").
Proof.
  apply (@amended_row_raises_name_error stub_builtins 2 0.5 1 "c2" 3 9
           None None 3 0 4 (Some 8) initial_amended_state).
  reflexivity.
Defined.

Example amended_sample_raises :
  @parse_amended_model_evaluation_file stub_builtins sample_amended_file_2
    2 0.5 1 [sample_index_file] (Some sample_inclusions) false
  = Raise (NameError "overlap_more_than").
Proof. reflexivity. Qed.

Example sample_file_parsed :
  option_map (fun st => counts (mod_tally st))
    (match @parse_model_evaluation_file stub_builtins sample_file 2.5 0.5 1
             None with
     | Ok st => Some st
     | Raise _ => None
     end)
  = Some {| tp := 1; fp := 1; tn := 0; fn := 1 |}.
Proof. reflexivity. Qed.

End EvaluationProperties.

(** ** Properties of the window *)

Module WindowProperties.

Import OswParser OswWindow.
Local Open Scope Z_scope.

Example window_in_the_middle :
  labels_in_window (Some 3%Q) (Some 4%Q) [1; 2; 3; 4; 5; 6; 7]%Q 3 4%Q
  = Kept [1; 0; 0] (Some 0%nat) (Some 0%nat).
Proof. reflexivity. Qed.

Example even_window_in_the_middle :
  labels_in_window (Some 3%Q) (Some 4%Q) [1; 2; 3; 4; 5; 6; 7; 8; 9]%Q
    4 4%Q
  = Skipped.
Proof. reflexivity. Qed.

Example even_window_at_the_start :
  labels_in_window (Some 3%Q) (Some 4%Q) [1; 2; 3; 4; 5; 6; 7]%Q 4 1%Q
  = Kept [0; 0; 1; 1] (Some 2%nat) (Some 3%nat).
Proof. reflexivity. Qed.

Lemma bisect_loop_bounds (a : list Q) (x : Q) :
  forall fuel lo hi,
    (lo <= hi)%nat ->
    (lo <= bisect_loop fuel a x lo hi <= hi)%nat.
Proof.
  induction fuel as [|fuel IH]; intros lo hi Hle; cbn [bisect_loop];
    [lia |].
  destruct (Nat.ltb_spec lo hi) as [Hlt | Hge]; [| lia].
  assert (Hmid : (lo <= (lo + hi) / 2 < hi)%nat).
  { split.
    - apply Nat.div_le_lower_bound; lia.
    - apply Nat.Div0.div_lt_upper_bound; lia. }
  destruct (EvaluationFiles.Qlt_bool x (nth ((lo + hi) / 2) a 0%Q)).
  - pose proof (IH lo ((lo + hi) / 2)%nat ltac:(lia)). lia.
  - pose proof (IH ((lo + hi) / 2 + 1)%nat hi ltac:(lia)). lia.
Qed.

(** The fuel of [bisect] is enough: more fuel gives the same index. *)
Lemma bisect_loop_fuel (a : list Q) (x : Q) :
  forall fuel lo hi extra,
    (hi - lo <= fuel)%nat ->
    bisect_loop (fuel + extra) a x lo hi = bisect_loop fuel a x lo hi.
Proof.
  induction fuel as [|fuel IH]; intros lo hi extra Hfuel.
  - cbn [Nat.add bisect_loop]. destruct extra; [reflexivity |].
    cbn [bisect_loop].
    destruct (Nat.ltb_spec lo hi); [lia | reflexivity].
  - cbn [Nat.add bisect_loop].
    destruct (Nat.ltb_spec lo hi) as [Hlt | Hge]; [| reflexivity].
    assert (Hmid : (lo <= (lo + hi) / 2 < hi)%nat).
    { split.
      - apply Nat.div_le_lower_bound; lia.
      - apply Nat.Div0.div_lt_upper_bound; lia. }
    destruct (EvaluationFiles.Qlt_bool x (nth ((lo + hi) / 2) a 0%Q));
      apply IH; lia.
Qed.

Lemma bisect_bounds (a : list Q) (x : Q) : (bisect a x <= length a)%nat.
Proof.
  unfold bisect.
  pose proof (bisect_loop_bounds a x (length a) 0 (length a)). lia.
Qed.

Lemma py_slice_length {A : Type} (l : list A) (start stop : Z) :
  Z.of_nat (length (py_slice l start stop))
  = Z.max 0 (clip (Z.of_nat (length l)) stop
             - clip (Z.of_nat (length l)) start).
Proof.
  unfold py_slice. rewrite length_firstn, length_skipn.
  unfold clip.
  destruct (Z.ltb_spec start 0), (Z.ltb_spec stop 0); lia.
Qed.

Lemma py_slice_in_range {A : Type} (l : list A) (start stop : Z) :
  0 <= start -> start <= stop ->
  py_slice l start stop
  = firstn (Z.to_nat (Z.min stop (Z.of_nat (length l)) - start))
      (skipn (Z.to_nat start) l).
Proof.
  intros H0 Hle. unfold py_slice, clip.
  destruct (Z.ltb_spec start 0); [lia |].
  destruct (Z.ltb_spec stop 0); [lia |].
  destruct (Z.le_gt_cases start (Z.of_nat (length l))) as [Hs | Hs].
  - rewrite (Z.min_l start) by lia. reflexivity.
  - rewrite (Z.min_r start) by lia. rewrite (Z.min_r stop) by lia.
    rewrite !skipn_all2 by lia. now rewrite !firstn_nil.
Qed.

Lemma firstn_own_length {A : Type} (n : nat) (l : list A) :
  firstn (length (firstn n l)) l = firstn n l.
Proof.
  rewrite length_firstn.
  destruct (Nat.le_ge_cases n (length l)) as [H | H].
  - now rewrite Nat.min_l by exact H.
  - rewrite Nat.min_r by exact H.
    now rewrite !firstn_all2 by lia.
Qed.

Lemma half_span_facts (w : Z) :
  0 <= w ->
  (w = 2 * (w / 2) + 1 /\ Z.odd w = true)
  \/ (w = 2 * (w / 2) /\ Z.odd w = false).
Proof.
  intros Hw. pose proof (Zmod_odd w) as Hodd.
  pose proof (Z.div_mod w 2 ltac:(lia)) as Hdm.
  destruct (Z.odd w); [left | right]; split; try reflexivity; lia.
Qed.

(** The three shape tests of the window block look at one number. *)
Lemma window_block_tests (w : Z) (times : list Q) (exp_rt : Q)
  (row_labels : list Z) (bb_start bb_end : option nat) :
  0 <= w ->
  length row_labels = length times ->
  let bounds :=
    subsection w (Z.of_nat (bisect times exp_rt))
      (Z.of_nat (length times)) in
  let window := py_slice row_labels (fst bounds) (snd bounds) in
  window_block w times exp_rt row_labels bb_start bb_end
  = if Z.of_nat (length window) =? w
    then if (0 <? length (where_eq_1 window))%nat
         then Kept window (hd_error (where_eq_1 window))
                (Some (last (where_eq_1 window) 0%nat))
         else Kept window None None
    else Skipped.
Proof.
  intros Hw Hlen bounds window. unfold window_block.
  destruct (Z.geb_spec w 0) as [_ | N]; [| lia].
  fold bounds. destruct bounds as [l r] eqn:Eb. cbn [fst snd] in window.
  assert (Hz : Z.of_nat (length (py_slice (repeat 0%Q (length times)) l r))
               = Z.of_nat (length window)).
  { unfold window. rewrite !py_slice_length, repeat_length, Hlen.
    reflexivity. }
  rewrite Hz. fold window.
  destruct (Z.of_nat (length window) =? w); reflexivity.
Qed.

(** X15: with a window size [w >= 0], a chromatogram is kept exactly
    when it has at least [w] time points and either [w] is odd or the
    window touches one end of the chromatogram. With an even [w], a
    window that fits strictly inside is one point too long and the
    chromatogram is skipped. *)
Theorem window_kept_iff (w : Z) (times : list Q) (exp_rt : Q)
  (row_labels : list Z) (bb_start bb_end : option nat) :
  0 <= w ->
  length row_labels = length times ->
  window_block w times exp_rt row_labels bb_start bb_end <> Skipped
  <-> w <= Z.of_nat (length times)
      /\ (Z.odd w = true
          \/ Z.of_nat (bisect times exp_rt) < w / 2
          \/ Z.of_nat (length times)
             <= Z.of_nat (bisect times exp_rt) + w / 2 + 1).
Proof.
  intros Hw Hlen.
  rewrite (window_block_tests w times exp_rt row_labels bb_start bb_end
             Hw Hlen).
  cbn zeta.
  set (idx := Z.of_nat (bisect times exp_rt)).
  set (len := Z.of_nat (length times)).
  assert (Hidx : 0 <= idx <= len).
  { unfold idx, len. pose proof (bisect_bounds times exp_rt). lia. }
  assert (Hkept :
            Z.of_nat
              (length (py_slice row_labels (fst (subsection w idx len))
                         (snd (subsection w idx len)))) = w
            <-> w <= len
                /\ (Z.odd w = true \/ idx < w / 2 \/ len <= idx + w / 2 + 1)).
  { rewrite py_slice_length, Hlen. fold len.
    unfold subsection, clip.
    destruct (half_span_facts w Hw) as [[Hh Ho] | [Hh Ho]]; rewrite Ho;
      set (h := w / 2) in *;
      destruct (Z.ltb_spec (idx - h) 0);
      [ cbn [fst snd]
      | destruct (Z.geb_spec (idx + h + 1) len); cbn [fst snd]
      | cbn [fst snd]
      | destruct (Z.geb_spec (idx + h + 1) len); cbn [fst snd] ];
      repeat match goal with
             | |- context [Z.ltb ?a ?b] => destruct (Z.ltb_spec a b)
             end;
      split; intros; repeat split; try lia;
      try (right; lia); try (left; reflexivity);
      try match goal with
          | H : _ /\ (false = true \/ _) |- _ =>
              destruct H as [? [? | [? | ?]]]; try discriminate; lia
          end. }
  destruct (Z.eqb_spec
              (Z.of_nat
                 (length (py_slice row_labels (fst (subsection w idx len))
                            (snd (subsection w idx len))))) w) as [E | N].
  - split; [intros _; apply Hkept; exact E |].
    intros _.
    destruct (0 <? length (where_eq_1 _))%nat; discriminate.
  - split; [intros H; contradiction |].
    intros H. apply Hkept in H. contradiction.
Qed.

Lemma window_kept_iff_witness :
  window_block 4 [1; 2; 3; 4; 5; 6; 7; 8; 9]%Q 4%Q
    [0; 0; 1; 1; 0; 0; 0; 0; 0] None None <> Skipped
  <-> 4 <= Z.of_nat (length [1; 2; 3; 4; 5; 6; 7; 8; 9]%Q)
      /\ (Z.odd 4 = true
          \/ Z.of_nat (bisect [1; 2; 3; 4; 5; 6; 7; 8; 9]%Q 4%Q) < 4 / 2
          \/ Z.of_nat (length [1; 2; 3; 4; 5; 6; 7; 8; 9]%Q)
             <= Z.of_nat (bisect [1; 2; 3; 4; 5; 6; 7; 8; 9]%Q 4%Q)
                + 4 / 2 + 1).
Proof.
  apply (window_kept_iff 4 [1; 2; 3; 4; 5; 6; 7; 8; 9]%Q 4%Q
           [0; 0; 1; 1; 0; 0; 0; 0; 0] None None);
    [lia | reflexivity].
Defined.

(** A kept window is a run of [w] consecutive labels. *)
Lemma window_block_kept (w : Z) (times : list Q) (exp_rt : Q)
  (row_labels : list Z) (bb_start bb_end : option nat)
  (window : list Z) (s e : option nat) :
  0 <= w ->
  length row_labels = length times ->
  window_block w times exp_rt row_labels bb_start bb_end = Kept window s e ->
  (exists off : nat,
     (off + Z.to_nat w <= length times)%nat
     /\ window = firstn (Z.to_nat w) (skipn off row_labels))
  /\ length window = Z.to_nat w
  /\ (if (0 <? length (where_eq_1 window))%nat
      then s = hd_error (where_eq_1 window)
           /\ e = Some (last (where_eq_1 window) 0%nat)
      else s = None /\ e = None).
Proof.
  intros Hw Hlen Hrun.
  rewrite (window_block_tests w times exp_rt row_labels bb_start bb_end
             Hw Hlen) in Hrun.
  cbn zeta in Hrun.
  set (idx := Z.of_nat (bisect times exp_rt)) in *.
  set (len := Z.of_nat (length times)) in *.
  assert (Hidx : 0 <= idx <= len).
  { unfold idx, len. pose proof (bisect_bounds times exp_rt). lia. }
  destruct (subsection w idx len) as [l r] eqn:Eb. cbn [fst snd] in Hrun.
  destruct (Z.eqb_spec (Z.of_nat (length (py_slice row_labels l r))) w)
    as [E | N]; [| discriminate].
  assert (Hbb : (if (0 <? length (where_eq_1 (py_slice row_labels l r)))%nat
                 then s = hd_error (where_eq_1 (py_slice row_labels l r))
                      /\ e = Some (last (where_eq_1
                                           (py_slice row_labels l r)) 0%nat)
                 else s = None /\ e = None)
                /\ window = py_slice row_labels l r).
  { destruct (0 <? length (where_eq_1 (py_slice row_labels l r)))%nat;
      injection Hrun as <- <- <-; repeat split. }
  destruct Hbb as [Hbb ->].
  split; [| split; [lia | exact Hbb]].
  assert (Hl : 0 <= l /\ l <= r /\ l + w <= len).
  { pose proof (py_slice_length row_labels l r) as Hsl.
    rewrite Hlen in Hsl. fold len in Hsl. rewrite E in Hsl.
    unfold subsection in Eb. unfold clip in Hsl.
    destruct (half_span_facts w Hw) as [[Hh _] | [Hh _]];
      set (h := w / 2) in *;
      destruct (Z.ltb_spec (idx - h) 0);
      try (destruct (Z.geb_spec (idx + h + 1) len));
      injection Eb as <- <-;
      repeat match type of Hsl with
             | context [Z.ltb ?a ?b] => destruct (Z.ltb_spec a b)
             end;
      lia. }
  exists (Z.to_nat l). split; [lia |].
  rewrite (py_slice_in_range row_labels l r) by lia.
  rewrite <- (firstn_own_length
                (Z.to_nat (Z.min r (Z.of_nat (length row_labels)) - l))).
  f_equal.
  pose proof (py_slice_length row_labels l r) as Hsl.
  rewrite (py_slice_in_range row_labels l r) in Hsl, E by lia.
  lia.
Qed.

(** X16: when the labels of a chromatogram are kept under a window size
    [w >= 0], they are the labels of [w] consecutive time points: label
    [j] is 1 exactly when time [off + j] lies inside the peak, and the
    bounding box holds the first and the last index labelled 1 inside
    the window ([None] when there is none). *)
Theorem labels_in_window_spec (left_width right_width : option Q)
  (times : list Q) (w : Z) (exp_rt : Q)
  (window : list Z) (bb_start bb_end : option nat) :
  0 <= w ->
  labels_in_window left_width right_width times w exp_rt
  = Kept window bb_start bb_end ->
  exists off : nat,
    (off + Z.to_nat w <= length times)%nat
    /\ length window = Z.to_nat w
    /\ (forall j time,
          (j < Z.to_nat w)%nat ->
          nth_error times (off + j) = Some time ->
          (Reference.in_peak left_width right_width time
           /\ nth_error window j = Some 1)
          \/ (~ Reference.in_peak left_width right_width time
              /\ nth_error window j = Some 0))
    /\ match bb_start, bb_end with
       | Some s, Some e =>
           nth_error window s = Some 1 /\ nth_error window e = Some 1
           /\ forall i, nth_error window i = Some 1 -> (s <= i <= e)%nat
       | None, None => forall i, nth_error window i <> Some 1
       | _, _ => False
       end.
Proof.
  intros Hw Hrun. unfold labels_in_window in Hrun.
  unfold get_chromatogram_labels_and_bbox in Hrun.
  rewrite LabelProperties.append_loop_is_map in Hrun. cbn [app] in Hrun.
  set (row_labels := map (label_of left_width right_width) times) in *.
  assert (Hlen : length row_labels = length times) by apply length_map.
  assert (Hblock : exists bs be,
             window_block w times exp_rt row_labels bs be
             = Kept window bb_start bb_end).
  { destruct (0 <? length (where_eq_1 row_labels))%nat; eauto. }
  destruct Hblock as (bs & be & Hblock).
  destruct (window_block_kept w times exp_rt row_labels bs be window
              bb_start bb_end Hw Hlen Hblock)
    as ((off & Hoff & Hwin) & Hwlen & Hbb).
  exists off. repeat split; try assumption.
  - intros j time Hj Htime.
    assert (Hnth : nth_error window j
                   = Some (label_of left_width right_width time)).
    { rewrite Hwin, nth_error_firstn.
      destruct (Nat.ltb_spec j (Z.to_nat w)) as [_ | N]; [| lia].
      rewrite nth_error_skipn. unfold row_labels.
      rewrite nth_error_map, Htime. reflexivity. }
    rewrite Hnth.
    destruct (LabelProperties.label_of_cases left_width right_width time)
      as [[H ->] | [H ->]]; [left | right]; split; auto.
  - pose proof (LabelProperties.nonzero_from_sorted
                  (map (fun l => (l =? 1)%Z) window) 0) as Hsorted.
    fold (Tensor.nonzero (map (fun l => (l =? 1)%Z) window)) in Hsorted.
    fold (where_eq_1 window) in Hsorted.
    destruct (where_eq_1 window) as [|s0 idxs] eqn:Eidx;
      cbn [length Nat.ltb Nat.leb] in Hbb; destruct Hbb as [-> ->].
    + intros i Hi. apply LabelProperties.where_eq_1_In in Hi.
      rewrite Eidx in Hi. exact Hi.
    + cbn [hd_error]. repeat split.
      * apply LabelProperties.where_eq_1_In. rewrite Eidx. now left.
      * apply LabelProperties.where_eq_1_In. rewrite Eidx.
        apply LabelProperties.last_In. discriminate.
      * apply LabelProperties.where_eq_1_In in H. rewrite Eidx in H.
        exact (LabelProperties.sorted_head_least s0 idxs Hsorted i H).
      * apply LabelProperties.where_eq_1_In in H. rewrite Eidx in H.
        exact (LabelProperties.sorted_last_greatest (s0 :: idxs) Hsorted
                 i H).
Qed.

Lemma labels_in_window_spec_witness :
  exists off : nat,
    (off + Z.to_nat 3 <= length [1; 2; 3; 4; 5; 6; 7]%Q)%nat
    /\ length [1; 0; 0] = Z.to_nat 3
    /\ (forall j time,
          (j < Z.to_nat 3)%nat ->
          nth_error [1; 2; 3; 4; 5; 6; 7]%Q (off + j) = Some time ->
          (Reference.in_peak (Some 3%Q) (Some 4%Q) time
           /\ nth_error [1; 0; 0] j = Some 1)
          \/ (~ Reference.in_peak (Some 3%Q) (Some 4%Q) time
              /\ nth_error [1; 0; 0] j = Some 0))
    /\ (nth_error [1; 0; 0] 0 = Some 1 /\ nth_error [1; 0; 0] 0 = Some 1
        /\ forall i, nth_error [1; 0; 0] i = Some 1 -> (0 <= i <= 0)%nat).
Proof.
  apply (labels_in_window_spec (Some 3%Q) (Some 4%Q)
           [1; 2; 3; 4; 5; 6; 7]%Q 3 4%Q [1; 0; 0]
           (Some 0%nat) (Some 0%nat));
    [lia | reflexivity].
Defined.

End WindowProperties.

(** ** Properties of the chromatogram query *)

Module QueryProperties.

Import PyStr OswQueries.
Local Open Scope string_scope.

Example ms2_query_two_ids :
  ms2_query ["17"; "42"]
  = "SELECT ID FROM CHROMATOGRAM WHERE NATIVE_ID IN ('17', '42') ORDER BY NATIVE_ID ASC".
Proof. reflexivity. Qed.

Lemma append_assoc (a b c : string) : (a ++ b) ++ c = a ++ b ++ c.
Proof.
  induction a as [|x a IH]; [reflexivity |]. cbn [append]. now rewrite IH.
Qed.

Lemma length_append (a b : string) :
  String.length (a ++ b) = (String.length a + String.length b)%nat.
Proof.
  induction a as [|x a IH]; [reflexivity |].
  cbn [append String.length]. now rewrite IH.
Qed.

Lemma substring_prefix (a b : string) :
  substring 0 (String.length a) (a ++ b) = a.
Proof.
  induction a as [|x a IH].
  - destruct b; reflexivity.
  - cbn [append String.length substring]. now rewrite IH.
Qed.

Lemma drop_last_2_separator (s : string) : drop_last_2 (s ++ ", ") = s.
Proof.
  unfold drop_last_2. rewrite length_append. cbn [String.length].
  replace (String.length s + 2 - 2)%nat with (String.length s) by lia.
  apply substring_prefix.
Qed.

Lemma query_loop (ids : list string) :
  forall q,
    fold_left (fun q current_id => q ++ (("'" ++ current_id) ++ "', "))
      ids q
    = q ++ String.concat "" (map (fun id => quoted id ++ ", ") ids).
Proof.
  induction ids as [|x ids IH]; intros q.
  - cbn [fold_left map String.concat].
    induction q as [|c q IHq]; [reflexivity |]. cbn [append]. now f_equal.
  - cbn [fold_left map]. rewrite IH, append_assoc. f_equal.
    unfold quoted. rewrite !append_assoc.
    destruct ids as [|y ids]; cbn [map String.concat];
      [| rewrite !append_assoc]; reflexivity.
Qed.

Lemma items_join (ids : list string) :
  ids <> [] ->
  String.concat "" (map (fun id => quoted id ++ ", ") ids)
  = String.concat ", " (map quoted ids) ++ ", ".
Proof.
  induction ids as [|x ids IH]; [contradiction |]. intros _.
  destruct ids as [|y ids]; [reflexivity |].
  change (map (fun id => quoted id ++ ", ") (x :: y :: ids))
    with ((quoted x ++ ", ")
            :: map (fun id => quoted id ++ ", ") (y :: ids)).
  change (map quoted (x :: y :: ids))
    with (quoted x :: map quoted (y :: ids)).
  cbn [String.concat]. cbn [String.concat] in IH.
  cbn [map] in *.
  rewrite IH by discriminate.
  rewrite !append_assoc. reflexivity.
Qed.

(** X17: for a non-empty list of ids the query lists the ids, each
    between single quotes, separated by ", " inside [IN (...)]; for an
    empty list the slice [[:-2]] removes " (" instead of a separator and
    the text is no SQL: "... NATIVE_ID IN) ORDER BY ...". *)
Theorem ms2_query_text (transition_ids : list string) :
  (transition_ids <> [] ->
   ms2_query transition_ids
   = "SELECT ID FROM CHROMATOGRAM WHERE NATIVE_ID IN ("
       ++ String.concat ", " (map quoted transition_ids)
       ++ ") ORDER BY NATIVE_ID ASC")
  /\ (transition_ids = [] ->
      ms2_query transition_ids
      = "SELECT ID FROM CHROMATOGRAM WHERE NATIVE_ID IN) ORDER BY NATIVE_ID ASC").
Proof.
  split.
  - intros Hne. unfold ms2_query.
    rewrite query_loop, (items_join transition_ids Hne).
    rewrite <- append_assoc, drop_last_2_separator.
    rewrite append_assoc. reflexivity.
  - intros ->. reflexivity.
Qed.

Lemma ms2_query_text_witness :
  ms2_query ["17"; "42"]
  = "SELECT ID FROM CHROMATOGRAM WHERE NATIVE_ID IN ("
      ++ String.concat ", " (map quoted ["17"; "42"])
      ++ ") ORDER BY NATIVE_ID ASC".
Proof.
  apply (proj1 (ms2_query_text ["17"; "42"])). discriminate.
Defined.

End QueryProperties.

(** ** Further properties of the classification loss and of the labels *)

Module MoreProperties.

Import Tensor RegionProposalNetwork1d OswParser.

Lemma combine_app_l {A B : Type} (a : list A) :
  forall (b : list B) (extra : list A),
    length a = length b -> combine (a ++ extra) b = combine a b.
Proof.
  induction a as [|x a IH]; intros [|y b] extra H;
    try discriminate.
  - destruct extra; reflexivity.
  - injection H as H. cbn [app combine]. f_equal. now apply IH.
Qed.

(** X18: [rpn_loss] does not compare the number of probabilities with
    the number of labels: probabilities beyond the last label are
    ignored, by the classification loss and so by the total. *)
Theorem surplus_probabilities_are_ignored
  (probs surplus : list R) (labels : list Z)
  (pred target inside outside : list R)
  (sigma : R) (dim : list Z) (loss_box_weight : R) :
  length probs = length labels ->
  rpn_cross_entropy (probs ++ surplus) labels
  = rpn_cross_entropy probs labels
  /\ rpn_loss (probs ++ surplus) labels pred target inside outside sigma
       dim loss_box_weight
     = rpn_loss probs labels pred target inside outside sigma dim
         loss_box_weight.
Proof.
  intros Hlen.
  assert (E : rpn_cross_entropy (probs ++ surplus) labels
              = rpn_cross_entropy probs labels).
  { unfold rpn_cross_entropy, nonzero.
    pose proof (RpnLossProperties.index_select_nonzero
                  (map not_ignore labels) [] (probs ++ surplus)) as S1.
    pose proof (RpnLossProperties.index_select_nonzero
                  (map not_ignore labels) [] probs) as S2.
    rewrite length_map in S1, S2. cbn [app length] in S1, S2.
    rewrite S1 by (rewrite length_app; lia). rewrite S2 by lia.
    rewrite combine_app_l by (now rewrite length_map). reflexivity. }
  split; [exact E |]. unfold rpn_loss. now rewrite E.
Qed.

Lemma surplus_probabilities_are_ignored_witness :
  rpn_cross_entropy ([0.5%R] ++ [0.25%R; 7%R]) [1%Z]
  = rpn_cross_entropy [0.5%R] [1%Z]
  /\ rpn_loss ([0.5%R] ++ [0.25%R; 7%R]) [1%Z] [] [] [] [] 1%R [1%Z] 1%R
     = rpn_loss [0.5%R] [1%Z] [] [] [] [] 1%R [1%Z] 1%R.
Proof.
  apply (surplus_probabilities_are_ignored [0.5%R] [0.25%R; 7%R] [1%Z]
           [] [] [] [] 1%R [1%Z] 1%R).
  reflexivity.
Defined.

Lemma sorted_nth_le (l : list Q) :
  StronglySorted Qle l ->
  forall i j x y,
    (i <= j)%nat -> nth_error l i = Some x -> nth_error l j = Some y ->
    (x <= y)%Q.
Proof.
  induction 1 as [|a l Hs IH Hall]; intros i j x y Hij Hi Hj.
  - destruct i; discriminate.
  - destruct i as [|i], j as [|j]; cbn [nth_error] in Hi, Hj.
    + injection Hi as <-. injection Hj as <-. apply Qle_refl.
    + injection Hi as <-.
      exact (proj1 (Forall_forall _ _) Hall y (nth_error_In _ _ Hj)).
    + lia.
    + apply (IH i j); [lia | assumption | assumption].
Qed.

(** X19: when the times are in ascending order, the bounding box holds
    no gap: every index from [bb_start] to [bb_end] is labelled 1. *)
Theorem bbox_has_no_gap (left_width right_width : option Q)
  (times : list Q) :
  StronglySorted Qle times ->
  let '(row_labels, bb_start, bb_end) :=
    get_chromatogram_labels_and_bbox left_width right_width times in
  match bb_start, bb_end with
  | Some s, Some e =>
      forall i, (s <= i <= e)%nat -> nth_error row_labels i = Some 1%Z
  | _, _ => True
  end.
Proof.
  intros Hsorted. unfold get_chromatogram_labels_and_bbox.
  rewrite LabelProperties.append_loop_is_map. cbn [app].
  set (row_labels := map (label_of left_width right_width) times).
  destruct (where_eq_1 row_labels) as [|s idxs] eqn:Eidx;
    cbn [length Nat.ltb Nat.leb]; [exact I |].
  cbn [hd_error]. intros i [Hsi Hie].
  assert (Hs : nth_error row_labels s = Some 1%Z).
  { apply LabelProperties.where_eq_1_In. rewrite Eidx. now left. }
  assert (He : nth_error row_labels (last (s :: idxs) 0%nat) = Some 1%Z).
  { apply LabelProperties.where_eq_1_In. rewrite Eidx.
    apply LabelProperties.last_In. discriminate. }
  set (e := last (s :: idxs) 0%nat) in *.
  unfold row_labels in Hs, He |- *. rewrite nth_error_map in Hs, He |- *.
  destruct (nth_error times s) as [ts|] eqn:Ets; [| discriminate].
  destruct (nth_error times e) as [te|] eqn:Ete; [| discriminate].
  assert (Hi : exists ti, nth_error times i = Some ti).
  { destruct (nth_error times i) as [ti|] eqn:Eti; [eauto |].
    apply nth_error_None in Eti.
    assert (e < length times)%nat
      by (apply nth_error_Some; rewrite Ete; discriminate).
    lia. }
  destruct Hi as [ti Eti]. rewrite Eti. cbn [option_map] in *.
  injection Hs as Hs. injection He as He.
  destruct (LabelProperties.label_of_cases left_width right_width ts)
    as [[Ps _] | [_ Z0]]; [| rewrite Z0 in Hs; discriminate].
  destruct (LabelProperties.label_of_cases left_width right_width te)
    as [[Pe _] | [_ Z0]]; [| rewrite Z0 in He; discriminate].
  destruct (LabelProperties.label_of_cases left_width right_width ti)
    as [[_ ->] | [N _]]; [reflexivity | exfalso; apply N].
  destruct Ps as (l & r & El & Er & Hl0 & Hr0 & Hls & _).
  destruct Pe as (l' & r' & El' & Er' & _ & _ & _ & Her).
  rewrite El in El'. injection El' as <-.
  rewrite Er in Er'. injection Er' as <-.
  exists l, r. repeat split; try assumption.
  - apply (Qle_trans _ ts); [exact Hls |].
    exact (sorted_nth_le times Hsorted s i ts ti Hsi Ets Eti).
  - apply (Qle_trans _ te); [| exact Her].
    exact (sorted_nth_le times Hsorted i e ti te Hie Eti Ete).
Qed.

Lemma bbox_has_no_gap_witness :
  nth_error [0; 1; 1; 1; 0]%Z 2 = Some 1%Z.
Proof.
  refine (bbox_has_no_gap (Some 2.5%Q) (Some 4%Q)
            [1%Q; 2.5%Q; 3%Q; 4%Q; 5%Q] _ 2%nat _);
    [| split; repeat constructor].
  repeat (apply SSorted_cons; [| repeat apply Forall_cons;
                                 try apply Forall_nil; discriminate]).
  apply SSorted_nil.
Defined.

End MoreProperties.
